(** * DocuSign exporter: configuration, retrying executor, discovery, downloads

    A shallow embedding of [DocusignConfig] and [DocusignService] (the
    TypeScript service), of the constants and the command line of the
    package, and of the constructor, the chunk loop and the executor of
    the older JavaScript module ([Legacy]), with the properties of the
    export pipeline stated about them.

    Conventions of the embedding.
    - Numbers.  A JavaScript number is a finite number, taken as an
      exact rational ([Q]) without the rounding of floating point, or
      [NaN] ([Js.number]).  The numeric options may be any of them,
      whole or not; the infinities are left out, so that every bound of
      a session is finite.  Instants and durations are rationals, in
      milliseconds, so that [1000 / rateLimit] is exact.  HTTP statuses
      are integers.
    - Timers.  A timer fires exactly when it is due, and it is due
      after the delay Node makes of the one it is given ([Js.timeout]:
      1 ms for a delay below 1 or above [2^31 - 1]).
    - Errors.  [Thrown] has one constructor for each value a method of
      the service can end with: the errors it builds, a rejection it
      passes on, and the error of an [error] event that nobody listens
      for; [Rejection] has one for each kind of value a request function
      can reject with.
    - The world.  What the service awaits (HTTP replies, the end of a
      write, the creation of the output directory) is given by a [World]:
      for each awaited operation how it ends, after how long, and whether
      a collaborator calls [cancel()] while it is pending; and whether a
      collaborator listens for the [error] event.
    - Sequential code.  An [async] method run on its own is written in
      state-passing style over [Service]; every [await] advances the clock
      ([now]) by the time the awaited operation takes.
    - Concurrent code.  [Promise.all(chunk.map(async ...))] is run by an
      event loop ([Download.settle]): the callbacks first run one after
      the other up to their first suspension; then the suspended
      downloads are woken up in the order of the instants at which they
      are due (the one suspended first among those due together), each
      running alone up to its next [await].
    - Effects.  [emit], [setTimeout] and the invocations of a request
      function are recorded, in chronological order, in the [trace] of
      the service.
    - Loops that the source does not bound take a [fuel] argument, and
      [None] stands for its exhaustion. *)

From Stdlib Require Import String Ascii ZArith QArith List Bool Lia Lqa.
From Stdlib Require Import DecimalString Permutation Qround.
Import ListNotations.

Open Scope string_scope.
Open Scope Z_scope.

(* ================================================================== *)
(** ** JavaScript helpers *)

Module Js.

(** [a || b] on strings: [undefined] and the empty string are falsy. *)
Definition or_str (a : option string) (b : string) : string :=
  match a with
  | Some s => if String.eqb s EmptyString then b else s
  | None => b
  end.

(** A number as an option or a command-line argument can hold it. *)
Inductive number :=
| Num (q : Q)
| NaN.

(** A whole number. *)
Definition int (z : Z) : number := Num (inject_Z z).

(** [a < b] *)
Definition lt (a b : Q) : bool := negb (Qle_bool b a).

(** [a || b] on numbers: [undefined], [0] and [NaN] are falsy. *)
Definition or_num (a : option number) (b : Q) : Q :=
  match a with
  | Some (Num q) => if Qeq_bool q 0 then b else q
  | _ => b
  end.

(** [a < b] and [a > b] for an [a] that may be [NaN], which is neither
    below nor above anything. *)
Definition below (a : number) (b : Q) : bool :=
  match a with
  | Num q => lt q b
  | NaN => false
  end.

Definition above (a : number) (b : Q) : bool :=
  match a with
  | Num q => lt b q
  | NaN => false
  end.

(** [Math.min(a, b)] *)
Definition min (a b : Q) : Q := if Qle_bool a b then a else b.

(** The integer part of a number, which is what [slice] makes of a
    bound. *)
Definition trunc (q : Q) : Z :=
  if Qle_bool 0 q then Qfloor q else Qceiling q.

(** The largest delay of a timer. *)
Definition TIMEOUT_MAX : Q := 2147483647.

(** The delay after which the callback of [setTimeout(f, ms)] runs:
    Node replaces a delay below 1 or above [TIMEOUT_MAX] by 1. *)
Definition timeout (ms : Q) : Q :=
  if Qle_bool 1 ms && Qle_bool ms TIMEOUT_MAX then ms else 1.
Arguments timeout ms : simpl never.

(** Drop the first [n] characters. *)
Fixpoint drop (n : nat) (s : string) : string :=
  match n, s with
  | O, _ => s
  | S n', String _ s' => drop n' s'
  | S _, EmptyString => EmptyString
  end.

(** [s.replace(pat, rep)] with a string pattern: only the leftmost
    occurrence of [pat] is replaced. *)
Fixpoint replace (pat rep s : string) : string :=
  if String.prefix pat s then rep ++ drop (String.length pat) s
  else match s with
       | EmptyString => EmptyString
       | String c s' => String c (replace pat rep s')
       end.

(** [pat] occurs somewhere in [s]. *)
Fixpoint occurs (pat s : string) : bool :=
  String.prefix pat s ||
  match s with
  | EmptyString => false
  | String _ s' => occurs pat s'
  end.

(** Template-literal rendering of an optional integer. *)
Definition show_num (n : option Z) : string :=
  match n with
  | Some z => NilZero.string_of_int (Z.to_int z)
  | None => "undefined"
  end.

(** [xs.slice(i, j)] for [0 <= i]: the bounds lose their fractions. *)
Definition slice {A} (xs : list A) (i j : Q) : list A :=
  firstn (Z.to_nat (trunc j - trunc i)) (skipn (Z.to_nat (trunc i)) xs).

End Js.

(* ================================================================== *)
(** ** Session configuration *)

Record DocusignConfigOptions := {
  opt_token : option string;
  opt_accountId : option string;
  opt_userId : option string;
  opt_cookie : option string;
  opt_environment : option string;
  opt_outputFormat : option string;
  opt_outputPath : option string;
  opt_maxConcurrent : option Js.number;
  opt_retryAttempts : option Js.number;
  opt_retryDelay : option Js.number;
  opt_rateLimit : option Js.number
}.

(** The variables of [process.env] the constructor reads. *)
Record ProcessEnv := {
  DOCUSIGN_TOKEN : option string;
  DOCUSIGN_ACCOUNT_ID : option string;
  DOCUSIGN_USER_ID : option string;
  DOCUSIGN_COOKIE : option string
}.

Record DocusignConfig := {
  token : string;
  accountId : string;
  userId : string;
  cookie : string;
  environment : string;
  outputFormat : string;
  outputPath : string;
  maxConcurrent : Q;
  retryAttempts : Q;
  retryDelay : Q;
  rateLimit : Q
}.

(** Results of fallible operations. *)
Inductive result (E A : Type) : Type :=
| Ok (a : A)
| Err (e : E).
Arguments Ok {E A} a.
Arguments Err {E A} e.

(** The fields [validate] can complain about, in the order it checks them. *)
Inductive config_field :=
| FToken | FAccountId | FCookie | FEnvironment
| FMaxConcurrent | FRetryAttempts | FRetryDelay | FRateLimit.

(** The double-quote character of the message about the environment. *)
Definition dquote : string := String (Ascii.ascii_of_nat 34) EmptyString.

(** [new Error(message)] as thrown by [validate]. *)
Definition field_message (f : config_field) : string :=
  match f with
  | FToken => "DocuSign token is required"
  | FAccountId => "DocuSign account ID is required"
  | FCookie => "DocuSign cookie is required"
  | FEnvironment =>
      "Environment must be either " ++ dquote ++ "production" ++ dquote
      ++ " or " ++ dquote ++ "demo" ++ dquote
  | FMaxConcurrent => "maxConcurrent must be at least 1"
  | FRetryAttempts => "retryAttempts must be non-negative"
  | FRetryDelay => "retryDelay must be non-negative"
  | FRateLimit => "rateLimit must be at least 1"
  end.

Module Config.

(** The field assignments of the constructor, before [validate]. *)
Definition merge (env : ProcessEnv) (config : DocusignConfigOptions)
  : DocusignConfig :=
  {| token :=
       Js.replace "Bearer " EmptyString
         (Js.or_str (opt_token config)
            (Js.or_str (DOCUSIGN_TOKEN env) EmptyString));
     accountId :=
       Js.or_str (opt_accountId config)
         (Js.or_str (DOCUSIGN_ACCOUNT_ID env) EmptyString);
     userId :=
       Js.or_str (opt_userId config)
         (Js.or_str (DOCUSIGN_USER_ID env) EmptyString);
     cookie :=
       Js.or_str (opt_cookie config)
         (Js.or_str (DOCUSIGN_COOKIE env) EmptyString);
     environment := Js.or_str (opt_environment config) "production";
     outputFormat := Js.or_str (opt_outputFormat config) "combined";
     outputPath := Js.or_str (opt_outputPath config) "./docusign_downloads";
     maxConcurrent := Js.min (Js.or_num (opt_maxConcurrent config) 3) 5;
     retryAttempts := Js.or_num (opt_retryAttempts config) 3;
     retryDelay := Js.or_num (opt_retryDelay config) 1000;
     rateLimit := Js.or_num (opt_rateLimit config) 5 |}.

(** [validate()]: the first failing check throws; [None] when all pass. *)
Definition validate (c : DocusignConfig) : option config_field :=
  if String.eqb (token c) EmptyString then Some FToken
  else if String.eqb (accountId c) EmptyString then Some FAccountId
  else if String.eqb (cookie c) EmptyString then Some FCookie
  else if negb (existsb (String.eqb (environment c)) ["production"; "demo"])
       then Some FEnvironment
  else if Js.lt (maxConcurrent c) 1 then Some FMaxConcurrent
  else if Js.lt (retryAttempts c) 0 then Some FRetryAttempts
  else if Js.lt (retryDelay c) 0 then Some FRetryDelay
  else if Js.lt (rateLimit c) 1 then Some FRateLimit
  else None.

(** [new DocusignConfig(config)]: the error carries the message of the
    field that failed. *)
Definition new (env : ProcessEnv) (config : DocusignConfigOptions)
  : result string DocusignConfig :=
  let c := merge env config in
  match validate c with
  | Some f => Err (field_message f)
  | None => Ok c
  end.

Definition getBaseUrl (c : DocusignConfig) : string :=
  if String.eqb (environment c) "production"
  then "https://apps.docusign.com/api/esign/na3/restapi/v2.1"
  else "https://demo.docusign.net/restapi/v2.1".

(** What [validate] guarantees of a constructed configuration. *)
Definition valid (c : DocusignConfig) : Prop :=
  token c <> EmptyString /\ accountId c <> EmptyString /\
  cookie c <> EmptyString /\
  (environment c = "production" \/ environment c = "demo") /\
  (1 <= maxConcurrent c)%Q /\ (0 <= retryAttempts c)%Q /\
  (0 <= retryDelay c)%Q /\ (1 <= rateLimit c)%Q.

(** The checks of the specification, in its order: each field with the
    test that makes it invalid. *)
Definition checks (c : DocusignConfig) : list (config_field * bool) :=
  [ (FToken, String.eqb (token c) EmptyString);
    (FAccountId, String.eqb (accountId c) EmptyString);
    (FCookie, String.eqb (cookie c) EmptyString);
    (FEnvironment,
      negb (String.eqb (environment c) "production"
            || String.eqb (environment c) "demo"));
    (FMaxConcurrent, Js.lt (maxConcurrent c) 1);
    (FRetryAttempts, Js.lt (retryAttempts c) 0);
    (FRetryDelay, Js.lt (retryDelay c) 0);
    (FRateLimit, Js.lt (rateLimit c) 1) ].

Definition first_invalid (c : DocusignConfig) : option config_field :=
  option_map fst (find snd (checks c)).

(** Some numeric option is given and negative. *)
Definition negative_bound (config : DocusignConfigOptions) : Prop :=
  exists q, (q < 0)%Q /\
    (opt_maxConcurrent config = Some (Js.Num q)
     \/ opt_retryAttempts config = Some (Js.Num q)
     \/ opt_retryDelay config = Some (Js.Num q)
     \/ opt_rateLimit config = Some (Js.Num q)).

(** Some numeric option is given and not positive. *)
Definition nonpositive_bound (config : DocusignConfigOptions) : Prop :=
  exists q, (q <= 0)%Q /\
    (opt_maxConcurrent config = Some (Js.Num q)
     \/ opt_retryAttempts config = Some (Js.Num q)
     \/ opt_retryDelay config = Some (Js.Num q)
     \/ opt_rateLimit config = Some (Js.Num q)).

End Config.

(* ================================================================== *)
(** ** The service: data, events and the world it talks to *)

Record Envelope := {
  envelopeId : string;
  status : string;
  emailSubject : option string;
  sentDateTime : option string;
  completedDateTime : option string
}.

(** What a request function can reject with.  A response status is only
    present on an [AxiosError]: that is how axios reports an HTTP failure,
    and the only place where the executor reads it.  Of a value that is
    not an [Error] only [shown] matters, which is how [util.inspect]
    prints it. *)
Inductive Rejection :=
| AxiosError (status : option Z) (dataMessage : option string)
             (message : string)
| OtherError (message : string)
| NonError (shown : string).

Inductive Outcome (T : Type) :=
| Resolved (v : T)
| Rejected (r : Rejection).
Arguments Resolved {T} v.
Arguments Rejected {T} r.

(** The settlement of one awaited operation: how it ends, for how many
    milliseconds it was pending, and whether a collaborator called
    [cancel()] meanwhile. *)
Record Reply (T : Type) := {
  outcome : Outcome T;
  pending : N;
  interrupted : bool
}.
Arguments outcome {T} r.
Arguments pending {T} r.
Arguments interrupted {T} r.

(** The time an operation was pending, as a duration. *)
Definition latency {T} (r : Reply T) : Q := inject_Z (Z.of_N (pending r)).

(** The values the service throws: the token-expired error and the API
    error built in the [catch] block of the executor, the [RangeError] of
    [toISOString] on an invalid date, a rejection passed on as it is,
    and the error with which [emit] answers an [error] event that
    nobody listens for and that carries no [Error]. *)
Inductive Thrown :=
| TokenExpired
| ApiError (message : string) (status : option Z)
| InvalidTime
| Rethrown (r : Rejection)
| Unhandled (shown : string).

(** [error.message] of a thrown value that is an [Error]. *)
Definition thrown_message (e : Thrown) : option string :=
  match e with
  | TokenExpired =>
      Some "Token expired. Please refresh your authentication token."
  | ApiError message status =>
      Some ("DocuSign API Error: " ++ message
            ++ " (Status: " ++ Js.show_num status ++ ")")
  | InvalidTime => Some "Invalid time value"
  | Rethrown (AxiosError _ _ message) => Some message
  | Rethrown (OtherError message) => Some message
  | Rethrown (NonError _) => None
  | Unhandled shown => Some ("Unhandled error. (" ++ shown ++ ")")
  end.

(** [error instanceof Error ? error.message : 'Unknown error'] *)
Definition describe (e : Thrown) : string :=
  match thrown_message e with
  | Some m => m
  | None => "Unknown error"
  end.

Inductive Event :=
| searchStarted (fromDate toDate : string)
| envelopesFound (count total : nat)
| downloadStarted (id : string)
| downloadComplete (id : string) (downloaded total : nat)
| downloadError (id : string) (error : string)
| retrying (attempt : Z) (delay : Q) (error : string)
| tokenExpired
| error (e : Thrown)
| allDownloadsComplete (total : nat)
| cancelled.

Inductive Request :=
| ListEnvelopes (from_date to_date : string) (start_position : Z)
| CombinedDocument (id : string).

Inductive Timer := Pacing | Backoff.

Inductive Effect :=
| Emit (e : Event)
| Timeout (t : Timer) (ms : Q)
| Dispatch (at_ : Q) (r : Request).

Record Headers := {
  accept : string;
  authorization : string;
  Cookie : string
}.

Record Service := {
  config : DocusignConfig;
  envelopes : list Envelope;
  isCancelled : bool;
  lastRequestTime : Q;
  (* the surroundings: [Date.now()] and what has been done so far *)
  now : Q;
  trace : list Effect
}.

(** Everything outside the service.  Replies to the listing are indexed by
    the page call, its [start_position] and the attempt; replies to a
    download by the position of the envelope in the result set and the
    attempt.  [listensForError] says whether a collaborator has
    registered a listener for the [error] event. *)
Record World := {
  listensForError : bool;
  toISOString : string -> option string;
  listReply : nat -> Z -> Z -> Reply (option (list Envelope));
  ensureDirReply : Reply unit;
  docReply : nat -> Z -> Reply unit;
  writeReply : nat -> Reply unit
}.

Module Service.

(** [_buildHeaders()] *)
Definition _buildHeaders (c : DocusignConfig) : Headers :=
  {| accept := "application/json";
     authorization := "Bearer " ++ token c;
     Cookie := cookie c |}.

(** The fields the constructor initialises ([headers] and [baseApiUrl] are
    functions of the configuration); [t0] is the time of the clock. *)
Definition new (c : DocusignConfig) (t0 : Q) : Service :=
  {| config := c; envelopes := []; isCancelled := false;
     lastRequestTime := 0%Q; now := t0; trace := [] |}.

Definition record (e : Effect) (s : Service) : Service :=
  {| config := config s; envelopes := envelopes s;
     isCancelled := isCancelled s; lastRequestTime := lastRequestTime s;
     now := now s; trace := trace s ++ [e] |}.

Definition emit (e : Event) (s : Service) : Service := record (Emit e) s.

(** Time passes while the caller is suspended. *)
Definition elapse (ms : Q) (s : Service) : Service :=
  {| config := config s; envelopes := envelopes s;
     isCancelled := isCancelled s; lastRequestTime := lastRequestTime s;
     now := (now s + ms)%Q; trace := trace s |}.

(** [await new Promise(resolve => setTimeout(resolve, ms))] *)
Definition setTimeout (t : Timer) (ms : Q) (s : Service) : Service :=
  elapse (Js.timeout ms) (record (Timeout t ms) s).

Definition set_lastRequestTime (t : Q) (s : Service) : Service :=
  {| config := config s; envelopes := envelopes s;
     isCancelled := isCancelled s; lastRequestTime := t;
     now := now s; trace := trace s |}.

Definition push (es : list Envelope) (s : Service) : Service :=
  {| config := config s; envelopes := envelopes s ++ es;
     isCancelled := isCancelled s; lastRequestTime := lastRequestTime s;
     now := now s; trace := trace s |}.

(** [cancel()] *)
Definition cancel (s : Service) : Service :=
  emit cancelled
    {| config := config s; envelopes := envelopes s;
       isCancelled := true; lastRequestTime := lastRequestTime s;
       now := now s; trace := trace s |}.

(** A collaborator's [cancel()] runs while the service is suspended. *)
Definition interrupt (b : bool) (s : Service) : Service :=
  if b then cancel s else s.

Definition minRequestInterval (s : Service) : Q :=
  (1000 / rateLimit (config s))%Q.

(** The wait [_rateLimit] decides on when it is called. *)
Definition pacingWait (s : Service) : option Q :=
  let timeSinceLastRequest := (now s - lastRequestTime s)%Q in
  if Js.lt timeSinceLastRequest (minRequestInterval s)
  then Some (minRequestInterval s - timeSinceLastRequest)%Q
  else None.

(** [_rateLimit()], run without anything else in between. *)
Definition _rateLimit (s : Service) : Service :=
  let s1 := match pacingWait s with
            | Some ms => setTimeout Pacing ms s
            | None => s
            end in
  set_lastRequestTime (now s1) s1.

(** [await requestFn()]: the request leaves now and settles later. *)
Definition invoke {T} (req : Request) (r : Reply T) (s : Service)
  : Service :=
  interrupt (interrupted r)
    (elapse (latency r) (record (Dispatch (now s) req) s)).

Definition is_status (st : option Z) (n : Z) : bool :=
  match st with
  | Some z => z =? n
  | None => false
  end.

(** [status ?? 0] *)
Definition status_or_zero (st : option Z) : Z :=
  match st with
  | Some z => z
  | None => 0
  end.

(** The status test that guards the retry branch. *)
Definition retryable (st : option Z) : bool :=
  is_status st 429 || (500 <=? status_or_zero st).

(** [retryDelay * Math.pow(2, attempt - 1)], for the attempts from 1
    on. *)
Definition backoffDelay (c : DocusignConfig) (attempt : Z) : Q :=
  (retryDelay c * inject_Z (2 ^ (attempt - 1)))%Q.

(** [_retryableRequest(requestFn, attempt)]; [fuel] bounds the depth of
    the recursion. *)
Fixpoint retry {T} (fuel : nat) (req : Request) (requestFn : Z -> Reply T)
    (attempt : Z) (s : Service) : option (Service * result Thrown T) :=
  match fuel with
  | O => None
  | S fuel' =>
      let s1 := _rateLimit s in
      let r := requestFn attempt in
      let s2 := invoke req r s1 in
      match outcome r with
      | Resolved v => Some (s2, Ok v)
      | Rejected (AxiosError st dataMessage message) =>
          if is_status st 401
          then Some (emit tokenExpired s2, Err TokenExpired)
          else
            let propagate :=
              Some (s2, Err (ApiError (Js.or_str dataMessage message) st)) in
            if retryable st then
              if Qle_bool (inject_Z attempt) (retryAttempts (config s2)) then
                let delay := backoffDelay (config s2) attempt in
                retry fuel' req requestFn (attempt + 1)
                  (setTimeout Backoff delay
                     (emit (retrying attempt delay message) s2))
              else propagate
            else propagate
      | Rejected e => Some (s2, Err (Rethrown e))
      end
  end.

(** The last attempt that is retried: the integer part of the retry
    ceiling. *)
Definition ceiling (c : DocusignConfig) : Z := Qfloor (retryAttempts c).

(** Enough fuel for every attempt the retry ceiling allows. *)
Definition attempts_fuel (c : DocusignConfig) : nat :=
  S (Z.to_nat (ceiling c)).

Definition _retryableRequest {T} (req : Request) (requestFn : Z -> Reply T)
    (s : Service) : option (Service * result Thrown T) :=
  retry (attempts_fuel (config s)) req requestFn 1 s.

(** [e instanceof Error] *)
Definition instanceofError (e : Thrown) : bool :=
  match e with
  | Rethrown (NonError _) => false
  | _ => true
  end.

(** What [this.emit('error', e)] throws when nobody listens for the
    event: [e] itself when it is an [Error], otherwise an [Error] that
    shows it. *)
Definition unhandled (e : Thrown) : Thrown :=
  match e with
  | Rethrown (NonError shown) => Unhandled shown
  | _ => e
  end.

(** The value with which a [catch] block that runs
    [this.emit('error', e); throw e] ends. *)
Definition raise (w : World) (e : Thrown) : Thrown :=
  if listensForError w then e else unhandled e.

End Service.

(* ================================================================== *)
(** ** Resource discovery *)

Module Discovery.
Import Service.

(** [params.count] *)
Definition count : Z := 100.

(** [response.data.envelopes?.length ?? 0] *)
Definition length_or_zero (data : option (list Envelope)) : Z :=
  match data with
  | Some es => Z.of_nat (length es)
  | None => 0
  end.

(** The [while (hasMore && !this.isCancelled)] loop, entered with
    [hasMore] true; [k] counts the page calls made so far and
    [start_position] is the field of [params]. *)
Fixpoint paging (fuel : nat) (w : World) (from_date to_date : string)
    (k : nat) (start_position : Z) (s : Service)
  : option (Service * result Thrown (list Envelope)) :=
  match fuel with
  | O => None
  | S fuel' =>
      if isCancelled s then Some (s, Ok (envelopes s))
      else
        match _retryableRequest
                (ListEnvelopes from_date to_date start_position)
                (listReply w k start_position) s with
        | None => None
        | Some (s1, Err e) => Some (emit (error e) s1, Err (raise w e))
        | Some (s1, Ok data) =>
            let '(s2, start_position') :=
              match data with
              | Some es =>
                  let s' := push es s1 in
                  (emit (envelopesFound (length es) (length (envelopes s'))) s',
                   Z.of_nat (length (envelopes s')))
              | None => (s1, start_position)
              end in
            let hasMore := length_or_zero data =? count in
            if hasMore
            then paging fuel' w from_date to_date (S k) start_position' s2
            else Some (s2, Ok (envelopes s2))
        end
  end.

(** [getEnvelopesWebApi(fromDate, toDate)] *)
Definition getEnvelopesWebApi (fuel : nat) (w : World)
    (fromDate toDate : string) (s : Service)
  : option (Service * result Thrown (list Envelope)) :=
  if isCancelled s then Some (s, Ok [])
  else
    match toISOString w fromDate, toISOString w toDate with
    | Some fromDateISO, Some toDateISO =>
        paging fuel w fromDateISO toDateISO 0 0
          (emit (searchStarted fromDate toDate) s)
    | _, _ =>
        Some (emit (error InvalidTime) s, Err (raise w InvalidTime))
    end.

End Discovery.

(* ================================================================== *)
(** ** Concurrent downloader *)

Module Download.
Import Service.

(** The [for (let i = 0; i < length; i += maxConcurrent)] loop that
    slices the result set.  [validate] makes [maxConcurrent] at least 1,
    so [length xs] iterations are never exceeded. *)
Fixpoint slices {A} (fuel : nat) (xs : list A) (m i : Q) : list (list A) :=
  match fuel with
  | O => []
  | S fuel' =>
      if Js.lt i (inject_Z (Z.of_nat (length xs)))
      then Js.slice xs i (i + m) :: slices fuel' xs m (i + m)%Q
      else []
  end.

Definition chunks {A} (xs : list A) (m : Q) : list (list A) :=
  slices (length xs) xs m 0.

(** The service together with the local [downloadedCount] that the
    tasks of a batch share. *)
Record State := {
  svc : Service;
  downloadedCount : nat
}.

Definition lift (f : Service -> Service) (d : State) : State :=
  {| svc := f (svc d); downloadedCount := downloadedCount d |}.

(** One download: the envelope and its position in the result set. *)
Record Task := {
  index : nat;
  envelope : Envelope
}.

Definition id (t : Task) : string := envelopeId (envelope t).

(** Where a download is suspended, that is the [await] it is waiting at:
    the timer of [_rateLimit]; the [await] of [_rateLimit()] when it has
    returned without waiting; the [await] of [requestFn()]; the timer of
    the retry branch; the promise that ends with the write stream. *)
Inductive Suspended :=
| PaceTimer (t : Task) (attempt : Z)
| PaceReturn (t : Task) (attempt : Z)
| InFlight (t : Task) (attempt : Z)
| BackoffTimer (t : Task) (attempt : Z)
| Writing (t : Task).

(** A suspended download and the instant at which it is woken up. *)
Definition Entry : Type := Q * Suspended.

Definition set_now (t : Q) (s : Service) : Service :=
  {| config := config s; envelopes := envelopes s;
     isCancelled := isCancelled s; lastRequestTime := lastRequestTime s;
     now := t; trace := trace s |}.

Definition stamp (s : Service) : Service := set_lastRequestTime (now s) s.

(** [requestFn()] of a download. *)
Definition dispatch (w : World) (t : Task) (attempt : Z) (d : State)
  : State * Entry :=
  (lift (record (Dispatch (now (svc d)) (CombinedDocument (id t)))) d,
   ((now (svc d) + latency (docReply w (index t) attempt))%Q,
    InFlight t attempt)).

(** [_retryableRequest] up to its first suspension, reached from the
    synchronous part of the [map] callback: either the timer of
    [_rateLimit], or the [await] of its already fulfilled promise. *)
Definition enter_from_map (t : Task) (attempt : Z) (d : State)
  : State * Entry :=
  match pacingWait (svc d) with
  | Some ms =>
      (lift (record (Timeout Pacing ms)) d,
       ((now (svc d) + Js.timeout ms)%Q, PaceTimer t attempt))
  | None => (lift stamp d, (now (svc d), PaceReturn t attempt))
  end.

(** The same entry reached from a timer callback: nothing else runs
    before the continuation of the fulfilled [await]. *)
Definition enter (w : World) (t : Task) (attempt : Z) (d : State)
  : State * Entry :=
  match pacingWait (svc d) with
  | Some ms =>
      (lift (record (Timeout Pacing ms)) d,
       ((now (svc d) + Js.timeout ms)%Q, PaceTimer t attempt))
  | None => dispatch w t attempt (lift stamp d)
  end.

(** The synchronous part of the callback given to [chunk.map]. *)
Definition start (t : Task) (d : State) : State * Entry :=
  enter_from_map t 1 (lift (emit (downloadStarted (id t))) d).

(** The [catch] block of the callback. *)
Definition failed (t : Task) (e : Thrown) (d : State) : State :=
  lift (emit (downloadError (id t) (describe e))) d.

(** [downloadedCount++] and the [downloadComplete] notification. *)
Definition completed (t : Task) (d : State) : State :=
  let n := S (downloadedCount d) in
  {| svc := emit (downloadComplete (id t) n (length (envelopes (svc d))))
              (svc d);
     downloadedCount := n |}.

(** What a download does when it is woken up, until it is suspended
    again ([Some]) or has ended ([None]). *)
Definition resume (w : World) (p : Suspended) (d : State)
  : State * option Entry :=
  match p with
  | PaceTimer t attempt =>
      let '(d1, e) := dispatch w t attempt (lift stamp d) in (d1, Some e)
  | PaceReturn t attempt =>
      let '(d1, e) := dispatch w t attempt d in (d1, Some e)
  | InFlight t attempt =>
      let r := docReply w (index t) attempt in
      let d1 := lift (interrupt (interrupted r)) d in
      match outcome r with
      | Resolved _ =>
          (d1, Some ((now (svc d1) + latency (writeReply w (index t)))%Q,
                     Writing t))
      | Rejected (AxiosError st dataMessage message) =>
          if is_status st 401
          then (failed t TokenExpired (lift (emit tokenExpired) d1), None)
          else
            let propagate :=
              (failed t (ApiError (Js.or_str dataMessage message) st) d1,
               None) in
            if retryable st then
              if Qle_bool (inject_Z attempt)
                   (retryAttempts (config (svc d1))) then
                let delay := backoffDelay (config (svc d1)) attempt in
                (lift (record (Timeout Backoff delay))
                   (lift (emit (retrying attempt delay message)) d1),
                 Some ((now (svc d1) + Js.timeout delay)%Q,
                       BackoffTimer t attempt))
              else propagate
            else propagate
      | Rejected e => (failed t (Rethrown e) d1, None)
      end
  | BackoffTimer t attempt =>
      let '(d1, e) := enter w t (attempt + 1) d in (d1, Some e)
  | Writing t =>
      let r := writeReply w (index t) in
      let d1 := lift (interrupt (interrupted r)) d in
      match outcome r with
      | Resolved _ => (completed t d1, None)
      | Rejected e => (failed t (Rethrown e) d1, None)
      end
  end.

(** The event loop takes the suspended download that is due first;
    among downloads due at the same instant, the one suspended first. *)
Fixpoint pick (queue : list Entry) : option (Entry * list Entry) :=
  match queue with
  | [] => None
  | e :: rest =>
      match pick rest with
      | None => Some (e, [])
      | Some (e', rest') =>
          if Qle_bool (fst e) (fst e') then Some (e, rest)
          else Some (e', e :: rest')
      end
  end.

Definition opt_list {A} (o : option A) : list A :=
  match o with
  | Some a => [a]
  | None => []
  end.

(** [chunk.map(async envelope => ...)]: the callbacks run one after the
    other, each up to its first suspension. *)
Fixpoint starts (base : nat) (chunk : list Envelope) (d : State)
  : State * list Entry :=
  match chunk with
  | [] => (d, [])
  | e :: rest =>
      let '(d1, en) := start {| index := base; envelope := e |} d in
      let '(d2, ens) := starts (S base) rest d1 in
      (d2, en :: ens)
  end.

(** [await Promise.all(...)]: the suspended downloads are woken up in
    turn until none is left. *)
Fixpoint settle (fuel : nat) (w : World) (queue : list Entry) (d : State)
  : option State :=
  match pick queue with
  | None => Some d
  | Some ((t, p), rest) =>
      match fuel with
      | O => None
      | S fuel' =>
          let '(d1, next) := resume w p (lift (set_now t) d) in
          settle fuel' w (rest ++ opt_list next) d1
      end
  end.

(** Wake-ups one download can need. *)
Definition task_fuel (c : DocusignConfig) : nat :=
  3 * Z.to_nat (ceiling c) + 3.

Definition run_chunk (w : World) (base : nat) (chunk : list Envelope)
    (d : State) : option State :=
  let '(d1, queue) := starts base chunk d in
  settle (length chunk * task_fuel (config (svc d))) w queue d1.

(** [for (const chunk of chunks)] with its [break] on cancellation;
    [base] is the position of the chunk's first envelope. *)
Fixpoint each_chunk (w : World) (base : nat) (cs : list (list Envelope))
    (d : State) : option State :=
  match cs with
  | [] => Some d
  | chunk :: rest =>
      if isCancelled (svc d) then Some d
      else
        match run_chunk w base chunk d with
        | Some d1 => each_chunk w (base + length chunk) rest d1
        | None => None
        end
  end.

(** [await fs.ensureDir(outputDir)] *)
Definition ensureDir (w : World) (s : Service) : Service :=
  interrupt (interrupted (ensureDirReply w))
    (elapse (latency (ensureDirReply w)) s).

(** The callback given to [chunk.map], read from top to bottom as when
    nothing else is in flight: the rest of it after the executor has
    returned or thrown, and the whole of it. *)
Definition finish (w : World) (t : Task) (r : result Thrown unit) (d : State)
  : State :=
  match r with
  | Ok _ =>
      let written := writeReply w (index t) in
      let d1 := lift (interrupt (interrupted written))
                  (lift (elapse (latency written)) d) in
      match outcome written with
      | Resolved _ => completed t d1
      | Rejected e => failed t (Rethrown e) d1
      end
  | Err e => failed t e d
  end.

Definition alone (w : World) (t : Task) (d : State) : option State :=
  let d0 := lift (emit (downloadStarted (id t))) d in
  match _retryableRequest (CombinedDocument (id t))
          (docReply w (index t)) (svc d0) with
  | Some (s1, r) =>
      Some (finish w t r
              {| svc := s1; downloadedCount := downloadedCount d0 |})
  | None => None
  end.

(** [downloadDocuments()] *)
Definition downloadDocuments (w : World) (s : Service)
  : option (Service * result Thrown unit) :=
  if (length (envelopes s) =? 0)%nat || isCancelled s then Some (s, Ok tt)
  else
    let s1 := ensureDir w s in
    match outcome (ensureDirReply w) with
    | Rejected e => Some (s1, Err (Rethrown e))
    | Resolved _ =>
        let cs := chunks (envelopes s1) (maxConcurrent (config s1)) in
        match each_chunk w 0 cs {| svc := s1; downloadedCount := 0 |} with
        | Some d =>
            Some (emit (allDownloadsComplete (downloadedCount d)) (svc d),
                  Ok tt)
        | None => None
        end
    end.

End Download.

(* ================================================================== *)
(** ** Vocabulary of the statements *)

Module Spec.
Import Service.
#[local] Open Scope list_scope.

(** The options [config] with the credential token replaced. *)
Definition with_token (config : DocusignConfigOptions) (t : string)
  : DocusignConfigOptions :=
  {| opt_token := Some t;
     opt_accountId := opt_accountId config;
     opt_userId := opt_userId config;
     opt_cookie := opt_cookie config;
     opt_environment := opt_environment config;
     opt_outputFormat := opt_outputFormat config;
     opt_outputPath := opt_outputPath config;
     opt_maxConcurrent := opt_maxConcurrent config;
     opt_retryAttempts := opt_retryAttempts config;
     opt_retryDelay := opt_retryDelay config;
     opt_rateLimit := opt_rateLimit config |}.

(** Sample inputs used to exercise the statements. *)
Definition no_env : ProcessEnv :=
  {| DOCUSIGN_TOKEN := None; DOCUSIGN_ACCOUNT_ID := None;
     DOCUSIGN_USER_ID := None; DOCUSIGN_COOKIE := None |}.

Definition token_env : ProcessEnv :=
  {| DOCUSIGN_TOKEN := Some "from-env"; DOCUSIGN_ACCOUNT_ID := None;
     DOCUSIGN_USER_ID := None; DOCUSIGN_COOKIE := None |}.

Definition sample_options (t : string)
    (maxC attempts delay rate : option Z) : DocusignConfigOptions :=
  {| opt_token := Some t; opt_accountId := Some "account";
     opt_userId := Some "user"; opt_cookie := Some "cookie";
     opt_environment := None; opt_outputFormat := None;
     opt_outputPath := None;
     opt_maxConcurrent := option_map Js.int maxC;
     opt_retryAttempts := option_map Js.int attempts;
     opt_retryDelay := option_map Js.int delay;
     opt_rateLimit := option_map Js.int rate |}.

(** Projections of a trace. *)
Definition events (tr : list Effect) : list Event :=
  flat_map (fun e => match e with Emit ev => [ev] | _ => [] end) tr.

Definition requests (tr : list Effect) : list Request :=
  flat_map (fun e => match e with Dispatch _ r => [r] | _ => [] end) tr.

(** The retry notifications and the backoff waits, in order. *)
Definition backoffs (tr : list Effect) : list Effect :=
  filter (fun e => match e with
                   | Emit (retrying _ _ _) => true
                   | Timeout Backoff _ => true
                   | _ => false
                   end) tr.

(** The attempts [a], [a+1], ... ([k] of them). *)
Fixpoint attempts_from (a : Z) (k : nat) : list Z :=
  match k with
  | O => []
  | S k' => a :: attempts_from (a + 1) k'
  end.

(** What the [n]th retry must leave in the trace: the notification with
    the attempt, the delay [retryDelay * 2^(n-1)] and the cause, then a
    wait of exactly that delay. *)
Definition retry_round (c : DocusignConfig) (cause : Z -> string) (n : Z)
  : list Effect :=
  [ Emit (retrying n (retryDelay c * inject_Z (2 ^ (n - 1))) (cause n));
    Timeout Backoff (retryDelay c * inject_Z (2 ^ (n - 1))) ].

(** How long a timer of kind [k] set with the delay [ms] takes: the
    time Node gives it; and the same with every backoff timer taking
    exactly its delay. *)
Definition actual (k : Timer) (ms : Q) : Q := Js.timeout ms.


(** The effects [tr] of a call fit a clock that shows [t] when they
    start and [t'] when they end: a timer of kind [k] set with [ms]
    takes [took k ms], the attempts of [requestFn] (the first being
    attempt [a]) are pending for their latencies, nothing else takes
    time, and every request leaves at the instant the clock shows. *)
Fixpoint timeline {T} (took : Timer -> Q -> Q) (requestFn : Z -> Reply T)
    (a : Z) (t : Q) (tr : list Effect) (t' : Q) : Prop :=
  match tr with
  | [] => (t' == t)%Q
  | Timeout k ms :: rest =>
      timeline took requestFn a (t + took k ms)%Q rest t'
  | Dispatch at_ _ :: rest =>
      (at_ == t)%Q
      /\ timeline took requestFn (a + 1) (t + latency (requestFn a))%Q rest t'
  | Emit _ :: rest => timeline took requestFn a t rest t'
  end.


(** Attempt [i] of [requestFn] fails with status 429 or 5xx, and with
    the message [cause i]. *)
Definition fails_transiently {T} (requestFn : Z -> Reply T)
    (status : Z -> Z) (cause : Z -> string) (i : Z) : Prop :=
  (status i = 429 \/ 500 <= status i <= 599) /\
  exists dataMessage,
    outcome (requestFn i)
    = Rejected (AxiosError (Some (status i)) dataMessage (cause i)).

Definition is_tokenExpired (e : Event) : bool :=
  match e with
  | tokenExpired => true
  | _ => false
  end.


(** The events the executor itself can notify while it retries. *)
Definition executor_event (e : Event) : Prop :=
  match e with
  | retrying _ _ _ | cancelled => True
  | _ => False
  end.

(** The logical call made with [requestFn] is settled with [v] by
    attempt [n+1], after [n] transient failures within the ceiling. *)
Definition resolves_after {T} (c : DocusignConfig)
    (requestFn : Z -> Reply T) (n : nat) (v : T) : Prop :=
  (exists status cause,
      forall i, 1 <= i < 1 + Z.of_nat n ->
                fails_transiently requestFn status cause i
                /\ (inject_Z i <= retryAttempts c)%Q)
  /\ outcome (requestFn (1 + Z.of_nat n)) = Resolved v.

(** [cancel()] was called while one of the attempts [1..n+1] was in
    flight. *)
Definition disturbed {T} (requestFn : Z -> Reply T) (n : nat) : bool :=
  existsb (fun i => interrupted (requestFn i)) (attempts_from 1 (S n)).

(** The records of a page ([envelopes] missing counts as none). *)
Definition records (data : option (list Envelope)) : list Envelope :=
  match data with
  | Some es => es
  | None => []
  end.

(** The [start_position] of page call [j] (counted from 0) when the
    earlier calls returned the pages [full] on top of the records
    [acc]: [first] for the first call, afterwards the number of records
    accumulated so far. *)
Definition offset (first : Z) (acc : list Envelope)
    (full : list (list Envelope)) (j : nat) : Z :=
  match j with
  | O => first
  | S _ => Z.of_nat (length (acc ++ concat (firstn j full)))
  end.

Definition is_error (e : Event) : bool :=
  match e with
  | error _ => true
  | _ => false
  end.

(** What is asked of the pages that keep the listing going: page call
    [j] is settled, after [tries j] transient failures, with the full
    page [nth j full []], and nobody cancels meanwhile. *)
Definition full_pages (w : World) (s : Service)
    (full : list (list Envelope)) (tries : nat -> nat) : Prop :=
  forall j, (j < length full)%nat ->
    length (nth j full []) = 100%nat
    /\ resolves_after (config s)
         (listReply w j (offset 0 (envelopes s) full j))
         (tries j) (Some (nth j full []))
    /\ disturbed (listReply w j (offset 0 (envelopes s) full j)) (tries j)
       = false.

(** The requests of a listing that made [n] page calls. *)
Definition page_requests (from_date to_date : string) (s : Service)
    (full : list (list Envelope)) (tries : nat -> nat) (n : nat)
  : list Request :=
  flat_map
    (fun j => repeat
                (ListEnvelopes from_date to_date
                   (offset 0 (envelopes s) full j))
                (S (tries j)))
    (seq 0 n).

(** The control flow of the executor on its own: from attempt [a] on,
    the replies of [requestFn] settle the call with [r]. *)
Inductive settles_with {T} (c : DocusignConfig) (requestFn : Z -> Reply T)
  : Z -> result Thrown T -> Prop :=
| settles_resolved a v :
    outcome (requestFn a) = Resolved v ->
    settles_with c requestFn a (Ok v)
| settles_unauthorized a st dataMessage message :
    outcome (requestFn a) = Rejected (AxiosError st dataMessage message) ->
    is_status st 401 = true ->
    settles_with c requestFn a (Err TokenExpired)
| settles_retried a st dataMessage message r :
    outcome (requestFn a) = Rejected (AxiosError st dataMessage message) ->
    is_status st 401 = false ->
    retryable st = true ->
    (inject_Z a <= retryAttempts c)%Q ->
    settles_with c requestFn (a + 1) r ->
    settles_with c requestFn a r
| settles_propagated a st dataMessage message :
    outcome (requestFn a) = Rejected (AxiosError st dataMessage message) ->
    is_status st 401 = false ->
    retryable st = false \/ (retryAttempts c < inject_Z a)%Q ->
    settles_with c requestFn a
      (Err (ApiError (Js.or_str dataMessage message) st))
| settles_other_error a message :
    outcome (requestFn a) = Rejected (OtherError message) ->
    settles_with c requestFn a (Err (Rethrown (OtherError message)))
| settles_non_error a shown :
    outcome (requestFn a) = Rejected (NonError shown) ->
    settles_with c requestFn a (Err (Rethrown (NonError shown))).

(** The executor, run on its own on the replies of [requestFn],
    returns a value. *)
Definition request_ok {T} (c : DocusignConfig) (requestFn : Z -> Reply T)
  : bool :=
  match _retryableRequest (CombinedDocument EmptyString) requestFn
          (Service.new c 0) with
  | Some (_, Ok _) => true
  | _ => false
  end.

Definition resolved {T} (r : Reply T) : bool :=
  match outcome r with
  | Resolved _ => true
  | Rejected _ => false
  end.

(** The download of the envelope at position [i] goes through: the
    executor returns the stream and the file is written. *)
Definition succeeds (w : World) (c : DocusignConfig) (i : nat) : bool :=
  request_ok c (docReply w i) && resolved (writeReply w i).

(** The downloads of a chunk whose first envelope is at position
    [base]. *)
Fixpoint tasks (base : nat) (chunk : list Envelope) : list Download.Task :=
  match chunk with
  | [] => []
  | e :: rest =>
      {| Download.index := base; Download.envelope := e |}
      :: tasks (S base) rest
  end.

(** The Download Outcome a download must end with. *)
Definition expected_outcome (w : World) (c : DocusignConfig)
    (t : Download.Task) : string * bool :=
  (Download.id t, succeeds w c (Download.index t)).

(** The downloads a trace starts, and the outcomes it reports
    ([true] for [downloadComplete], [false] for [downloadError]). *)
Definition started (tr : list Effect) : list string :=
  flat_map (fun e => match e with
                     | Emit (downloadStarted i) => [i]
                     | _ => []
                     end) tr.

Definition outcomes (tr : list Effect) : list (string * bool) :=
  flat_map (fun e => match e with
                     | Emit (downloadComplete i _ _) => [(i, true)]
                     | Emit (downloadError i _) => [(i, false)]
                     | _ => []
                     end) tr.

Definition successes (os : list (string * bool)) : nat :=
  length (filter snd os).

(** The download a suspended continuation belongs to. *)
Definition task_of (p : Download.Suspended) : Download.Task :=
  match p with
  | Download.PaceTimer t _ | Download.PaceReturn t _
  | Download.InFlight t _ | Download.BackoffTimer t _
  | Download.Writing t => t
  end.

(** A bound on the wake-ups a suspended download still needs. *)
Definition steps (c : DocusignConfig) (p : Download.Suspended) : nat :=
  let left a := Z.to_nat (ceiling c + 1 - a) in
  match p with
  | Download.PaceTimer _ a | Download.PaceReturn _ a => 3 * left a + 3
  | Download.InFlight _ a => 3 * left a + 2
  | Download.BackoffTimer _ a => 3 * left (a + 1) + 4
  | Download.Writing _ => 1
  end.

Definition total_steps (c : DocusignConfig) (queue : list Download.Entry)
  : nat :=
  list_sum (map (fun e => steps c (snd e)) queue).

(** [d'] is [d] after the effects [tr]: the configuration and the
    result set are untouched, a cancellation is never undone, and the
    counter has grown by the completed downloads that [tr] reports. *)
Definition advances (d d' : Download.State) (tr : list Effect) : Prop :=
  config (Download.svc d') = config (Download.svc d)
  /\ envelopes (Download.svc d') = envelopes (Download.svc d)
  /\ (isCancelled (Download.svc d) = true ->
      isCancelled (Download.svc d') = true)
  /\ trace (Download.svc d') = trace (Download.svc d) ++ tr
  /\ Download.downloadedCount d'
     = (Download.downloadedCount d + successes (outcomes tr))%nat.

(** A suspended download is where the replies of the world put it:
    whatever settles its request from the attempt it is at settles it
    from the first attempt. *)
Definition on_track (w : World) (c : DocusignConfig)
    (p : Download.Suspended) : Prop :=
  let fn := docReply w (Download.index (task_of p)) in
  match p with
  | Download.PaceTimer _ a | Download.PaceReturn _ a
  | Download.InFlight _ a =>
      forall r, settles_with c fn a r -> settles_with c fn 1 r
  | Download.BackoffTimer _ a =>
      forall r, settles_with c fn (a + 1) r -> settles_with c fn 1 r
  | Download.Writing _ => settles_with c fn 1 (Ok tt)
  end.

(** The chunks [done] were processed one after the other and left the
    trace segments [segs]: each segment starts exactly the downloads of
    its chunk, in order, and reports exactly one outcome for each of
    them, the one the world determines. *)
Fixpoint chunks_done (w : World) (c : DocusignConfig) (base : nat)
    (done : list (list Envelope)) (segs : list (list Effect)) : Prop :=
  match done, segs with
  | [], [] => True
  | chunk :: done', seg :: segs' =>
      started seg = map envelopeId chunk
      /\ Permutation (outcomes seg)
           (map (expected_outcome w c) (tasks base chunk))
      /\ chunks_done w c (base + length chunk) done' segs'
  | _, _ => False
  end.

(** Consecutive chunks of size [k], only the last possibly smaller
    (and never empty). *)
Definition partitioned {A} (k : nat) (cs : list (list A)) : Prop :=
  cs = []
  \/ exists front last,
       cs = front ++ [last]
       /\ Forall (fun chunk => length chunk = k) front
       /\ (1 <= length last <= k)%nat.

(** Consecutive chunks of at least [lo] and at most [hi] elements,
    only the last possibly smaller (and never empty). *)
Definition cut {A} (lo hi : nat) (cs : list (list A)) : Prop :=
  cs = []
  \/ exists front last,
       cs = front ++ [last]
       /\ Forall (fun chunk => (lo <= length chunk <= hi)%nat) front
       /\ (1 <= length last <= hi)%nat.

(** No collaborator calls [cancel()] while the batch waits for the
    output directory, for a reply or for a write. *)
Definition undisturbed (w : World) : Prop :=
  interrupted (ensureDirReply w) = false
  /\ (forall i a, interrupted (docReply w i a) = false)
  /\ (forall i, interrupted (writeReply w i) = false).

(** What [_rateLimit] leaves in the trace. *)
Definition pacing_effects (s : Service) : list Effect :=
  match pacingWait s with
  | Some ms => [Timeout Pacing ms]
  | None => []
  end.

(** What one invocation of the request function leaves in the trace. *)
Definition invoke_effects {T} (req : Request) (r : Reply T) (t : Q)
  : list Effect :=
  Dispatch t req :: if interrupted r then [Emit cancelled] else [].

(** The state in which attempt [attempt] has just settled. *)
Definition settled {T} (req : Request) (requestFn : Z -> Reply T)
    (attempt : Z) (s : Service) : Service :=
  invoke req (requestFn attempt) (_rateLimit s).

Definition attempt_effects {T} (req : Request) (requestFn : Z -> Reply T)
    (attempt : Z) (s : Service) : list Effect :=
  pacing_effects s
  ++ invoke_effects req (requestFn attempt) (now (_rateLimit s)).

Definition page_request (from_date to_date : string) (pos : Z) : Request :=
  ListEnvelopes from_date to_date pos.

(** The service after the body of the paging loop has handled [data],
    and what that leaves in the trace. *)
Definition absorb (data : option (list Envelope)) (s1 : Service) : Service :=
  match data with
  | Some es =>
      emit (envelopesFound (length es) (length (envelopes (push es s1))))
        (push es s1)
  | None => s1
  end.

Definition absorb_effects (data : option (list Envelope)) (s1 : Service)
  : list Effect :=
  match data with
  | Some es =>
      [Emit (envelopesFound (length es) (length (envelopes (push es s1))))]
  | None => []
  end.

(** The outcome a suspended download is bound to report. *)
Definition fate (w : World) (c : DocusignConfig) (e : Download.Entry)
  : string * bool :=
  expected_outcome w c (task_of (snd e)).

(** One wake-up of the download suspended at [p] took [d] to [d'],
    left [tr] in the trace, and either suspended the download again
    ([next]) or ended it with the outcome it must have. *)
Definition wake_up_ok (w : World) (c : DocusignConfig)
    (p : Download.Suspended) (d d' : Download.State)
    (next : option Download.Entry) (tr : list Effect) : Prop :=
  advances d d' tr
  /\ started tr = []
  /\ match next with
     | Some e =>
         outcomes tr = []
         /\ task_of (snd e) = task_of p
         /\ (steps c (snd e) < steps c p)%nat
         /\ on_track w c (snd e)
     | None => outcomes tr = [expected_outcome w c (task_of p)]
     end.

(** The state in which the request of a download has just left, and the
    entry with which the download then waits for the reply to attempt
    [a]. *)
Definition in_flight (t : Download.Task) (d : Download.State)
  : Download.State :=
  {| Download.svc :=
       record (Dispatch (now (_rateLimit (Download.svc d)))
                 (CombinedDocument (Download.id t)))
         (_rateLimit (Download.svc d));
     Download.downloadedCount := Download.downloadedCount d |}.

Definition in_flight_entry (w : World) (t : Download.Task) (a : Z)
    (d : Download.State) : Download.Entry :=
  ((now (_rateLimit (Download.svc d))
    + latency (docReply w (Download.index t) a))%Q,
   Download.InFlight t a).

(** The instants at which requests leave, in order. *)
Definition dispatch_instants (tr : list Effect) : list Q :=
  flat_map (fun e => match e with Dispatch t _ => [t] | _ => [] end) tr.

(** Successive instants are at least [interval] apart. *)
Fixpoint paced (interval : Q) (ts : list Q) : Prop :=
  match ts with
  | t1 :: ((t2 :: _) as rest) => (t1 + interval <= t2)%Q /\ paced interval rest
  | _ => True
  end.

(** The dispatches recorded so far are paced, none is later than the
    request time the session remembers, and that time is not ahead of
    the clock. *)
Definition stamped (s : Service) : Prop :=
  paced (minRequestInterval s) (dispatch_instants (trace s))
  /\ Forall (fun t => (t <= lastRequestTime s)%Q)
       (dispatch_instants (trace s))
  /\ (lastRequestTime s <= now s)%Q.

Definition sample_config : DocusignConfig :=
  Config.merge no_env (sample_options "t" None None None None).

Definition sample_service : Service := Service.new sample_config 10000.

Definition sample_request : Request := CombinedDocument "e1".


(** A request function that always fails with the given status. *)
Definition always_fails (st : Z) (i : Z) : Reply unit :=
  {| outcome := Rejected (AxiosError (Some st) None "boom");
     pending := 100; interrupted := false |}.

Definition sample_envelope (n : nat) : Envelope :=
  {| envelopeId := String (Ascii.ascii_of_nat (65 + n)) EmptyString;
     status := "completed"; emailSubject := None;
     sentDateTime := None; completedDateTime := None |}.

Definition replied {T} (o : Outcome T) (cancel : bool) : Reply T :=
  {| outcome := o; pending := 100; interrupted := cancel |}.

Definition server_error : Rejection := AxiosError (Some 500) None "boom".

(** A world whose listing fails once with status 500, then serves a
    page of 100 records and a page of 3; the download of the second
    envelope always fails; [cancel_page] and [cancel_doc] say during
    which page call and which download [cancel()] is called. *)
Definition sample_world (cancel_page cancel_doc : nat -> bool) : World :=
  {| listensForError := false;
     toISOString := fun d => Some (d ++ "T00:00:00.000Z")%string;
     listReply := fun k _ attempt =>
       if (k =? 0)%nat && (attempt =? 1) then
         replied (Rejected server_error) false
       else if (k =? 0)%nat then
         replied (Resolved (Some (map sample_envelope (seq 0 100))))
           (cancel_page k)
       else
         replied (Resolved (Some (map sample_envelope (seq 100 3))))
           (cancel_page k);
     ensureDirReply := replied (Resolved tt) false;
     docReply := fun i _ =>
       if (i =? 1)%nat then replied (Rejected server_error) (cancel_doc i)
       else replied (Resolved tt) (cancel_doc i);
     writeReply := fun _ => replied (Resolved tt) false |}.

Definition nobody (_ : nat) : bool := false.

Definition only (k : nat) (j : nat) : bool := (j =? k)%nat.

Definition sample_full : list (list Envelope) :=
  [map sample_envelope (seq 0 100)].

Definition sample_last : option (list Envelope) :=
  Some (map sample_envelope (seq 100 3)).

Definition sample_tries (j : nat) : nat :=
  if (j =? 0)%nat then 1%nat else 0%nat.

(** A world in which every request and every write goes through, each
    after 100 ms. *)
Definition calm_world : World :=
  {| listensForError := false;
     toISOString := fun d => Some d;
     listReply := fun _ _ _ => replied (Resolved None) false;
     ensureDirReply := replied (Resolved tt) false;
     docReply := fun _ _ => replied (Resolved tt) false;
     writeReply := fun _ => replied (Resolved tt) false |}.

(** A session with three discovered envelopes, the default bound of
    three concurrent downloads and two requests per second. *)
Definition sample_trio : Service :=
  Service.push (map sample_envelope (seq 0 3))
    (Service.new
       (Config.merge no_env (sample_options "t" None None None (Some 2)))
       10000).

(** A session with five discovered envelopes, at most two concurrent
    downloads and two requests per second. *)
Definition sample_batch : Service :=
  Service.push (map sample_envelope (seq 0 5))
    (Service.new
       (Config.merge no_env
          (sample_options "t" (Some 2) None None (Some 2)))
       10000).

(** Options that ask for two and a half concurrent downloads, and a
    session constructed with them that has five discovered
    envelopes. *)
Definition halves : DocusignConfigOptions :=
  {| opt_token := Some "t"; opt_accountId := Some "account";
     opt_userId := Some "user"; opt_cookie := Some "cookie";
     opt_environment := None; opt_outputFormat := None;
     opt_outputPath := None;
     opt_maxConcurrent := Some (Js.Num (5 # 2));
     opt_retryAttempts := None; opt_retryDelay := None;
     opt_rateLimit := None |}.

Definition uneven_batch : Service :=
  Service.push (map sample_envelope (seq 0 5))
    (Service.new (Config.merge no_env halves) 10000).

End Spec.

(* ================================================================== *)
(** ** Constants of the package *)

Module Constants.

(** [DEFAULT_CONFIG]: a partial options object. *)
Definition DEFAULT_CONFIG : DocusignConfigOptions :=
  {| opt_token := None; opt_accountId := None; opt_userId := None;
     opt_cookie := None;
     opt_environment := Some "production";
     opt_outputFormat := Some "combined";
     opt_outputPath := Some "./docusign_downloads";
     opt_maxConcurrent := Some (Js.int 3);
     opt_retryAttempts := Some (Js.int 3);
     opt_retryDelay := Some (Js.int 1000);
     opt_rateLimit := Some (Js.int 5) |}.

(** [API_ENDPOINTS[key]]: [undefined] for a key the object does not
    have. *)
Definition API_ENDPOINTS (key : string) : option string :=
  if String.eqb key "production"
  then Some "https://apps.docusign.com/api/esign/na3/restapi/v2.1"
  else if String.eqb key "demo"
       then Some "https://demo.docusign.net/restapi/v2.1"
       else None.

Definition UNAUTHORIZED : Z := 401.
Definition TOO_MANY_REQUESTS : Z := 429.
Definition SERVER_ERROR_START : Z := 500.
Definition SERVER_ERROR_END : Z := 599.

Definition BATCH_SIZE : Z := 100.
Definition MAX_CONCURRENT_DOWNLOADS : Q := 5.

End Constants.

(* ================================================================== *)
(** ** The command line *)

Module Cli.

Record CliArguments := {
  from : string;
  to : string;
  output : string;
  concurrent : Js.number;
  rateLimit : Js.number;
  retryAttempts : Js.number;
  retryDelay : Js.number
}.

(** The failures of the [.check] callback, in the order of its tests. *)
Inductive check_failure :=
| InvalidFrom | InvalidTo | FromAfterTo | ConcurrentRange | RateLimitRange.

Definition check_message (f : check_failure) : string :=
  match f with
  | InvalidFrom => "Invalid from date format. Use YYYY-MM-DD"
  | InvalidTo => "Invalid to date format. Use YYYY-MM-DD"
  | FromAfterTo => "From date must be before or equal to to date"
  | ConcurrentRange => "Concurrent downloads must be between 1 and 5"
  | RateLimitRange => "Rate limit must be at least 1 request per second"
  end.

(** The callback given to [.check]; [getTime d] is
    [new Date(d).getTime()], [None] standing for [NaN].  A numeric
    option that is given something else than a number arrives as
    [NaN]. *)
Definition check (getTime : string -> option Z) (argv : CliArguments)
  : result string unit :=
  match getTime (from argv), getTime (to argv) with
  | None, _ => Err (check_message InvalidFrom)
  | Some _, None => Err (check_message InvalidTo)
  | Some fromDate, Some toDate =>
      if toDate <? fromDate then Err (check_message FromAfterTo)
      else if Js.below (concurrent argv) 1 || Js.above (concurrent argv) 5
           then Err (check_message ConcurrentRange)
      else if Js.below (rateLimit argv) 1
           then Err (check_message RateLimitRange)
      else Ok tt
  end.

(** The options [main] constructs the service with. *)
Definition service_options (argv : CliArguments) : DocusignConfigOptions :=
  {| opt_token := None; opt_accountId := None; opt_userId := None;
     opt_cookie := None;
     opt_environment := Some "production";
     opt_outputFormat := None;
     opt_outputPath := Some (output argv);
     opt_maxConcurrent := Some (concurrent argv);
     opt_retryAttempts := None;
     opt_retryDelay := None;
     opt_rateLimit := None |}.

End Cli.

(* ================================================================== *)
(** ** What a run leaves in the trace *)

Module Log.
#[local] Open Scope list_scope.

(** The message of the failure that answers attempt [i]. *)
Definition cause {T} (requestFn : Z -> Reply T) (i : Z) : string :=
  match outcome (requestFn i) with
  | Rejected (AxiosError _ _ message) => message
  | _ => EmptyString
  end.

(** The time spent waiting for the timers of kind [t]: each takes the
    delay Node makes of the one it was set with. *)
Definition waited (t : Timer) (tr : list Effect) : Q :=
  fold_right
    (fun e acc =>
       match e with
       | Timeout Pacing ms =>
           match t with
           | Pacing => (Js.timeout ms + acc)%Q
           | Backoff => acc
           end
       | Timeout Backoff ms =>
           match t with
           | Backoff => (Js.timeout ms + acc)%Q
           | Pacing => acc
           end
       | _ => acc
       end)
    0%Q tr.

(** The time the attempts [a], ..., [a + n - 1] of a request function
    are pending. *)
Definition spent {T} (requestFn : Z -> Reply T) (a : Z) (n : nat) : Q :=
  fold_right (fun i acc => (latency (requestFn i) + acc)%Q) 0%Q
    (Spec.attempts_from a n).

(** The [count] and [total] of the [envelopesFound] notifications. *)
Definition found (tr : list Effect) : list (nat * nat) :=
  flat_map (fun e => match e with
                     | Emit (envelopesFound c t) => [(c, t)]
                     | _ => []
                     end) tr.

(** Each total is the total before plus the count, starting from [n]. *)
Fixpoint cumulative (n : nat) (fs : list (nat * nat)) : Prop :=
  match fs with
  | [] => True
  | (c, t) :: rest => t = (n + c)%nat /\ cumulative t rest
  end.

(** The total the last notification reports ([n] when there is none). *)
Definition last_total (n : nat) (fs : list (nat * nat)) : nat :=
  fold_left (fun _ f => snd f) fs n.

(** The [error] notifications. *)
Definition errors (tr : list Effect) : list Thrown :=
  flat_map (fun e => match e with
                     | Emit (error e) => [e]
                     | _ => []
                     end) tr.

(** What the [downloadComplete] notifications report: the number of
    downloads completed so far and the size of the result set, of which
    [progress] is the quotient. *)
Definition progress (tr : list Effect) : list (nat * nat) :=
  flat_map (fun e => match e with
                     | Emit (downloadComplete _ n total) => [(n, total)]
                     | _ => []
                     end) tr.

(** The totals of the [allDownloadsComplete] notifications. *)
Definition totals (tr : list Effect) : list nat :=
  flat_map (fun e => match e with
                     | Emit (allDownloadsComplete n) => [n]
                     | _ => []
                     end) tr.

(** The timers started. *)
Definition timers (tr : list Effect) : list Effect :=
  filter (fun e => match e with Timeout _ _ => true | _ => false end) tr.

(** The request asks for a page of the listing. *)
Definition is_listing (r : Request) : bool :=
  match r with
  | ListEnvelopes _ _ _ => true
  | CombinedDocument _ => false
  end.

(** The envelope a download request asks for. *)
Definition document (r : Request) : option string :=
  match r with
  | ListEnvelopes _ _ _ => None
  | CombinedDocument i => Some i
  end.

End Log.

(* ================================================================== *)
(** ** What a batch of downloads may do *)

Module Batch.
#[local] Open Scope list_scope.

(** The effect is part of the download of one of the envelopes [ids],
    or a cancellation. *)
Definition belongs (ids : list string) (e : Effect) : Prop :=
  match e with
  | Emit (downloadStarted i) | Emit (downloadComplete i _ _)
  | Emit (downloadError i _) => In i ids
  | Emit (retrying _ _ _) | Emit tokenExpired | Emit cancelled => True
  | Emit _ => False
  | Timeout _ _ => True
  | Dispatch _ (CombinedDocument i) => In i ids
  | Dispatch _ (ListEnvelopes _ _ _) => False
  end.

(** The reports [n + 1 of total], ..., [n + k of total]. *)
Definition counting (n total k : nat) : list (nat * nat) :=
  map (fun i => (i, total)) (seq (S n) k).

(** [d'] is [d] after the effects [tr], all of them part of downloads of
    the result set, the completed downloads being counted one by one. *)
Definition runs (d d' : Download.State) (tr : list Effect) : Prop :=
  Spec.advances d d' tr
  /\ Forall (belongs (map envelopeId (envelopes (Download.svc d)))) tr
  /\ Log.progress tr
     = counting (Download.downloadedCount d)
         (length (envelopes (Download.svc d))) (length (Log.progress tr)).

(** The suspended download is one of an envelope of the result set. *)
Definition known (d : Download.State) (e : Download.Entry) : Prop :=
  In (Download.id (Spec.task_of (snd e)))
     (map envelopeId (envelopes (Download.svc d))).

End Batch.

(* ================================================================== *)
(** ** Sessions: one call after the other *)

Module Session.
#[local] Open Scope list_scope.

(** The public methods of the service, with the world each call meets. *)
Inductive Call :=
| Listing (fuel : nat) (w : World) (fromDate toDate : string)
| Batch (w : World)
| Cancel.

(** The session after a call has returned or thrown. *)
Definition call (c : Call) (s : Service) : option Service :=
  match c with
  | Listing fuel w fromDate toDate =>
      option_map fst (Discovery.getEnvelopesWebApi fuel w fromDate toDate s)
  | Batch w => option_map fst (Download.downloadDocuments w s)
  | Cancel => Some (Service.cancel s)
  end.

Fixpoint calls (cs : list Call) (s : Service) : option Service :=
  match cs with
  | [] => Some s
  | c :: rest =>
      match call c s with
      | Some s1 => calls rest s1
      | None => None
      end
  end.

Definition is_cancel (c : Call) : bool :=
  match c with
  | Cancel => true
  | _ => false
  end.

End Session.

(* ================================================================== *)
(** ** The older JavaScript module

    [docusign_exporter.js]: the same constructor without the numeric
    checks, the cap and the request rate, and an executor without
    pacing that reads the status of whatever is thrown and throws it on
    as it is. *)

Module Legacy.
#[local] Open Scope list_scope.

(** [a || b] where [b] may be [undefined] too. *)
Definition or_opt (a b : option string) : option string :=
  match a with
  | Some s => if String.eqb s EmptyString then b else Some s
  | None => b
  end.

(** [!x] is false. *)
Definition truthy (x : option string) : bool :=
  match x with
  | Some s => negb (String.eqb s EmptyString)
  | None => false
  end.

Record DocusignConfig := {
  token : string;
  accountId : option string;
  userId : option string;
  cookie : option string;
  environment : string;
  outputFormat : string;
  outputPath : string;
  maxConcurrent : Q;
  retryAttempts : Q;
  retryDelay : Q
}.

(** The field assignments of the constructor, before [validate]. *)
Definition merge (env : ProcessEnv) (config : DocusignConfigOptions)
  : DocusignConfig :=
  {| token :=
       Js.replace "Bearer " EmptyString
         (Js.or_str (opt_token config)
            (Js.or_str (DOCUSIGN_TOKEN env) EmptyString));
     accountId := or_opt (opt_accountId config) (DOCUSIGN_ACCOUNT_ID env);
     userId := or_opt (opt_userId config) (DOCUSIGN_USER_ID env);
     cookie := or_opt (opt_cookie config) (DOCUSIGN_COOKIE env);
     environment := Js.or_str (opt_environment config) "production";
     outputFormat := Js.or_str (opt_outputFormat config) "combined";
     outputPath := Js.or_str (opt_outputPath config) "./docusign_downloads";
     maxConcurrent := Js.or_num (opt_maxConcurrent config) 3;
     retryAttempts := Js.or_num (opt_retryAttempts config) 3;
     retryDelay := Js.or_num (opt_retryDelay config) 1000 |}.

(** [validate()]: the first failing check throws; [None] when all pass. *)
Definition validate (c : DocusignConfig) : option config_field :=
  if String.eqb (token c) EmptyString then Some FToken
  else if negb (truthy (accountId c)) then Some FAccountId
  else if negb (truthy (cookie c)) then Some FCookie
  else if negb (existsb (String.eqb (environment c)) ["production"; "demo"])
       then Some FEnvironment
  else None.

Definition new (env : ProcessEnv) (config : DocusignConfigOptions)
  : result string DocusignConfig :=
  let c := merge env config in
  match validate c with
  | Some f => Err (field_message f)
  | None => Ok c
  end.

Definition getBaseUrl (c : DocusignConfig) : string :=
  if String.eqb (environment c) "production"
  then "https://apps.docusign.com/api/esign/na3/restapi/v2.1"
  else "https://demo.docusign.net/restapi/v2.1".

(** *** Slicing the result set *)

(** A relative index of [slice], for a list of length [len]. *)
Definition clamp (len i : Z) : Z :=
  if i <? 0 then Z.max (len + i) 0 else Z.min i len.

(** [xs.slice(i, j)] for any [i] and [j]: the bounds lose their
    fractions, and a negative one counts from the end. *)
Definition slice {A} (xs : list A) (i j : Q) : list A :=
  let len := Z.of_nat (length xs) in
  let from := clamp len (Js.trunc i) in
  let to := clamp len (Js.trunc j) in
  firstn (Z.to_nat (to - from)) (skipn (Z.to_nat from) xs).

(** The [for (let i = 0; i < length; i += maxConcurrent)] loop that
    slices the result set; nothing bounds its iterations here. *)
Fixpoint slices {A} (fuel : nat) (xs : list A) (m i : Q)
  : option (list (list A)) :=
  match fuel with
  | O => None
  | S fuel' =>
      if Js.lt i (inject_Z (Z.of_nat (length xs)))
      then option_map (cons (slice xs i (i + m)))
             (slices fuel' xs m (i + m)%Q)
      else Some []
  end.

(** *** The executor *)

(** The error a request function rejects with, by what the executor
    reads of it: [error.response?.status] ([None] when there is no
    response, or no status in it) and [error.message]. *)
Record Failure := {
  status : option Z;
  message : string
}.

Inductive Outcome (T : Type) :=
| Resolved (v : T)
| Rejected (e : Failure).
Arguments Resolved {T} v.
Arguments Rejected {T} e.

Record Reply (T : Type) := {
  outcome : Outcome T;
  pending : N;
  interrupted : bool
}.
Arguments outcome {T} r.
Arguments pending {T} r.
Arguments interrupted {T} r.

Definition latency {T} (r : Reply T) : Q := inject_Z (Z.of_N (pending r)).

(** The values the executor throws: the token-expired error, or the
    error of the last attempt as it is. *)
Inductive Thrown :=
| TokenExpired
| Rethrown (e : Failure).

Record Service := {
  config : DocusignConfig;
  envelopes : list Envelope;
  isCancelled : bool;
  (* the surroundings: [Date.now()] and what has been done so far *)
  now : Q;
  trace : list Effect
}.

Definition record (e : Effect) (s : Service) : Service :=
  {| config := config s; envelopes := envelopes s;
     isCancelled := isCancelled s; now := now s; trace := trace s ++ [e] |}.

Definition emit (e : Event) (s : Service) : Service := record (Emit e) s.

Definition elapse (ms : Q) (s : Service) : Service :=
  {| config := config s; envelopes := envelopes s;
     isCancelled := isCancelled s; now := (now s + ms)%Q; trace := trace s |}.

(** [await new Promise(resolve => setTimeout(resolve, ms))] *)
Definition setTimeout (ms : Q) (s : Service) : Service :=
  elapse (Js.timeout ms) (record (Timeout Backoff ms) s).

(** [cancel()] *)
Definition cancel (s : Service) : Service :=
  emit cancelled
    {| config := config s; envelopes := envelopes s;
       isCancelled := true; now := now s; trace := trace s |}.

Definition interrupt (b : bool) (s : Service) : Service :=
  if b then cancel s else s.

(** [await requestFn()] *)
Definition invoke {T} (req : Request) (r : Reply T) (s : Service)
  : Service :=
  interrupt (interrupted r)
    (elapse (latency r) (record (Dispatch (now s) req) s)).

Definition is_status (st : option Z) (n : Z) : bool :=
  match st with
  | Some z => z =? n
  | None => false
  end.

(** [status === 429 || (status >= 500 && status < 600)] *)
Definition retryable (st : option Z) : bool :=
  match st with
  | Some z => (z =? 429) || ((500 <=? z) && (z <? 600))
  | None => false
  end.

(** [_retryableRequest(requestFn, attempt)]; [fuel] bounds the depth of
    the recursion. *)
Fixpoint retry {T} (fuel : nat) (req : Request) (requestFn : Z -> Reply T)
    (attempt : Z) (s : Service) : option (Service * result Thrown T) :=
  match fuel with
  | O => None
  | S fuel' =>
      let r := requestFn attempt in
      let s2 := invoke req r s in
      match outcome r with
      | Resolved v => Some (s2, Ok v)
      | Rejected e =>
          if is_status (status e) 401
          then Some (emit tokenExpired s2, Err TokenExpired)
          else
            if retryable (status e) then
              if Qle_bool (inject_Z attempt) (retryAttempts (config s2)) then
                let delay :=
                  (retryDelay (config s2) * inject_Z (2 ^ (attempt - 1)))%Q in
                retry fuel' req requestFn (attempt + 1)
                  (setTimeout delay
                     (emit (retrying attempt delay (message e)) s2))
              else Some (s2, Err (Rethrown e))
            else Some (s2, Err (Rethrown e))
      end
  end.

Definition _retryableRequest {T} (req : Request) (requestFn : Z -> Reply T)
    (s : Service) : option (Service * result Thrown T) :=
  retry (S (Z.to_nat (Qfloor (retryAttempts (config s))))) req requestFn 1 s.

(** How a call ends when the reply to attempt [a] ends it. *)
Definition verdict {T} (requestFn : Z -> Reply T) (a : Z)
  : result Thrown T :=
  match outcome (requestFn a) with
  | Resolved v => Ok v
  | Rejected e =>
      Err (if is_status (status e) 401 then TokenExpired else Rethrown e)
  end.

End Legacy.

(* ================================================================== *)
(** ** The two versions side by side *)

Module Versions.
#[local] Open Scope list_scope.

(** The reply [r'] is the reply [r] as the older executor reads it: the
    same value, or an axios error with its status and message; settled
    after the same time and with the same interference. *)
Definition same_reply {T} (r : Reply T) (r' : Legacy.Reply T) : Prop :=
  latency r = Legacy.latency r'
  /\ interrupted r = Legacy.interrupted r'
  /\ match outcome r, Legacy.outcome r' with
     | Resolved v, Legacy.Resolved v' => v = v'
     | Rejected (AxiosError st _ message), Legacy.Rejected e =>
         Legacy.status e = st /\ Legacy.message e = message
     | _, _ => False
     end.

(** No attempt is answered with a status of 600 or more. *)
Definition below_600 {T} (requestFn : Z -> Reply T) : Prop :=
  forall i st dataMessage message,
    outcome (requestFn i) = Rejected (AxiosError (Some st) dataMessage message)
    -> st < 600.

(** The two executors end a call in the same way: with the same value,
    with the token-expired error, or with the error of the same
    status, wrapped into an API error by the service and thrown as it
    is by the older module. *)
Definition same_result {T} (r : result Thrown T)
    (r' : result Legacy.Thrown T) : Prop :=
  match r, r' with
  | Ok v, Ok v' => v = v'
  | Err TokenExpired, Err Legacy.TokenExpired => True
  | Err (ApiError _ st), Err (Legacy.Rethrown e) => Legacy.status e = st
  | _, _ => False
  end.

(** A trace without its pacing waits and without the instants of its
    dispatches. *)
Definition shape (tr : list Effect) : list Effect :=
  flat_map (fun e => match e with
                     | Timeout Pacing _ => []
                     | Dispatch _ r => [Dispatch 0 r]
                     | _ => [e]
                     end) tr.

End Versions.

(* ================================================================== *)
(** ** More sample inputs *)

Module Sample.
#[local] Open Scope list_scope.

(** A request function that fails without a response. *)
Definition network_down (i : Z) : Reply unit :=
  Spec.replied (Rejected (AxiosError None None "socket hang up")) false.

(** A request function that fails once with the given status and then
    goes through. *)
Definition fails_once (st : Z) (i : Z) : Reply unit :=
  if i =? 1
  then Spec.replied (Rejected (AxiosError (Some st) None "boom")) false
  else Spec.replied (Resolved tt) false.

(** Options that ask for half a retry. *)
Definition half_a_retry : DocusignConfigOptions :=
  {| opt_token := Some "t"; opt_accountId := Some "account";
     opt_userId := Some "user"; opt_cookie := Some "cookie";
     opt_environment := None; opt_outputFormat := None;
     opt_outputPath := None; opt_maxConcurrent := None;
     opt_retryAttempts := Some (Js.Num (1 # 2));
     opt_retryDelay := None; opt_rateLimit := None |}.

(** The clock readings of two dates, and command-line arguments that
    set every option. *)
Definition getTime (d : string) : option Z :=
  if String.eqb d "2024-01-01" then Some 1704067200000
  else if String.eqb d "2024-12-31" then Some 1735603200000
  else None.

Definition argv : Cli.CliArguments :=
  {| Cli.from := "2024-01-01"; Cli.to := "2024-12-31";
     Cli.output := "./downloads"; Cli.concurrent := Js.int 4;
     Cli.rateLimit := Js.int 2; Cli.retryAttempts := Js.int 7;
     Cli.retryDelay := Js.int 50 |}.

(** The same arguments with [--concurrent] given a word. *)
Definition unreadable_argv : Cli.CliArguments :=
  {| Cli.from := Cli.from argv; Cli.to := Cli.to argv;
     Cli.output := Cli.output argv;
     Cli.concurrent := Js.NaN;
     Cli.rateLimit := Cli.rateLimit argv;
     Cli.retryAttempts := Cli.retryAttempts argv;
     Cli.retryDelay := Cli.retryDelay argv |}.

Definition credentials : ProcessEnv :=
  {| DOCUSIGN_TOKEN := Some "Bearer abc";
     DOCUSIGN_ACCOUNT_ID := Some "account";
     DOCUSIGN_USER_ID := None;
     DOCUSIGN_COOKIE := Some "cookie" |}.

(** A world whose listing serves one page of 100 records and then
    answers 401. *)
Definition expiring_world : World :=
  {| listensForError := false;
     toISOString := fun d => Some d;
     listReply := fun k _ _ =>
       if (k =? 0)%nat
       then Spec.replied
              (Resolved (Some (map Spec.sample_envelope (seq 0 100)))) false
       else Spec.replied (Rejected (AxiosError (Some 401) None "expired"))
              false;
     ensureDirReply := Spec.replied (Resolved tt) false;
     docReply := fun _ _ => Spec.replied (Resolved tt) false;
     writeReply := fun _ => Spec.replied (Resolved tt) false |}.

(** A world whose listing is rejected with a string, in a session
    that nobody listens to for errors. *)
Definition odd_world : World :=
  {| listensForError := false;
     toISOString := fun d => Some d;
     listReply := fun _ _ _ =>
       Spec.replied (Rejected (NonError "'stop'")) false;
     ensureDirReply := Spec.replied (Resolved tt) false;
     docReply := fun _ _ => Spec.replied (Resolved tt) false;
     writeReply := fun _ => Spec.replied (Resolved tt) false |}.

(** A world in which the output directory cannot be made. *)
Definition readonly_world : World :=
  {| listensForError := false;
     toISOString := fun d => Some d;
     listReply := fun _ _ _ => Spec.replied (Resolved None) false;
     ensureDirReply :=
       Spec.replied (Rejected (OtherError "EACCES: permission denied")) false;
     docReply := fun _ _ => Spec.replied (Resolved tt) false;
     writeReply := fun _ => Spec.replied (Resolved tt) false |}.

(** An export that is interrupted and tried again: calls made after a
    cancellation, and calls made with the session still active. *)
Definition after_cancel : list Session.Call :=
  [Session.Listing 5 (Spec.sample_world Spec.nobody Spec.nobody)
     "2024-01-01" "2024-12-31";
   Session.Cancel;
   Session.Batch (Spec.sample_world Spec.nobody Spec.nobody)].

Definition export : list Session.Call :=
  [Session.Listing 5 Spec.calm_world "2024-01-01" "2024-12-31";
   Session.Batch (Spec.sample_world Spec.nobody Spec.nobody);
   Session.Cancel].

(** The older module's view of [Spec.always_fails] and of
    [fails_once], and a session of the older module with the default
    options. *)
Definition older_always_fails (st : Z) (i : Z) : Legacy.Reply unit :=
  {| Legacy.outcome :=
       Legacy.Rejected {| Legacy.status := Some st;
                          Legacy.message := "boom" |};
     Legacy.pending := 100; Legacy.interrupted := false |}.

Definition older_fails_once (st : Z) (i : Z) : Legacy.Reply unit :=
  if i =? 1 then older_always_fails st i
  else {| Legacy.outcome := Legacy.Resolved tt;
          Legacy.pending := 100; Legacy.interrupted := false |}.

Definition older_service : Legacy.Service :=
  {| Legacy.config :=
       Legacy.merge Spec.no_env (Spec.sample_options "t" None None None None);
     Legacy.envelopes := []; Legacy.isCancelled := false;
     Legacy.now := 10000; Legacy.trace := [] |}.

(** A session with three discovered envelopes that downloads one at a
    time, with two requests per second. *)
Definition careful_service : Service :=
  Service.push (map Spec.sample_envelope (seq 0 3))
    (Service.new
       (Config.merge Spec.no_env
          (Spec.sample_options "t" (Some 1) None None (Some 2)))
       10000).

End Sample.

(* ================================================================== *)
(** * Properties *)

(** ** Numbers *)

Lemma lt_true (a b : Q) : Js.lt a b = true <-> (a < b)%Q.
Proof.
  unfold Js.lt. rewrite negb_true_iff. split.
  - intros H. apply Qnot_le_lt. intros Hle.
    apply Qle_bool_iff in Hle. congruence.
  - intros H. destruct (Qle_bool b a) eqn:E; [|reflexivity].
    apply Qle_bool_iff in E. exfalso. exact (Qlt_not_le _ _ H E).
Qed.

Lemma lt_false (a b : Q) : Js.lt a b = false <-> (b <= a)%Q.
Proof.
  unfold Js.lt. rewrite negb_false_iff. apply Qle_bool_iff.
Qed.

Lemma lt_spec (a b : Q) : reflect (a < b)%Q (Js.lt a b).
Proof.
  destruct (Js.lt a b) eqn:E; constructor.
  - apply lt_true. exact E.
  - apply lt_false in E. apply Qle_not_lt. exact E.
Qed.

Lemma le_spec (a b : Q) : reflect (a <= b)%Q (Qle_bool a b).
Proof.
  destruct (Qle_bool a b) eqn:E; constructor.
  - apply Qle_bool_iff. exact E.
  - intros H. apply Qle_bool_iff in H. congruence.
Qed.

(** An integer is below a number when it is below its integer part. *)
Lemma le_floor (a : Z) (q : Q) : (inject_Z a <= q)%Q <-> a <= Qfloor q.
Proof.
  split; intros H.
  - assert (Hlt : (inject_Z a < inject_Z (Qfloor q + 1))%Q).
    { eapply Qle_lt_trans; [exact H | apply Qlt_floor]. }
    rewrite <- Zlt_Qlt in Hlt. lia.
  - apply Qle_trans with (inject_Z (Qfloor q)).
    + rewrite <- Zle_Qle. exact H.
    + apply Qfloor_le.
Qed.

Lemma lt_floor (a : Z) (q : Q) : (q < inject_Z a)%Q <-> Qfloor q < a.
Proof.
  split; intros H.
  - destruct (Z_lt_le_dec (Qfloor q) a) as [Hl|Hl]; [exact Hl|].
    apply le_floor in Hl. exfalso. exact (Qlt_not_le _ _ H Hl).
  - apply Qnot_le_lt. intros Hle. apply le_floor in Hle. lia.
Qed.

Lemma le_bool_floor (a : Z) (q : Q) :
  Qle_bool (inject_Z a) q = (a <=? Qfloor q).
Proof.
  destruct (le_spec (inject_Z a) q) as [H|H];
    destruct (Z.leb_spec a (Qfloor q)) as [H'|H']; try reflexivity.
  - apply le_floor in H. lia.
  - exfalso. apply H. apply le_floor. exact H'.
Qed.

Lemma floor_int (z : Z) : Qfloor (inject_Z z) = z.
Proof. apply Qfloor_Z. Qed.

Lemma floor_nonneg (q : Q) : (0 <= q)%Q -> 0 <= Qfloor q.
Proof. intros H. apply (proj1 (le_floor 0 q)). exact H. Qed.

Lemma min_le_l (a b : Q) : (Js.min a b <= a)%Q.
Proof.
  unfold Js.min. destruct (le_spec a b) as [H|H]; [apply Qle_refl|].
  apply Qlt_le_weak. apply Qnot_le_lt. exact H.
Qed.

Lemma min_le_r (a b : Q) : (Js.min a b <= b)%Q.
Proof.
  unfold Js.min. destruct (le_spec a b) as [H|H]; [exact H | apply Qle_refl].
Qed.

Lemma min_l (a b : Q) : (a <= b)%Q -> Js.min a b = a.
Proof.
  intros H. unfold Js.min. destruct (le_spec a b); [reflexivity|contradiction].
Qed.

Lemma min_r (a b : Q) : (b < a)%Q -> Js.min a b = b.
Proof.
  intros H. unfold Js.min. destruct (le_spec a b) as [H'|H']; [|reflexivity].
  exfalso. exact (Qlt_not_le _ _ H H').
Qed.

Lemma min_glb (a b c : Q) : (c <= a)%Q -> (c <= b)%Q -> (c <= Js.min a b)%Q.
Proof. intros Ha Hb. unfold Js.min. destruct (Qle_bool a b); assumption. Qed.

Lemma or_num_given (q d : Q) :
  ~ (q == 0)%Q -> Js.or_num (Some (Js.Num q)) d = q.
Proof.
  intros H. unfold Js.or_num. destruct (Qeq_bool q 0) eqn:E; [|reflexivity].
  apply Qeq_bool_iff in E. contradiction.
Qed.

Lemma or_num_zero (q d : Q) : (q == 0)%Q -> Js.or_num (Some (Js.Num q)) d = d.
Proof.
  intros H. unfold Js.or_num. apply Qeq_bool_iff in H. rewrite H. reflexivity.
Qed.

Lemma latency_nonneg {T} (r : Reply T) : (0 <= latency r)%Q.
Proof.
  unfold latency. change 0%Q with (inject_Z 0). rewrite <- Zle_Qle. lia.
Qed.


Lemma timeout_wraps (ms : Q) : (Js.TIMEOUT_MAX < ms)%Q -> Js.timeout ms = 1%Q.
Proof.
  intros H. unfold Js.timeout.
  destruct (le_spec ms Js.TIMEOUT_MAX) as [H'|H'];
    [exfalso; exact (Qlt_not_le _ _ H H') | rewrite andb_false_r; reflexivity].
Qed.

Lemma timeout_min (ms : Q) : (1 <= Js.timeout ms)%Q.
Proof.
  unfold Js.timeout. destruct (le_spec 1 ms) as [H|H]; simpl.
  - destruct (Qle_bool ms Js.TIMEOUT_MAX); [exact H | apply Qle_refl].
  - apply Qle_refl.
Qed.

Lemma timeout_pos (ms : Q) : (0 < Js.timeout ms)%Q.
Proof.
  apply Qlt_le_trans with 1%Q; [reflexivity | apply timeout_min].
Qed.

(** Below the largest delay a timer never fires early. *)
Lemma timeout_full (ms : Q) :
  (ms <= Js.TIMEOUT_MAX)%Q -> (ms <= Js.timeout ms)%Q.
Proof.
  intros H. unfold Js.timeout. destruct (le_spec 1 ms) as [H1|H1]; simpl.
  - destruct (le_spec ms Js.TIMEOUT_MAX); [apply Qle_refl | contradiction].
  - apply Qlt_le_weak. apply Qnot_le_lt. exact H1.
Qed.

(** ** Strings *)

Lemma prefix_app (p s : string) : String.prefix p (p ++ s) = true.
Proof.
  induction p as [|c p IH]; simpl.
  - destruct s; reflexivity.
  - destruct (ascii_dec c c) as [_|ne]; [exact IH | contradiction].
Qed.

Lemma drop_app (p s : string) : Js.drop (String.length p) (p ++ s) = s.
Proof. induction p as [|c p IH]; simpl; [reflexivity | exact IH]. Qed.

(** Replacing in [pat ++ s] removes exactly that leading occurrence. *)
Lemma replace_leading (pat rep s : string) :
  Js.replace pat rep (pat ++ s) = rep ++ s.
Proof.
  destruct pat as [|c pat].
  - destruct s; reflexivity.
  - change (Js.replace (String c pat) rep (String c pat ++ s))
      with (if String.prefix (String c pat) (String c pat ++ s)
            then rep ++ Js.drop (String.length (String c pat))
                          (String c pat ++ s)
            else String c (Js.replace (String c pat) rep (pat ++ s))).
    rewrite prefix_app, drop_app. reflexivity.
Qed.

(** Where the pattern does not occur, nothing is replaced. *)
Lemma replace_absent (pat rep s : string) :
  Js.occurs pat s = false -> Js.replace pat rep s = s.
Proof.
  induction s as [|c s IH]; simpl; intros H.
  - apply orb_false_iff in H. destruct H as [H _]. rewrite H. reflexivity.
  - apply orb_false_iff in H. destruct H as [H1 H2].
    rewrite H1. f_equal. apply IH. exact H2.
Qed.

Lemma or_str_nonempty (s d : string) :
  s <> EmptyString -> Js.or_str (Some s) d = s.
Proof.
  intros H. unfold Js.or_str.
  destruct (String.eqb_spec s EmptyString); [contradiction | reflexivity].
Qed.

(** ** Session configuration *)

Lemma validate_first_invalid (c : DocusignConfig) :
  Config.validate c = Config.first_invalid c.
Proof.
  unfold Config.validate, Config.first_invalid, Config.checks. simpl.
  rewrite orb_false_r.
  repeat match goal with
         | |- context [if ?b then _ else _] =>
             destruct b; simpl; try reflexivity
         end.
Qed.

Lemma validate_none_valid (c : DocusignConfig) :
  Config.validate c = None -> Config.valid c.
Proof.
  unfold Config.validate, Config.valid. simpl. rewrite orb_false_r.
  destruct (String.eqb_spec (token c) EmptyString); [discriminate|].
  destruct (String.eqb_spec (accountId c) EmptyString); [discriminate|].
  destruct (String.eqb_spec (cookie c) EmptyString); [discriminate|].
  destruct (String.eqb_spec (environment c) "production") as [e1|e1]; simpl;
    [| destruct (String.eqb_spec (environment c) "demo") as [e2|e2]; simpl;
       [| discriminate]];
    (destruct (Js.lt (maxConcurrent c) 1) eqn:E1; [discriminate|];
     destruct (Js.lt (retryAttempts c) 0) eqn:E2; [discriminate|];
     destruct (Js.lt (retryDelay c) 0) eqn:E3; [discriminate|];
     destruct (Js.lt (rateLimit c) 1) eqn:E4; [discriminate|];
     apply lt_false in E1, E2, E3, E4;
     intros _; repeat split; auto).
Qed.

Lemma new_ok_valid env config c :
  Config.new env config = Ok c -> Config.valid c.
Proof.
  unfold Config.new. destruct (Config.validate _) eqn:E; [discriminate|].
  intros H. inversion H. subst. apply validate_none_valid. exact E.
Qed.

Lemma or_num_negative (q d : Q) :
  (q < 0)%Q -> Js.or_num (Some (Js.Num q)) d = q.
Proof.
  intros H. apply or_num_given. intros E. rewrite E in H.
  exact (Qlt_irrefl _ H).
Qed.

Lemma negative_bound_invalid env config :
  Config.negative_bound config ->
  Config.validate (Config.merge env config) <> None.
Proof.
  intros (q & Hq & H) Hv. apply validate_none_valid in Hv.
  destruct Hv as (_ & _ & _ & _ & Hm & Ha & Hd & Hr).
  unfold Config.merge in *; cbn [maxConcurrent retryAttempts retryDelay
                                  rateLimit] in *.
  destruct H as [H|[H|[H|H]]]; rewrite H in *;
    rewrite or_num_negative in * by assumption.
  - pose proof (min_le_l q 5) as Hle. lra.
  - lra.
  - lra.
  - lra.
Qed.

(** C7 (as amended).  Construction validates the merged fields once and
    fails with the message of the first invalid field, in the order
    token, account id, cookie, environment, then the numeric bounds
    (maxConcurrent, retryAttempts, retryDelay, rateLimit); any negative
    numeric bound makes construction fail, and a configuration that was
    constructed satisfies every check. *)
Theorem construction_validates_in_order :
  forall (env : ProcessEnv) (config : DocusignConfigOptions),
    let c := Config.merge env config in
    Config.new env config =
      match Config.first_invalid c with
      | Some f => Err (field_message f)
      | None => Ok c
      end
    /\ (Config.negative_bound config ->
        exists f, Config.new env config = Err (field_message f))
    /\ (forall c', Config.new env config = Ok c' -> Config.valid c').
Proof.
  intros env config c. split; [|split].
  - unfold Config.new. fold c. rewrite validate_first_invalid. reflexivity.
  - intros H. apply (negative_bound_invalid env) in H.
    unfold Config.new. destruct (Config.validate _) as [f|]; [|contradiction].
    exists f. reflexivity.
  - intros c'. apply new_ok_valid.
Qed.

Lemma construction_validates_in_order_witness :
  Config.negative_bound (Spec.sample_options "t" None (Some (-1)) None None)
  /\ Config.new Spec.no_env
       (Spec.sample_options "t" None (Some (-1)) None None)
     = Err (field_message FRetryAttempts).
Proof.
  split.
  - exists (inject_Z (-1)). split; [reflexivity | right; left; reflexivity].
  - destruct (construction_validates_in_order Spec.no_env
                (Spec.sample_options "t" None (Some (-1)) None None))
      as (H & _ & _).
    rewrite H. reflexivity.
Defined.

(** C7 (as stated) fails: a retry ceiling of 0 is a non-positive bound,
    yet construction succeeds (and the ceiling falls back to 3). *)
Lemma zero_bound_is_accepted :
  Config.nonpositive_bound
    (Spec.sample_options "t" None (Some 0) None None)
  /\ exists c,
      Config.new Spec.no_env (Spec.sample_options "t" None (Some 0) None None)
      = Ok c /\ retryAttempts c = 3%Q.
Proof.
  split.
  - exists (inject_Z 0). split; [discriminate | right; left; reflexivity].
  - eexists. split; reflexivity.
Qed.

(** C10 (as amended).  The stored token is the supplied one with its first
    ["Bearer "] removed; so for a non-empty token in which ["Bearer "]
    does not occur, passing it with the prefix or bare gives the same
    stored token, the same header and the same construction result. *)
Theorem bearer_prefix_is_stripped :
  forall (env : ProcessEnv) (config : DocusignConfigOptions) (t : string),
    t <> EmptyString ->
    Js.occurs "Bearer " t = false ->
    let prefixed := Spec.with_token config ("Bearer " ++ t) in
    let bare := Spec.with_token config t in
    token (Config.merge env prefixed) = t
    /\ token (Config.merge env bare) = t
    /\ authorization (Service._buildHeaders (Config.merge env prefixed))
       = "Bearer " ++ t
    /\ authorization (Service._buildHeaders (Config.merge env bare))
       = "Bearer " ++ t
    /\ Config.new env prefixed = Config.new env bare.
Proof.
  intros env config t Ht Hocc prefixed bare.
  assert (Hp : token (Config.merge env prefixed) = t).
  { unfold Config.merge, prefixed, Spec.with_token. cbn [token opt_token].
    rewrite or_str_nonempty by (simpl; discriminate).
    apply (replace_leading "Bearer " EmptyString t). }
  assert (Hb : token (Config.merge env bare) = t).
  { unfold Config.merge, bare, Spec.with_token. cbn [token opt_token].
    rewrite or_str_nonempty by assumption.
    apply replace_absent. exact Hocc. }
  assert (Hm : Config.merge env prefixed = Config.merge env bare).
  { unfold Config.merge in *. cbn [token] in Hp, Hb. rewrite Hp, Hb.
    reflexivity. }
  repeat split; auto.
  - unfold Service._buildHeaders. cbn [authorization]. rewrite Hp.
    reflexivity.
  - unfold Service._buildHeaders. cbn [authorization]. rewrite Hb.
    reflexivity.
  - unfold Config.new. rewrite Hm. reflexivity.
Qed.

Lemma bearer_prefix_is_stripped_witness :
  token (Config.merge Spec.no_env
           (Spec.with_token (Spec.sample_options "x" None None None None)
              "Bearer abc")) = "abc"
  /\ Config.new Spec.no_env
       (Spec.with_token (Spec.sample_options "x" None None None None)
          "Bearer abc")
     = Config.new Spec.no_env
         (Spec.with_token (Spec.sample_options "x" None None None None) "abc").
Proof.
  destruct (bearer_prefix_is_stripped Spec.no_env
              (Spec.sample_options "x" None None None None) "abc")
    as (H1 & _ & _ & _ & H5).
  - discriminate.
  - reflexivity.
  - split; [exact H1 | exact H5].
Defined.

(** C10 (as stated) fails: when the bare token itself contains
    ["Bearer "], the prefixed and the bare call store different tokens
    and construct different configurations; and for the empty token the
    prefixed call stores nothing while the bare call falls back to the
    token of the environment. *)
Lemma bearer_inside_token_differs :
  let config := Spec.sample_options "x" None None None None in
  let t := "abc Bearer def" in
  token (Config.merge Spec.no_env (Spec.with_token config ("Bearer " ++ t)))
    = "abc Bearer def"
  /\ token (Config.merge Spec.no_env (Spec.with_token config t)) = "abc def"
  /\ Config.new Spec.no_env (Spec.with_token config ("Bearer " ++ t))
     <> Config.new Spec.no_env (Spec.with_token config t)
  /\ token (Config.merge Spec.token_env (Spec.with_token config "Bearer "))
     = EmptyString
  /\ token (Config.merge Spec.token_env (Spec.with_token config EmptyString))
     = "from-env".
Proof.
  cbv zeta. split; [reflexivity | split; [reflexivity |]].
  split; [vm_compute; discriminate|]. split; reflexivity.
Qed.

(** ** Traces *)

Open Scope list_scope.

Lemma events_app (a b : list Effect) :
  Spec.events (a ++ b) = Spec.events a ++ Spec.events b.
Proof. apply flat_map_app. Qed.

Lemma requests_app (a b : list Effect) :
  Spec.requests (a ++ b) = Spec.requests a ++ Spec.requests b.
Proof. apply flat_map_app. Qed.

Lemma backoffs_app (a b : list Effect) :
  Spec.backoffs (a ++ b) = Spec.backoffs a ++ Spec.backoffs b.
Proof. apply filter_app. Qed.

Create Rewrite HintDb trace.
#[local] Hint Rewrite events_app requests_app backoffs_app : trace.
#[local] Hint Rewrite <- app_assoc : trace.
#[local] Hint Rewrite app_nil_r : trace.

Lemma trace_emit (e : Event) (s : Service) :
  trace (Service.emit e s) = trace s ++ [Emit e].
Proof. reflexivity. Qed.

(** ** The retry executor *)

Section Timeline.
Context {T : Type}.
Variable took : Timer -> Q -> Q.
Variable requestFn : Z -> Reply T.

Lemma timeline_start (tr : list Effect) :
  forall (a : Z) (t1 t2 t' : Q),
    (t1 == t2)%Q ->
    Spec.timeline took requestFn a t1 tr t' ->
    Spec.timeline took requestFn a t2 tr t'.
Proof.
  induction tr as [|e tr IH]; intros a t1 t2 t' Heq H.
  - simpl in *. rewrite H. exact Heq.
  - destruct e as [ev|k ms|at_ r]; simpl in *.
    + exact (IH a t1 t2 t' Heq H).
    + apply (IH a (t1 + took k ms)%Q); [|exact H].
      rewrite Heq. reflexivity.
    + destruct H as [H1 H2]. split; [rewrite H1; exact Heq|].
      apply (IH (a + 1) (t1 + latency (requestFn a))%Q); [|exact H2].
      rewrite Heq. reflexivity.
Qed.

Lemma timeline_end (tr : list Effect) :
  forall (a : Z) (t t1 t2 : Q),
    (t1 == t2)%Q ->
    Spec.timeline took requestFn a t tr t1 ->
    Spec.timeline took requestFn a t tr t2.
Proof.
  induction tr as [|e tr IH]; intros a t t1 t2 Heq H.
  - simpl in *. rewrite <- Heq. exact H.
  - destruct e as [ev|k ms|at_ r]; simpl in *.
    + exact (IH a t t1 t2 Heq H).
    + exact (IH a _ t1 t2 Heq H).
    + destruct H as [H1 H2]. split; [exact H1|].
      exact (IH _ _ t1 t2 Heq H2).
Qed.

Lemma timeline_app (tr1 tr2 : list Effect) :
  forall (a : Z) (t tm t' : Q),
    Spec.timeline took requestFn a t tr1 tm ->
    Spec.timeline took requestFn
      (a + Z.of_nat (length (Spec.requests tr1))) tm tr2 t' ->
    Spec.timeline took requestFn a t (tr1 ++ tr2) t'.
Proof.
  induction tr1 as [|e tr1 IH]; intros a t tm t' H1 H2.
  - simpl in *. rewrite Z.add_0_r in H2.
    exact (timeline_start tr2 a tm t t' H1 H2).
  - destruct e as [ev|k ms|at_ r]; simpl in *.
    + exact (IH a t tm t' H1 H2).
    + exact (IH a _ tm t' H1 H2).
    + destruct H1 as [H0 H1]. split; [exact H0|].
      apply (IH (a + 1) _ tm t' H1).
      replace (a + 1 + Z.of_nat (length (Spec.requests tr1)))
        with (a + Z.pos (Pos.of_succ_nat (length (Spec.requests tr1))))
        by lia.
      exact H2.
Qed.

End Timeline.





Section Executor.
Import Service.
Context {T : Type}.
Variable req : Request.
Variable requestFn : Z -> Reply T.

Lemma rateLimit_frame (s : Service) :
  config (_rateLimit s) = config s
  /\ envelopes (_rateLimit s) = envelopes s
  /\ isCancelled (_rateLimit s) = isCancelled s
  /\ trace (_rateLimit s) = trace s ++ Spec.pacing_effects s.
Proof.
  unfold _rateLimit, Spec.pacing_effects.
  destruct (pacingWait s); simpl; repeat split; auto.
  rewrite app_nil_r. reflexivity.
Qed.

Lemma invoke_frame (r : Reply T) (s : Service) :
  config (invoke req r s) = config s
  /\ envelopes (invoke req r s) = envelopes s
  /\ isCancelled (invoke req r s) = isCancelled s || interrupted r
  /\ trace (invoke req r s) = trace s ++ Spec.invoke_effects req r (now s).
Proof.
  unfold invoke, Spec.invoke_effects, interrupt.
  destruct (interrupted r); simpl; repeat split; auto.
  - symmetry. apply orb_true_r.
  - rewrite <- app_assoc. reflexivity.
  - symmetry. apply orb_false_r.
Qed.

Lemma settled_frame (attempt : Z) (s : Service) :
  config (Spec.settled req requestFn attempt s) = config s
  /\ envelopes (Spec.settled req requestFn attempt s) = envelopes s
  /\ isCancelled (Spec.settled req requestFn attempt s)
     = isCancelled s || interrupted (requestFn attempt)
  /\ trace (Spec.settled req requestFn attempt s)
     = trace s ++ Spec.attempt_effects req requestFn attempt s.
Proof.
  unfold Spec.settled, Spec.attempt_effects.
  destruct (invoke_frame (requestFn attempt) (_rateLimit s))
    as (Hc & He & Hi & Ht).
  destruct (rateLimit_frame s) as (Hc' & He' & Hi' & Ht').
  rewrite Hc, He, Hi, Ht, Hc', He', Hi', Ht', <- app_assoc. auto.
Qed.

Lemma attempt_effects_requests (attempt : Z) (s : Service) :
  Spec.requests (Spec.attempt_effects req requestFn attempt s) = [req].
Proof.
  unfold Spec.attempt_effects, Spec.pacing_effects, Spec.invoke_effects.
  destruct (pacingWait s), (interrupted (requestFn attempt)); reflexivity.
Qed.

Lemma attempt_effects_no_tokenExpired (attempt : Z) (s : Service) :
  filter Spec.is_tokenExpired
    (Spec.events (Spec.attempt_effects req requestFn attempt s)) = [].
Proof.
  unfold Spec.attempt_effects, Spec.pacing_effects, Spec.invoke_effects.
  destruct (pacingWait s), (interrupted (requestFn attempt)); reflexivity.
Qed.

Lemma attempt_effects_events (attempt : Z) (s : Service) :
  Forall Spec.executor_event
    (Spec.events (Spec.attempt_effects req requestFn attempt s)).
Proof.
  unfold Spec.attempt_effects, Spec.pacing_effects, Spec.invoke_effects.
  destruct (pacingWait s), (interrupted (requestFn attempt)); simpl;
    repeat constructor.
Qed.

Lemma attempt_effects_backoffs (attempt : Z) (s : Service) :
  Spec.backoffs (Spec.attempt_effects req requestFn attempt s) = [].
Proof.
  unfold Spec.attempt_effects, Spec.pacing_effects, Spec.invoke_effects.
  destruct (pacingWait s), (interrupted (requestFn attempt)); reflexivity.
Qed.

(** An attempt takes the pacing wait, if any, and the time its request
    is pending. *)
Lemma attempt_timeline (took : Timer -> Q -> Q) (attempt : Z) (s : Service) :
  took Pacing = Js.timeout ->
  Spec.timeline took requestFn attempt (now s)
    (Spec.attempt_effects req requestFn attempt s)
    (now (Spec.settled req requestFn attempt s)).
Proof.
  intros Hp.
  unfold Spec.attempt_effects, Spec.pacing_effects, Spec.invoke_effects,
    Spec.settled, invoke, _rateLimit, interrupt, cancel.
  destruct (pacingWait s) as [ms|], (interrupted (requestFn attempt));
    cbn [app Spec.timeline now setTimeout elapse record emit
         set_lastRequestTime];
    rewrite ?Hp; split; reflexivity.
Qed.

(** The three ways an attempt can end, as equations of [retry]. *)
Lemma retry_resolved fuel attempt s v :
  outcome (requestFn attempt) = Resolved v ->
  retry (S fuel) req requestFn attempt s
  = Some (Spec.settled req requestFn attempt s, Ok v).
Proof. intros H. simpl. rewrite H. reflexivity. Qed.

Lemma retry_unauthorized fuel attempt s dataMessage message :
  outcome (requestFn attempt)
  = Rejected (AxiosError (Some 401) dataMessage message) ->
  retry (S fuel) req requestFn attempt s
  = Some (emit tokenExpired (Spec.settled req requestFn attempt s),
          Err TokenExpired).
Proof. intros H. simpl. rewrite H. reflexivity. Qed.

Lemma transient_status (st : Z) :
  st = 429 \/ 500 <= st <= 599 ->
  is_status (Some st) 401 = false /\ retryable (Some st) = true.
Proof.
  intros H. unfold is_status, retryable, status_or_zero. simpl.
  destruct (Z.eqb_spec st 401), (Z.eqb_spec st 429), (Z.leb_spec 500 st);
    simpl; split; auto; lia.
Qed.

Lemma retry_again fuel attempt s st dataMessage message :
  outcome (requestFn attempt)
  = Rejected (AxiosError (Some st) dataMessage message) ->
  st = 429 \/ 500 <= st <= 599 ->
  (inject_Z attempt <= retryAttempts (config s))%Q ->
  retry (S fuel) req requestFn attempt s
  = retry fuel req requestFn (attempt + 1)
      (setTimeout Backoff (backoffDelay (config s) attempt)
         (emit (retrying attempt (backoffDelay (config s) attempt) message)
            (Spec.settled req requestFn attempt s))).
Proof.
  intros H Hst Ha. cbn [retry]. rewrite H.
  destruct (transient_status st Hst) as [H1 H2]. rewrite H1, H2.
  destruct (settled_frame attempt s) as (Hc & _).
  unfold Spec.settled in Hc. rewrite Hc.
  destruct (le_spec (inject_Z attempt) (retryAttempts (config s)));
    [|contradiction].
  reflexivity.
Qed.


(** [k] transient failures in a row, all within the ceiling, cost [k]
    rounds: one dispatch, one notification and one wait each. *)
Lemma retry_rounds (status : Z -> Z) (cause : Z -> string) :
  forall (k fuel : nat) (a : Z) (s : Service),
    (forall i, a <= i < a + Z.of_nat k ->
               Spec.fails_transiently requestFn status cause i
               /\ (inject_Z i <= retryAttempts (config s))%Q) ->
    exists s' tr,
      retry (k + fuel) req requestFn a s
      = retry fuel req requestFn (a + Z.of_nat k) s'
      /\ config s' = config s
      /\ envelopes s' = envelopes s
      /\ isCancelled s'
         = isCancelled s
           || existsb (fun i => interrupted (requestFn i))
                (Spec.attempts_from a k)
      /\ trace s' = trace s ++ tr
      /\ Spec.backoffs tr
         = flat_map (Spec.retry_round (config s) cause)
             (Spec.attempts_from a k)
      /\ Spec.requests tr = repeat req k
      /\ filter Spec.is_tokenExpired (Spec.events tr) = []
      /\ Forall Spec.executor_event (Spec.events tr)
      /\ Spec.timeline Spec.actual requestFn a (now s) tr (now s').
Proof.
  induction k as [|k IH]; intros fuel a s Hf.
  - exists s, []. simpl. rewrite Z.add_0_r, app_nil_r, orb_false_r.
    repeat split; try reflexivity. constructor.
  - destruct (Hf a ltac:(lia)) as ((Hst & dm & Ho) & Hle).
    pose proof (retry_again (k + fuel) a s _ _ _ Ho Hst Hle) as E.
    destruct (settled_frame a s) as (Hc & He & Hi & Ht).
    set (s1 := setTimeout Backoff _ _) in E.
    assert (Hc1 : config s1 = config s) by (unfold s1; simpl; exact Hc).
    destruct (IH fuel (a + 1) s1)
      as (s' & tr & E' & Hc' & He' & Hi' & Ht' & Hb & Hr & Hx & Hev & Hti).
    { intros i Hi0. rewrite Hc1. apply Hf. lia. }
    exists s'.
    exists (Spec.attempt_effects req requestFn a s
            ++ Spec.retry_round (config s) cause a ++ tr).
    repeat split.
    + change (S k + fuel)%nat with (S (k + fuel)). rewrite E, E'.
      f_equal. lia.
    + rewrite Hc'. exact Hc1.
    + rewrite He'. unfold s1. cbn [envelopes setTimeout elapse emit record].
      exact He.
    + rewrite Hi'. unfold s1.
      cbn [isCancelled setTimeout elapse emit record]. rewrite Hi.
      cbn [Spec.attempts_from existsb]. rewrite orb_assoc. reflexivity.
    + rewrite Ht'. unfold s1. cbn [trace setTimeout elapse emit record].
      rewrite Ht. unfold Spec.retry_round, backoffDelay.
      repeat rewrite <- app_assoc. reflexivity.
    + autorewrite with trace. rewrite attempt_effects_backoffs, Hb, Hc1.
      simpl. reflexivity.
    + autorewrite with trace. rewrite attempt_effects_requests, Hr.
      reflexivity.
    + autorewrite with trace. rewrite filter_app, filter_app, Hx.
      rewrite attempt_effects_no_tokenExpired. reflexivity.
    + autorewrite with trace. apply Forall_app. split.
      * apply attempt_effects_events.
      * simpl. constructor; [exact I | exact Hev].
    + apply (timeline_app _ _ _ _ a (now s)
               (now (Spec.settled req requestFn a s)));
        [apply attempt_timeline; reflexivity|].
      rewrite attempt_effects_requests.
      apply (timeline_app _ _ (Spec.retry_round (config s) cause a) tr
               (a + 1) (now (Spec.settled req requestFn a s)) (now s1)).
      * unfold s1, Spec.retry_round, Spec.actual, backoffDelay.
        cbn [Spec.timeline now setTimeout elapse emit record].
        reflexivity.
      * cbn [Spec.retry_round Spec.requests flat_map app length].
        rewrite Z.add_0_r. exact Hti.
Qed.

(** The executor gives the recursion enough fuel for [n] retries and
    the attempt after them. *)
Lemma attempts_fuel_split (c : DocusignConfig) (n : nat) :
  (forall i, 1 <= i < 1 + Z.of_nat n -> (inject_Z i <= retryAttempts c)%Q) ->
  exists fuel, attempts_fuel c = (n + S fuel)%nat.
Proof.
  intros H. unfold attempts_fuel, ceiling.
  exists (Z.to_nat (Qfloor (retryAttempts c)) - n)%nat.
  destruct n as [|n]; [lia|].
  specialize (H (Z.of_nat (S n)) ltac:(lia)). apply le_floor in H. lia.
Qed.

Lemma attempts_from_snoc (k : nat) :
  forall a, Spec.attempts_from a (S k)
            = Spec.attempts_from a k ++ [a + Z.of_nat k].
Proof.
  induction k as [|k IH]; intros a.
  - simpl. rewrite Z.add_0_r. reflexivity.
  - change (Spec.attempts_from a (S (S k)))
      with (a :: Spec.attempts_from (a + 1) (S k)).
    rewrite IH. simpl. do 2 f_equal. f_equal. lia.
Qed.

(** A call that is settled after [n] transient failures. *)
Lemma request_resolves (s : Service) (n : nat) (v : T) :
  Spec.resolves_after (config s) requestFn n v ->
  exists s' tr,
    _retryableRequest req requestFn s = Some (s', Ok v)
    /\ config s' = config s
    /\ envelopes s' = envelopes s
    /\ isCancelled s' = isCancelled s || Spec.disturbed requestFn n
    /\ trace s' = trace s ++ tr
    /\ Spec.requests tr = repeat req (S n)
    /\ Forall Spec.executor_event (Spec.events tr).
Proof.
  intros ((status & cause & Hf) & Hv).
  destruct (attempts_fuel_split (config s) n) as (fuel & Hfuel).
  { intros i Hi. apply Hf. exact Hi. }
  destruct (retry_rounds status cause n (S fuel) 1 s Hf)
    as (s1 & tr & E & Hc & He & Hi & Ht & _ & Hr & _ & Hev & _).
  destruct (settled_frame (1 + Z.of_nat n) s1) as (Hc1 & He1 & Hi1 & Ht1).
  exists (Spec.settled req requestFn (1 + Z.of_nat n) s1).
  exists (tr ++ Spec.attempt_effects req requestFn (1 + Z.of_nat n) s1).
  repeat split.
  - unfold _retryableRequest. rewrite Hfuel, E.
    apply retry_resolved. exact Hv.
  - congruence.
  - congruence.
  - rewrite Hi1, Hi. unfold Spec.disturbed.
    rewrite attempts_from_snoc, existsb_app. simpl.
    rewrite orb_false_r, orb_assoc. reflexivity.
  - rewrite Ht1, Ht, <- app_assoc. reflexivity.
  - autorewrite with trace. rewrite attempt_effects_requests, Hr.
    simpl. rewrite <- repeat_cons. reflexivity.
  - autorewrite with trace. apply Forall_app. split; [exact Hev|].
    apply attempt_effects_events.
Qed.

End Executor.




(** C2.  A reply with status 401 is never retried, whatever the retry
    ceiling: after any number of earlier rounds, the executor notifies
    [tokenExpired] once, in the state in which the reply arrived, and
    throws the token-expired error; the request was dispatched once for
    each earlier round and once more, and no other [tokenExpired] is in
    the trace of the call. *)
Theorem unauthorized_is_fatal :
  forall (T : Type) (req : Request) (requestFn : Z -> Reply T) (s : Service)
         (status : Z -> Z) (cause : Z -> string) (n : nat)
         (dataMessage : option string) (message : string),
    (forall i, 1 <= i < 1 + Z.of_nat n ->
               Spec.fails_transiently requestFn status cause i
               /\ (inject_Z i <= retryAttempts (config s))%Q) ->
    outcome (requestFn (1 + Z.of_nat n))
    = Rejected (AxiosError (Some 401) dataMessage message) ->
    exists s1 s' tr,
      Service._retryableRequest req requestFn s = Some (s', Err TokenExpired)
      /\ s' = Service.emit tokenExpired
                (Service.invoke req (requestFn (1 + Z.of_nat n))
                   (Service._rateLimit s1))
      /\ trace s' = trace s ++ tr
      /\ Spec.requests tr = repeat req (S n)
      /\ filter Spec.is_tokenExpired (Spec.events tr) = [tokenExpired]
      /\ Spec.backoffs tr
         = flat_map (Spec.retry_round (config s) cause)
             (Spec.attempts_from 1 n).
Proof.
  intros T req requestFn s status cause n dm msg Hf H401.
  destruct (attempts_fuel_split (config s) n) as (fuel & Hfuel).
  { intros i Hi. apply Hf. exact Hi. }
  destruct (retry_rounds req requestFn status cause n (S fuel) 1 s Hf)
    as (s1 & tr & E & Hc & _ & _ & Ht & Hb & Hr & Hx & _ & _).
  destruct (settled_frame req requestFn (1 + Z.of_nat n) s1)
    as (_ & _ & _ & Ht1).
  exists s1. eexists.
  exists (tr ++ Spec.attempt_effects req requestFn (1 + Z.of_nat n) s1
             ++ [Emit tokenExpired]).
  split; [|split; [reflexivity|]].
  - unfold Service._retryableRequest. rewrite Hfuel, E.
    apply (retry_unauthorized req requestFn fuel _ s1 dm msg H401).
  - repeat split.
    + rewrite trace_emit. unfold Spec.settled in Ht1. rewrite Ht1, Ht.
      repeat rewrite <- app_assoc. reflexivity.
    + autorewrite with trace.
      rewrite attempt_effects_requests, Hr. simpl.
      rewrite <- repeat_cons. reflexivity.
    + autorewrite with trace. rewrite !filter_app, Hx.
      rewrite attempt_effects_no_tokenExpired. reflexivity.
    + autorewrite with trace.
      rewrite attempt_effects_backoffs, Hb. simpl.
      rewrite app_nil_r. reflexivity.
Qed.

Lemma unauthorized_is_fatal_witness :
  exists s1 s' tr,
    Service._retryableRequest Spec.sample_request (Spec.always_fails 401)
      Spec.sample_service = Some (s', Err TokenExpired)
    /\ s' = Service.emit tokenExpired
              (Service.invoke Spec.sample_request (Spec.always_fails 401 1)
                 (Service._rateLimit s1))
    /\ trace s' = trace Spec.sample_service ++ tr
    /\ Spec.requests tr = [Spec.sample_request]
    /\ filter Spec.is_tokenExpired (Spec.events tr) = [tokenExpired]
    /\ Spec.backoffs tr = [].
Proof.
  apply (unauthorized_is_fatal unit Spec.sample_request
           (Spec.always_fails 401) Spec.sample_service
           (fun _ => 500) (fun _ => "boom"%string) 0 None "boom").
  - intros i Hi. simpl in Hi. lia.
  - reflexivity.
Defined.

(** ** Resource discovery *)

Lemma executor_events_no_error (evs : list Event) :
  Forall Spec.executor_event evs -> filter Spec.is_error evs = [].
Proof.
  induction 1 as [|e evs He _ IH]; [reflexivity|].
  destruct e; simpl in *; try contradiction; exact IH.
Qed.

Lemma offset_shift (first : Z) (acc p : list Envelope)
    (rest : list (list Envelope)) (j : nat) :
  Spec.offset first acc (p :: rest) (S j)
  = Spec.offset (Z.of_nat (length (acc ++ p))) (acc ++ p) rest j.
Proof.
  destruct j as [|j].
  - simpl. rewrite app_nil_r. reflexivity.
  - unfold Spec.offset.
    change (firstn (S (S j)) (p :: rest)) with (p :: firstn (S j) rest).
    simpl concat. rewrite app_assoc. reflexivity.
Qed.

Section Paging.
Import Service.
Variable w : World.
Variables from_date to_date : string.

Lemma absorb_frame (data : option (list Envelope)) (s1 : Service) :
  config (Spec.absorb data s1) = config s1
  /\ envelopes (Spec.absorb data s1) = envelopes s1 ++ Spec.records data
  /\ isCancelled (Spec.absorb data s1) = isCancelled s1
  /\ trace (Spec.absorb data s1) = trace s1 ++ Spec.absorb_effects data s1.
Proof.
  destruct data; simpl; repeat split; auto; rewrite app_nil_r; reflexivity.
Qed.

(** One turn of the loop around a call that was settled with [data]. *)
Lemma paging_page fuel k pos s s1 data :
  isCancelled s = false ->
  _retryableRequest (Spec.page_request from_date to_date pos)
    (listReply w k pos) s
  = Some (s1, Ok data) ->
  Discovery.paging (S fuel) w from_date to_date k pos s
  = if Discovery.length_or_zero data =? 100
    then Discovery.paging fuel w from_date to_date (S k)
           (match data with
            | Some _ => Z.of_nat (length (envelopes (Spec.absorb data s1)))
            | None => pos
            end)
           (Spec.absorb data s1)
    else Some (Spec.absorb data s1, Ok (envelopes (Spec.absorb data s1))).
Proof.
  intros Hc E. simpl. rewrite Hc.
  unfold Spec.page_request in E. rewrite E.
  destruct data; reflexivity.
Qed.

Lemma paging_cancelled fuel k pos s :
  isCancelled s = true ->
  Discovery.paging (S fuel) w from_date to_date k pos s
  = Some (s, Ok (envelopes s)).
Proof. intros Hc. simpl. rewrite Hc. reflexivity. Qed.

(** Full, undisturbed pages followed by a page that is short or during
    which [cancel()] was called. *)
Lemma paging_run :
  forall (full : list (list Envelope)) (last : option (list Envelope))
         (tries : nat -> nat) (k : nat) (pos : Z) (s : Service)
         (fuel : nat),
    isCancelled s = false ->
    (forall j, (j < length full)%nat ->
       length (nth j full []) = 100%nat
       /\ Spec.resolves_after (config s)
            (listReply w (k + j) (Spec.offset pos (envelopes s) full j))
            (tries (k + j)%nat) (Some (nth j full []))
       /\ Spec.disturbed
            (listReply w (k + j) (Spec.offset pos (envelopes s) full j))
            (tries (k + j)%nat) = false) ->
    Spec.resolves_after (config s)
      (listReply w (k + length full)
         (Spec.offset pos (envelopes s) full (length full)))
      (tries (k + length full)%nat) last ->
    Discovery.length_or_zero last <> 100
    \/ Spec.disturbed
         (listReply w (k + length full)
            (Spec.offset pos (envelopes s) full (length full)))
         (tries (k + length full)%nat) = true ->
    (S (length full) < fuel)%nat ->
    exists s' tr,
      Discovery.paging fuel w from_date to_date k pos s
      = Some (s', Ok (envelopes s ++ concat full ++ Spec.records last))
      /\ envelopes s' = envelopes s ++ concat full ++ Spec.records last
      /\ config s' = config s
      /\ isCancelled s'
         = Spec.disturbed
             (listReply w (k + length full)
                (Spec.offset pos (envelopes s) full (length full)))
             (tries (k + length full)%nat)
      /\ trace s' = trace s ++ tr
      /\ Spec.requests tr
         = flat_map
             (fun j => repeat
                         (Spec.page_request from_date to_date
                            (Spec.offset pos (envelopes s) full j))
                         (S (tries (k + j)%nat)))
             (seq 0 (S (length full)))
      /\ filter Spec.is_error (Spec.events tr) = [].
Proof.
  induction full as [|p rest IH];
    intros last tries k pos s fuel Hc Hfull Hlast Hstop Hfuel.
  - (* the last page *)
    simpl in *. rewrite Nat.add_0_r in *.
    destruct fuel as [|fuel]; [lia|].
    destruct (request_resolves (Spec.page_request from_date to_date pos)
                (listReply w k pos) s
                _ _ Hlast)
      as (s1 & tr & E & Hc1 & He1 & Hi1 & Ht1 & Hr1 & Hev1).
    destruct (absorb_frame last s1) as (Hc2 & He2 & Hi2 & Ht2).
    rewrite Hc in Hi1. simpl in Hi1.
    exists (Spec.absorb last s1), (tr ++ Spec.absorb_effects last s1).
    assert (Hres :
      Discovery.paging (S fuel) w from_date to_date k pos s
      = Some (Spec.absorb last s1, Ok (envelopes (Spec.absorb last s1)))).
    { rewrite (paging_page fuel k pos s s1 last Hc E).
      destruct (Z.eqb_spec (Discovery.length_or_zero last) 100) as [e|ne];
        [|reflexivity].
      destruct Hstop as [Hstop|Hstop]; [contradiction|].
      destruct fuel as [|fuel]; [lia|].
      apply paging_cancelled. rewrite Hi2, Hi1. exact Hstop. }
    rewrite Hres, He2, He1.
    repeat split.
    + congruence.
    + rewrite Hi2. exact Hi1.
    + rewrite Ht2, Ht1, <- app_assoc. reflexivity.
    + autorewrite with trace. rewrite Hr1.
      destruct last; simpl; rewrite !app_nil_r; reflexivity.
    + autorewrite with trace. rewrite filter_app.
      rewrite (executor_events_no_error _ Hev1).
      destruct last; reflexivity.
  - (* a full page, then the rest *)
    destruct fuel as [|fuel]; [lia|].
    destruct (Hfull 0%nat ltac:(simpl; lia)) as (Hlen & Hres & Hund).
    simpl in Hlen, Hres, Hund. rewrite Nat.add_0_r in Hres, Hund.
    destruct (request_resolves (Spec.page_request from_date to_date pos)
                (listReply w k pos) s
                _ _ Hres)
      as (s1 & tr & E & Hc1 & He1 & Hi1 & Ht1 & Hr1 & Hev1).
    destruct (absorb_frame (Some p) s1) as (Hc2 & He2 & Hi2 & Ht2).
    rewrite Hc, Hund in Hi1. simpl in Hi1.
    simpl Spec.records in He2. rewrite He1 in He2.
    rewrite (paging_page fuel k pos s s1 (Some p) Hc E).
    assert (Hfull100 : (Discovery.length_or_zero (Some p) =? 100) = true).
    { simpl. rewrite Hlen. reflexivity. }
    rewrite Hfull100.
    set (s2 := Spec.absorb (Some p) s1) in *.
    destruct (IH last tries (S k)
                (Z.of_nat (length (envelopes s2))) s2 fuel)
      as (s' & tr' & E' & He' & Hc' & Hi' & Ht' & Hr' & Hx').
    + rewrite Hi2. exact Hi1.
    + intros j Hj. rewrite He2, <- (offset_shift pos).
      replace (S k + j)%nat with (k + S j)%nat by lia.
      destruct (Hfull (S j) ltac:(simpl; lia)) as (H1 & H2 & H3).
      rewrite Hc2, Hc1. auto.
    + rewrite He2, <- (offset_shift pos), Hc2, Hc1.
      replace (S k + length rest)%nat with (k + length (p :: rest))%nat
        by (simpl; lia).
      exact Hlast.
    + rewrite He2, <- (offset_shift pos).
      replace (S k + length rest)%nat with (k + length (p :: rest))%nat
        by (simpl; lia).
      exact Hstop.
    + simpl in Hfuel. lia.
    + rewrite He2, <- (offset_shift pos) in Hi'. rewrite He2 in Hr'.
      replace (S k + length rest)%nat with (k + length (p :: rest))%nat
        in Hi' by (simpl; lia).
      exists s', (tr ++ Spec.absorb_effects (Some p) s1 ++ tr').
      repeat split.
      * rewrite E', He2. simpl concat. rewrite <- !app_assoc. reflexivity.
      * rewrite He', He2. simpl concat. rewrite <- !app_assoc. reflexivity.
      * congruence.
      * exact Hi'.
      * rewrite Ht', Ht2, Ht1, <- !app_assoc. reflexivity.
      * autorewrite with trace. rewrite Hr1, Hr'.
        change (seq 0 (S (length (p :: rest))))
          with (0%nat :: seq 1 (S (length rest))).
        rewrite <- seq_shift.
        cbn [flat_map Spec.offset Spec.requests Spec.absorb_effects app].
        rewrite Nat.add_0_r. f_equal.
        rewrite (flat_map_concat_map _ (map S _)), map_map.
        rewrite <- flat_map_concat_map.
        apply flat_map_ext. intros j.
        rewrite <- (offset_shift pos).
        replace (S k + j)%nat with (k + S j)%nat by lia. reflexivity.
      * autorewrite with trace. rewrite !filter_app, Hx'.
        rewrite (executor_events_no_error _ Hev1). reflexivity.
Qed.

End Paging.

(** A listing made of full pages and a last page that is short or during
    which [cancel()] is called. *)
Lemma listing_run :
  forall (w : World) (s : Service) (fromDate toDate from_iso to_iso : string)
         (full : list (list Envelope)) (last : option (list Envelope))
         (tries : nat -> nat) (fuel : nat),
    isCancelled s = false ->
    toISOString w fromDate = Some from_iso ->
    toISOString w toDate = Some to_iso ->
    Spec.full_pages w s full tries ->
    let n := length full in
    let lastFn := listReply w n (Spec.offset 0 (envelopes s) full n) in
    Spec.resolves_after (config s) lastFn (tries n) last ->
    Discovery.length_or_zero last <> 100
    \/ Spec.disturbed lastFn (tries n) = true ->
    (S n < fuel)%nat ->
    exists s' tr,
      Discovery.getEnvelopesWebApi fuel w fromDate toDate s
      = Some (s', Ok (envelopes s ++ concat full ++ Spec.records last))
      /\ envelopes s' = envelopes s ++ concat full ++ Spec.records last
      /\ isCancelled s' = Spec.disturbed lastFn (tries n)
      /\ trace s' = trace s ++ tr
      /\ Spec.requests tr
         = Spec.page_requests from_iso to_iso s full tries (S n)
      /\ filter Spec.is_error (Spec.events tr) = [].
Proof.
  intros w s fromDate toDate from_iso to_iso full last tries fuel
         Hc Hf Ht Hfull n lastFn Hlast Hstop Hfuel.
  unfold Discovery.getEnvelopesWebApi. rewrite Hc, Hf, Ht.
  destruct (paging_run w from_iso to_iso full last tries 0 0
              (Service.emit (searchStarted fromDate toDate) s) fuel)
    as (s' & tr & E & He & _ & Hi & Htr & Hr & Hx); auto.
  exists s', (Emit (searchStarted fromDate toDate) :: tr).
  repeat split; auto.
  rewrite Htr. simpl. rewrite <- app_assoc. reflexivity.
Qed.

(** C4.  With page size 100, the listing asks for the next page exactly
    after a full page while nobody has cancelled: after the full pages
    [full] and one page [last] that does not hold exactly 100 records it
    has made [length full + 1] page calls and no other, each at the
    offset equal to the number of records accumulated so far, and it
    returns the records present before followed by the pages in request
    order. *)
Theorem paging_stops_at_short_page :
  forall (w : World) (s : Service) (fromDate toDate from_iso to_iso : string)
         (full : list (list Envelope)) (last : option (list Envelope))
         (tries : nat -> nat) (fuel : nat),
    isCancelled s = false ->
    toISOString w fromDate = Some from_iso ->
    toISOString w toDate = Some to_iso ->
    Spec.full_pages w s full tries ->
    let n := length full in
    let lastFn := listReply w n (Spec.offset 0 (envelopes s) full n) in
    Spec.resolves_after (config s) lastFn (tries n) last ->
    Spec.disturbed lastFn (tries n) = false ->
    Discovery.length_or_zero last <> 100 ->
    (S n < fuel)%nat ->
    exists s' tr,
      Discovery.getEnvelopesWebApi fuel w fromDate toDate s
      = Some (s', Ok (envelopes s ++ concat full ++ Spec.records last))
      /\ envelopes s' = envelopes s ++ concat full ++ Spec.records last
      /\ isCancelled s' = false
      /\ trace s' = trace s ++ tr
      /\ Spec.requests tr
         = Spec.page_requests from_iso to_iso s full tries (S n).
Proof.
  intros w s fromDate toDate from_iso to_iso full last tries fuel
         Hc Hf Ht Hfull n lastFn Hlast Hund Hshort Hfuel.
  destruct (listing_run w s fromDate toDate from_iso to_iso full last tries
              fuel Hc Hf Ht Hfull Hlast (or_introl Hshort) Hfuel)
    as (s' & tr & E & He & Hi & Htr & Hr & _).
  exists s', tr. fold n lastFn in Hi. rewrite Hund in Hi. auto.
Qed.

(** ** The executor and its control flow *)

Section Verdict.
Import Service.
Context {T : Type}.
Variable req : Request.
Variable requestFn : Z -> Reply T.

Lemma retry_settles :
  forall (fuel : nat) (a : Z) (s s' : Service) (r : result Thrown T),
    retry fuel req requestFn a s = Some (s', r) ->
    Spec.settles_with (config s) requestFn a r.
Proof.
  induction fuel as [|fuel IH]; intros a s s' r H; [discriminate|].
  simpl in H.
  destruct (settled_frame req requestFn a s) as (Hc & _).
  unfold Spec.settled in Hc.
  destruct (outcome (requestFn a)) as [v|[st dm msg|msg|shown]] eqn:Ho.
  - inversion H. subst. apply Spec.settles_resolved. exact Ho.
  - destruct (is_status st 401) eqn:H401.
    + inversion H. subst.
      eapply Spec.settles_unauthorized; eassumption.
    + destruct (retryable st) eqn:Hr.
      * rewrite Hc in H.
        destruct (le_spec (inject_Z a) (retryAttempts (config s)))
          as [Hle|Hlt].
        -- apply IH in H. cbn [config setTimeout elapse emit record] in H.
           rewrite Hc in H.
           eapply Spec.settles_retried; eassumption.
        -- inversion H. subst. apply Qnot_le_lt in Hlt.
           eapply Spec.settles_propagated; eauto.
      * inversion H. subst.
        eapply Spec.settles_propagated; eauto.
  - inversion H. subst. apply Spec.settles_other_error. exact Ho.
  - inversion H. subst. apply Spec.settles_non_error. exact Ho.
Qed.

(** With fuel for the attempts that are left, the executor returns. *)
Lemma retry_total :
  forall (fuel : nat) (a : Z) (s : Service),
    (Z.to_nat (ceiling (config s) + 1 - a) < fuel)%nat ->
    exists s' r, retry fuel req requestFn a s = Some (s', r).
Proof.
  induction fuel as [|fuel IH]; intros a s Hfuel; [lia|].
  simpl.
  destruct (settled_frame req requestFn a s) as (Hc & _).
  unfold Spec.settled in Hc.
  destruct (outcome (requestFn a)) as [v|[st dm msg|msg|shown]]; eauto.
  destruct (is_status st 401); eauto.
  destruct (retryable st); eauto.
  rewrite Hc.
  destruct (le_spec (inject_Z a) (retryAttempts (config s))) as [Hle|];
    eauto.
  apply IH. cbn [config setTimeout elapse emit record]. rewrite Hc.
  apply le_floor in Hle. unfold ceiling in *. lia.
Qed.

Lemma settles_deterministic (c : DocusignConfig) :
  forall (a : Z) (r1 r2 : result Thrown T),
    Spec.settles_with c requestFn a r1 ->
    Spec.settles_with c requestFn a r2 ->
    r1 = r2.
Proof.
  intros a r1 r2 H1. revert r2.
  induction H1 as [a v Ho | a st dm msg Ho H401
                  | a st dm msg r Ho H401 Hr Hle _ IH
                  | a st dm msg Ho H401 Hcase
                  | a msg Ho | a shown Ho];
    intros r2 H2; inversion H2; subst;
    try (rewrite Ho in *; congruence);
    try match goal with
        | H : outcome (requestFn a) = _ |- _ =>
            rewrite Ho in H; inversion H; subst
        end;
    try congruence; try reflexivity;
    try (apply IH; assumption);
    try match goal with
        | H : _ \/ _ |- _ =>
            destruct H;
            [congruence | exfalso; eapply Qlt_not_le; eassumption]
        end.
Qed.

End Verdict.

(** Every logical call ends: it returns a value or throws one error. *)
Lemma executor_returns {T} (req : Request) (requestFn : Z -> Reply T)
    (s : Service) :
  exists s' r, Service._retryableRequest req requestFn s = Some (s', r).
Proof.
  apply retry_total. unfold Service.attempts_fuel. lia.
Qed.

Lemma request_ok_settles {T} (requestFn : Z -> Reply T)
    (c : DocusignConfig) (r : result Thrown T) :
  Spec.settles_with c requestFn 1 r ->
  Spec.request_ok c requestFn
  = match r with Ok _ => true | Err _ => false end.
Proof.
  intros H. unfold Spec.request_ok, Service._retryableRequest.
  destruct (retry_total (CombinedDocument EmptyString) requestFn
              (Service.attempts_fuel (config (Service.new c 0))) 1
              (Service.new c 0)) as (s' & r' & E).
  { unfold Service.attempts_fuel. simpl. lia. }
  rewrite E. apply retry_settles in E. simpl in E.
  rewrite (settles_deterministic requestFn c 1 r r' H E).
  destruct r'; reflexivity.
Qed.

(** [request_ok] tells what the executor returns on these replies, in
    whatever state and for whatever request it is run. *)
Lemma request_ok_any_state {T} (req : Request) (requestFn : Z -> Reply T)
    (s s' : Service) (r : result Thrown T) :
  Service._retryableRequest req requestFn s = Some (s', r) ->
  Spec.request_ok (config s) requestFn
  = match r with Ok _ => true | Err _ => false end.
Proof.
  intros H. apply request_ok_settles.
  exact (retry_settles req requestFn _ 1 s s' r H).
Qed.

(** ** Concurrent downloader: one wake-up *)

Lemma started_app (a b : list Effect) :
  Spec.started (a ++ b) = Spec.started a ++ Spec.started b.
Proof. apply flat_map_app. Qed.

Lemma outcomes_app (a b : list Effect) :
  Spec.outcomes (a ++ b) = Spec.outcomes a ++ Spec.outcomes b.
Proof. apply flat_map_app. Qed.

Lemma successes_app (a b : list (string * bool)) :
  Spec.successes (a ++ b) = (Spec.successes a + Spec.successes b)%nat.
Proof. unfold Spec.successes. rewrite filter_app, length_app. reflexivity. Qed.

#[local] Hint Rewrite started_app outcomes_app successes_app : trace.

Lemma advances_refl (d : Download.State) : Spec.advances d d [].
Proof.
  unfold Spec.advances. rewrite app_nil_r. simpl.
  repeat split; auto.
Qed.

Lemma advances_trans (d1 d2 d3 : Download.State) (tr1 tr2 : list Effect) :
  Spec.advances d1 d2 tr1 -> Spec.advances d2 d3 tr2 ->
  Spec.advances d1 d3 (tr1 ++ tr2).
Proof.
  intros (Hc1 & He1 & Hi1 & Ht1 & Hn1) (Hc2 & He2 & Hi2 & Ht2 & Hn2).
  unfold Spec.advances. repeat split.
  - congruence.
  - congruence.
  - auto.
  - rewrite Ht2, Ht1, app_assoc. reflexivity.
  - rewrite Hn2, Hn1. autorewrite with trace. lia.
Qed.

(** Effects that only touch the trace, with nothing to count. *)
Lemma advances_record (d : Download.State) (e : Effect) :
  Spec.successes (Spec.outcomes [e]) = 0%nat ->
  Spec.advances d (Download.lift (Service.record e) d) [e].
Proof.
  intros H. unfold Spec.advances, Download.lift, Service.record.
  cbn [Download.svc Download.downloadedCount config envelopes isCancelled
       trace].
  rewrite H, Nat.add_0_r. repeat split; auto.
Qed.

Lemma advances_clock (d : Download.State) (f : Service -> Service) :
  (forall s, config (f s) = config s /\ envelopes (f s) = envelopes s
             /\ isCancelled (f s) = isCancelled s /\ trace (f s) = trace s) ->
  Spec.advances d (Download.lift f d) [].
Proof.
  intros H. destruct (H (Download.svc d)) as (Hc & He & Hi & Ht).
  unfold Spec.advances. simpl. rewrite Hc, He, Hi, Ht, app_nil_r.
  repeat split; auto.
Qed.

Lemma advances_stamp (d : Download.State) :
  Spec.advances d (Download.lift Download.stamp d) [].
Proof. apply advances_clock. intros s. repeat split. Qed.

Lemma advances_set_now (d : Download.State) (t : Q) :
  Spec.advances d (Download.lift (Download.set_now t) d) [].
Proof. apply advances_clock. intros s. repeat split. Qed.

Lemma advances_interrupt (d : Download.State) (b : bool) :
  Spec.advances d (Download.lift (Service.interrupt b) d)
    (if b then [Emit cancelled] else []).
Proof.
  destruct b; unfold Spec.advances; simpl;
    rewrite ?app_nil_r; repeat split; auto.
Qed.

Section WakeUp.
Import Service Download.
Variable w : World.
Variable c : DocusignConfig.

Lemma failing_outcome (t : Task) (e : Thrown) :
  Spec.settles_with c (docReply w (index t)) 1 (Err e) ->
  Spec.expected_outcome w c t = (id t, false).
Proof.
  intros H. unfold Spec.expected_outcome, Spec.succeeds.
  rewrite (request_ok_settles _ _ _ H). reflexivity.
Qed.

Lemma writing_outcome (t : Task) :
  Spec.settles_with c (docReply w (index t)) 1 (Ok tt) ->
  Spec.expected_outcome w c t
  = (id t, Spec.resolved (writeReply w (index t))).
Proof.
  intros H. unfold Spec.expected_outcome, Spec.succeeds.
  rewrite (request_ok_settles _ _ _ H). reflexivity.
Qed.

Ltac frame :=
  unfold Spec.advances; simpl; rewrite ?app_nil_r, ?Nat.add_0_r;
  repeat split; auto.

Lemma interrupt_effects_quiet (b : bool) :
  Spec.started (if b then [Emit cancelled] else []) = []
  /\ Spec.outcomes (if b then [Emit cancelled] else []) = [].
Proof. destruct b; split; reflexivity. Qed.

(** The [catch] block ends a download with the outcome it must have. *)
Lemma failed_step (p : Suspended) (t : Task) (e : Thrown) (d d1 : State)
    (tr0 : list Effect) :
  Spec.task_of p = t ->
  Spec.advances d d1 tr0 ->
  Spec.started tr0 = [] ->
  Spec.outcomes tr0 = [] ->
  Spec.settles_with c (docReply w (index t)) 1 (Err e) ->
  Spec.wake_up_ok w c p d (failed t e d1) None
    (tr0 ++ [Emit (downloadError (id t) (describe e))]).
Proof.
  intros Ht Ha Hs Ho He. unfold Spec.wake_up_ok. split; [|split].
  - eapply advances_trans; [exact Ha|]. unfold failed.
    apply advances_record. reflexivity.
  - autorewrite with trace. rewrite Hs. reflexivity.
  - autorewrite with trace. rewrite Ho, Ht, (failing_outcome t e He).
    reflexivity.
Qed.

Lemma resume_step (p : Suspended) (d : State) :
  config (svc d) = c ->
  Spec.on_track w c p ->
  exists tr,
    Spec.wake_up_ok w c p d (fst (resume w p d)) (snd (resume w p d)) tr.
Proof.
  intros Hc Hp. destruct p as [t a|t a|t a|t a|t].
  - (* the pacing timer fired *)
    exists [Dispatch (now (svc d)) (CombinedDocument (id t))].
    unfold resume, dispatch, Spec.wake_up_ok. cbn [fst snd].
    split; [frame|]. split; [reflexivity|].
    repeat split; auto. unfold Spec.steps. lia.
  - exists [Dispatch (now (svc d)) (CombinedDocument (id t))].
    unfold resume, dispatch, Spec.wake_up_ok. cbn [fst snd].
    split; [frame|]. split; [reflexivity|].
    repeat split; auto. unfold Spec.steps. lia.
  - (* the reply arrived *)
    unfold resume.
    set (r := docReply w (index t) a).
    pose proof (advances_interrupt d (interrupted r)) as Hi.
    destruct (interrupt_effects_quiet (interrupted r)) as [Hqs Hqo].
    set (tr0 := if interrupted r then [Emit cancelled] else []) in *.
    set (d1 := lift (interrupt (interrupted r)) d) in *.
    assert (Hc1 : config (svc d1) = c).
    { destruct Hi as (H & _). rewrite H. exact Hc. }
    cbn [Spec.on_track Spec.task_of] in Hp.
    destruct (outcome r) as [v|[st dm msg|msg|shown]] eqn:Ho.
    + exists tr0. unfold Spec.wake_up_ok. cbn [fst snd].
      split; [exact Hi|]. split; [exact Hqs|].
      repeat split; auto.
      * unfold Spec.steps. lia.
      * cbn [Spec.on_track Spec.task_of]. apply Hp. destruct v.
        apply Spec.settles_resolved. exact Ho.
    + destruct (is_status st 401) eqn:H401.
      * exists ((tr0 ++ [Emit tokenExpired])
                ++ [Emit (downloadError (id t) (describe TokenExpired))]).
        cbn [fst snd]. apply failed_step; auto.
        -- eapply advances_trans; [exact Hi|].
           apply advances_record. reflexivity.
        -- autorewrite with trace. rewrite Hqs. reflexivity.
        -- autorewrite with trace. rewrite Hqo. reflexivity.
        -- apply Hp. eapply Spec.settles_unauthorized; eassumption.
      * assert (Hprop :
          Spec.settles_with c (docReply w (index t)) 1
            (Err (ApiError (Js.or_str dm msg) st)) ->
          exists tr,
            Spec.wake_up_ok w c (InFlight t a) d
              (failed t (ApiError (Js.or_str dm msg) st) d1) None tr).
        { intros Hs.
          exists (tr0 ++ [Emit (downloadError (id t)
                                (describe (ApiError (Js.or_str dm msg) st)))]).
          apply failed_step; auto. }
        destruct (retryable st) eqn:Hr.
        -- rewrite Hc1.
           destruct (le_spec (inject_Z a) (retryAttempts c)) as [Hle|Hlt];
             [pose proof (proj1 (le_floor _ _) Hle) as Hle'
             |apply Qnot_le_lt in Hlt].
           ++ exists (tr0 ++ [Emit (retrying a (backoffDelay c a) msg);
                              Timeout Backoff (backoffDelay c a)]).
              unfold Spec.wake_up_ok. cbn [fst snd].
              split; [|split].
              ** eapply advances_trans; [exact Hi|]. frame.
                 rewrite <- app_assoc. reflexivity.
              ** autorewrite with trace. rewrite Hqs. reflexivity.
              ** autorewrite with trace. rewrite Hqo.
                 repeat split; auto.
                 --- unfold Spec.steps, ceiling in *. lia.
                 --- cbn [Spec.on_track Spec.task_of]. intros r0 Hr0.
                     apply Hp. eapply Spec.settles_retried; eassumption.
           ++ cbn [fst snd]. apply Hprop.
              apply Hp. eapply Spec.settles_propagated; eauto.
        -- cbn [fst snd]. apply Hprop.
           apply Hp. eapply Spec.settles_propagated; eauto.
    + exists (tr0 ++ [Emit (downloadError (id t)
                              (describe (Rethrown (OtherError msg))))]).
      cbn [fst snd]. apply failed_step; auto.
      apply Hp. apply Spec.settles_other_error. exact Ho.
    + exists (tr0 ++ [Emit (downloadError (id t)
                              (describe (Rethrown (NonError shown))))]).
      cbn [fst snd]. apply failed_step; auto.
      apply Hp. apply Spec.settles_non_error. exact Ho.
  - (* the backoff timer fired *)
    unfold resume, enter. cbn [Spec.on_track Spec.task_of] in Hp.
    destruct (pacingWait (svc d)) as [ms|].
    + exists [Timeout Pacing ms]. unfold Spec.wake_up_ok. cbn [fst snd].
      split; [frame|]. split; [reflexivity|].
      repeat split; auto. unfold Spec.steps. lia.
    + exists [Dispatch (now (svc d)) (CombinedDocument (id t))].
      unfold dispatch, Spec.wake_up_ok. cbn [fst snd].
      split; [frame|]. split; [reflexivity|].
      repeat split; auto. unfold Spec.steps. lia.
  - (* the write ended *)
    unfold resume.
    set (r := writeReply w (index t)).
    pose proof (advances_interrupt d (interrupted r)) as Hi.
    destruct (interrupt_effects_quiet (interrupted r)) as [Hqs Hqo].
    set (tr0 := if interrupted r then [Emit cancelled] else []) in *.
    set (d1 := lift (interrupt (interrupted r)) d) in *.
    cbn [Spec.on_track Spec.task_of] in Hp.
    pose proof (writing_outcome t Hp) as Hw. unfold Spec.resolved in Hw.
    fold r in Hw.
    destruct (outcome r) as [v|e] eqn:Ho.
    + exists (tr0 ++ [Emit (downloadComplete (id t) (S (downloadedCount d1))
                              (length (envelopes (svc d1))))]).
      unfold Spec.wake_up_ok. cbn [fst snd]. split; [|split].
      * eapply advances_trans; [exact Hi|]. unfold completed.
        unfold Spec.advances. simpl. repeat split; auto.
        unfold Spec.successes. simpl. lia.
      * autorewrite with trace. rewrite Hqs. reflexivity.
      * autorewrite with trace. rewrite Hqo.
        cbn [Spec.task_of]. rewrite Hw. reflexivity.
    + exists (tr0 ++ [Emit (downloadError (id t) (describe (Rethrown e)))]).
      cbn [fst snd]. unfold Spec.wake_up_ok. split; [|split].
      * eapply advances_trans; [exact Hi|]. unfold failed.
        apply advances_record. reflexivity.
      * autorewrite with trace. rewrite Hqs. reflexivity.
      * autorewrite with trace. rewrite Hqo.
        cbn [Spec.task_of]. rewrite Hw. reflexivity.
Qed.

End WakeUp.

(** ** Concurrent downloader: the event loop *)

Lemma pick_none (queue : list Download.Entry) :
  Download.pick queue = None -> queue = [].
Proof.
  destruct queue as [|e rest]; [reflexivity|]. simpl.
  destruct (Download.pick rest) as [[e' rest']|]; [|discriminate].
  destruct (Qle_bool (fst e) (fst e')); discriminate.
Qed.

Lemma pick_perm (queue : list Download.Entry) :
  forall e rest,
    Download.pick queue = Some (e, rest) -> Permutation queue (e :: rest).
Proof.
  induction queue as [|x queue IH]; intros e rest H; [discriminate|].
  simpl in H.
  destruct (Download.pick queue) as [[e' rest']|] eqn:E.
  - destruct (Qle_bool (fst x) (fst e')); inversion H; subst.
    + apply Permutation_refl.
    + eapply Permutation_trans; [|apply perm_swap].
      apply perm_skip. apply IH. reflexivity.
  - inversion H. subst. apply pick_none in E. subst. apply Permutation_refl.
Qed.

Lemma total_steps_perm (c : DocusignConfig) (q1 q2 : list Download.Entry) :
  Permutation q1 q2 -> Spec.total_steps c q1 = Spec.total_steps c q2.
Proof.
  unfold Spec.total_steps.
  induction 1; simpl; try lia.
Qed.

Lemma total_steps_app (c : DocusignConfig) (q1 q2 : list Download.Entry) :
  Spec.total_steps c (q1 ++ q2)
  = (Spec.total_steps c q1 + Spec.total_steps c q2)%nat.
Proof.
  unfold Spec.total_steps. rewrite map_app, list_sum_app. reflexivity.
Qed.

Lemma steps_positive (c : DocusignConfig) (p : Download.Suspended) :
  (1 <= Spec.steps c p)%nat.
Proof. destruct p; unfold Spec.steps; lia. Qed.

Section EventLoop.
Import Service Download.
Variable w : World.
Variable c : DocusignConfig.

Lemma settle_empty fuel queue d :
  pick queue = None -> settle fuel w queue d = Some d.
Proof. intros H. destruct fuel; simpl; rewrite H; reflexivity. Qed.

Lemma settle_pick fuel queue d t p rest :
  pick queue = Some ((t, p), rest) ->
  settle (S fuel) w queue d
  = settle fuel w
      (rest ++ opt_list (snd (resume w p (lift (set_now t) d))))
      (fst (resume w p (lift (set_now t) d))).
Proof.
  intros H. simpl. rewrite H.
  destruct (resume w p (lift (set_now t) d)). reflexivity.
Qed.

(** Whatever the order of the wake-ups, the loop ends, and every
    suspended download has then reported its outcome, once. *)
Lemma settle_run :
  forall (fuel : nat) (queue : list Entry) (d : State),
    config (svc d) = c ->
    Forall (fun e => Spec.on_track w c (snd e)) queue ->
    (Spec.total_steps c queue <= fuel)%nat ->
    exists d' tr,
      settle fuel w queue d = Some d'
      /\ Spec.advances d d' tr
      /\ Spec.started tr = []
      /\ Permutation (Spec.outcomes tr) (map (Spec.fate w c) queue).
Proof.
  induction fuel as [|fuel IH]; intros queue d Hc Hq Hfuel;
    destruct (pick queue) as [[[t p] rest]|] eqn:Ep.
  - apply pick_perm in Ep.
    rewrite (total_steps_perm c _ _ Ep) in Hfuel.
    unfold Spec.total_steps in Hfuel. simpl in Hfuel.
    pose proof (steps_positive c p). lia.
  - exists d, []. rewrite (settle_empty _ _ _ Ep).
    apply pick_none in Ep. subst queue.
    split; [reflexivity|]. split; [apply advances_refl|].
    split; [reflexivity | apply Permutation_refl].
  - rewrite (settle_pick _ _ _ _ _ _ Ep).
    apply pick_perm in Ep.
    rewrite (total_steps_perm c _ _ Ep) in Hfuel.
    pose proof (Permutation_Forall Ep Hq) as Hq'.
    inversion Hq' as [|x l Hp Hrest]; subst x l. simpl in Hp.
    destruct (resume_step w c p (lift (set_now t) d) Hc Hp)
      as (tr1 & Ha & Hs & Hnext).
    destruct (resume w p (lift (set_now t) d)) as [d1 next].
    cbn [fst snd] in *.
    assert (Hc1 : config (svc d1) = c).
    { destruct Ha as (H & _). rewrite H. exact Hc. }
    unfold Spec.total_steps in Hfuel. simpl in Hfuel.
    fold (Spec.total_steps c rest) in Hfuel.
    destruct (IH (rest ++ opt_list next) d1 Hc1)
      as (d' & tr' & E & Ha' & Hs' & Hperm).
    + apply Forall_app. split; [exact Hrest|].
      destruct next as [e|]; simpl; [|constructor].
      constructor; [apply Hnext | constructor].
    + rewrite total_steps_app.
      destruct next as [e|].
      * destruct Hnext as (_ & _ & Hlt & _).
        change (Spec.total_steps c (opt_list (Some e)))
          with (Spec.steps c (snd e) + 0)%nat.
        lia.
      * change (Spec.total_steps c (opt_list None)) with 0%nat.
        pose proof (steps_positive c p). lia.
    + exists d', (tr1 ++ tr'). split; [exact E|]. split; [|split].
      * apply (advances_trans d d1 d' tr1 tr'); [|exact Ha'].
        exact (advances_trans d (lift (set_now t) d) d1 [] tr1
                 (advances_set_now d t) Ha).
      * autorewrite with trace. rewrite Hs, Hs'. reflexivity.
      * autorewrite with trace.
        rewrite (Permutation_map (Spec.fate w c) Ep). simpl.
        rewrite map_app in Hperm.
        destruct next as [e|]; simpl in Hperm.
        -- destruct Hnext as (Ho & Htask & _). rewrite Ho. simpl.
           rewrite Hperm. rewrite Permutation_app_comm. simpl.
           unfold Spec.fate at 1 3. simpl. rewrite Htask.
           apply Permutation_refl.
        -- rewrite Hnext, app_nil_r in *. simpl.
           apply perm_skip. exact Hperm.
  - exists d, []. rewrite (settle_empty _ _ _ Ep).
    apply pick_none in Ep. subst queue.
    split; [reflexivity|]. split; [apply advances_refl|].
    split; [reflexivity | apply Permutation_refl].
Qed.

End EventLoop.

(** ** Concurrent downloader: chunks *)

Section Chunks.
Import Service Download.
Variable w : World.
Variable c : DocusignConfig.

Lemma start_step (t : Task) (d : State) :
  exists tr,
    Spec.advances d (fst (start t d)) tr
    /\ Spec.started tr = [id t]
    /\ Spec.outcomes tr = []
    /\ Spec.task_of (snd (snd (start t d))) = t
    /\ Spec.on_track w c (snd (snd (start t d)))
    /\ Spec.steps c (snd (snd (start t d))) = task_fuel c.
Proof.
  unfold start, enter_from_map.
  assert (Hfuel : forall t0, Spec.steps c (PaceTimer t0 1) = task_fuel c).
  { intros t0. unfold Spec.steps, task_fuel.
    replace (ceiling c + 1 - 1) with (ceiling c) by lia.
    reflexivity. }
  destruct (pacingWait (svc (lift (emit (downloadStarted (id t))) d)))
    as [ms|]; cbn [fst snd].
  - exists [Emit (downloadStarted (id t)); Timeout Pacing ms].
    split; [|repeat split; auto;
              first [apply (Hfuel t)
                    | cbn [Spec.on_track Spec.task_of]; auto]].
    unfold Spec.advances. simpl. rewrite Nat.add_0_r, <- app_assoc.
    repeat split; auto.
  - exists [Emit (downloadStarted (id t))].
    split; [|repeat split; auto;
              first [apply (Hfuel t)
                    | cbn [Spec.on_track Spec.task_of]; auto]].
    unfold Spec.advances. simpl. rewrite Nat.add_0_r.
    repeat split; auto.
Qed.

Lemma starts_run :
  forall (chunk : list Envelope) (base : nat) (d : State),
  exists tr,
    Spec.advances d (fst (starts base chunk d)) tr
    /\ Spec.started tr = map envelopeId chunk
    /\ Spec.outcomes tr = []
    /\ map (Spec.fate w c) (snd (starts base chunk d))
       = map (Spec.expected_outcome w c) (Spec.tasks base chunk)
    /\ Forall (fun e => Spec.on_track w c (snd e))
         (snd (starts base chunk d))
    /\ Spec.total_steps c (snd (starts base chunk d))
       = (length chunk * task_fuel c)%nat.
Proof.
  induction chunk as [|e chunk IH]; intros base d.
  - exists []. simpl. repeat split; auto using advances_refl.
    apply advances_refl.
  - simpl starts.
    destruct (start_step {| index := base; envelope := e |} d)
      as (tr1 & Ha1 & Hs1 & Ho1 & Ht1 & Hon1 & Hst1).
    destruct (start {| index := base; envelope := e |} d) as [d1 en].
    cbn [fst snd] in *.
    destruct (IH (S base) d1) as (tr2 & Ha2 & Hs2 & Ho2 & Hf2 & Hon2 & Hst2).
    destruct (starts (S base) chunk d1) as [d2 ens].
    cbn [fst snd] in *.
    exists (tr1 ++ tr2). split; [|split; [|split; [|split; [|split]]]].
    + eapply advances_trans; eassumption.
    + autorewrite with trace. rewrite Hs1, Hs2. reflexivity.
    + autorewrite with trace. rewrite Ho1, Ho2. reflexivity.
    + simpl. rewrite Hf2. unfold Spec.fate at 1. rewrite Ht1. reflexivity.
    + constructor; assumption.
    + unfold Spec.total_steps in *. simpl. rewrite Hst1, Hst2. lia.
Qed.

(** A chunk runs to its end: every download of the chunk is started, in
    order, and every one of them reports its outcome, once. *)
Lemma run_chunk_run (base : nat) (chunk : list Envelope) (d : State) :
  config (svc d) = c ->
  exists d' tr,
    run_chunk w base chunk d = Some d'
    /\ Spec.advances d d' tr
    /\ Spec.started tr = map envelopeId chunk
    /\ Permutation (Spec.outcomes tr)
         (map (Spec.expected_outcome w c) (Spec.tasks base chunk)).
Proof.
  intros Hc. unfold run_chunk.
  destruct (starts_run chunk base d)
    as (tr1 & Ha1 & Hs1 & Ho1 & Hf1 & Hon1 & Hst1).
  destruct (starts base chunk d) as [d1 queue]. cbn [fst snd] in *.
  assert (Hc1 : config (svc d1) = c).
  { destruct Ha1 as (H & _). rewrite H. exact Hc. }
  destruct (settle_run w c (length chunk * task_fuel (config (svc d)))
              queue d1 Hc1 Hon1)
    as (d' & tr2 & E & Ha2 & Hs2 & Hperm).
  { rewrite Hst1, Hc. lia. }
  exists d', (tr1 ++ tr2). split; [exact E|]. split; [|split].
  - eapply advances_trans; eassumption.
  - autorewrite with trace. rewrite Hs1, Hs2, app_nil_r. reflexivity.
  - autorewrite with trace. rewrite Ho1. simpl.
    rewrite Hperm, Hf1. apply Permutation_refl.
Qed.

Lemma each_chunk_cancelled base cs d :
  isCancelled (svc d) = true -> each_chunk w base cs d = Some d.
Proof.
  intros H. destruct cs; simpl; [reflexivity|]. rewrite H. reflexivity.
Qed.

(** The chunks are processed in sequence until one is reached with the
    cancellation flag set. *)
Lemma each_chunk_run :
  forall (cs : list (list Envelope)) (base : nat) (d : State),
    config (svc d) = c ->
    exists d' done skipped segs,
      each_chunk w base cs d = Some d'
      /\ cs = done ++ skipped
      /\ Spec.advances d d' (concat segs)
      /\ Spec.chunks_done w c base done segs
      /\ (isCancelled (svc d') = false -> skipped = []).
Proof.
  induction cs as [|chunk cs IH]; intros base d Hc.
  - exists d, [], [], []. simpl.
    repeat split; auto. apply advances_refl.
  - simpl each_chunk. destruct (isCancelled (svc d)) eqn:Hi.
    + exists d, [], (chunk :: cs), []. simpl.
      split; [reflexivity|]. split; [reflexivity|].
      split; [apply advances_refl|]. split; [exact I|].
      intros H. congruence.
    + destruct (run_chunk_run base chunk d Hc)
        as (d1 & tr & E & Ha & Hs & Hperm).
      rewrite E.
      assert (Hc1 : config (svc d1) = c).
      { destruct Ha as (H & _). rewrite H. exact Hc. }
      destruct (IH (base + length chunk)%nat d1 Hc1)
        as (d' & done & skipped & segs & E' & Hcs & Ha' & Hdone & Hskip).
      exists d', (chunk :: done), skipped, (tr :: segs).
      split; [exact E'|]. split; [simpl; rewrite Hcs; reflexivity|].
      split; [simpl; eapply advances_trans; eassumption|].
      split; [simpl; auto | exact Hskip].
Qed.

End Chunks.

(** ** The partition into chunks *)

Lemma trunc_nonneg (q : Q) : (0 <= q)%Q -> Js.trunc q = Qfloor q.
Proof.
  intros H. unfold Js.trunc. destruct (le_spec 0 q); [reflexivity|].
  contradiction.
Qed.

(** The integer part of a sum, against the integer parts of its terms. *)
Lemma floor_plus (i m : Q) :
  Qfloor i + Qfloor m <= Qfloor (i + m) <= Qfloor i + Qceiling m.
Proof.
  split.
  - apply (proj1 (le_floor _ _)). rewrite inject_Z_plus.
    apply Qplus_le_compat; apply Qfloor_le.
  - assert (H : Qfloor (i + m) < Qfloor i + 1 + Qceiling m); [|lia].
    apply (proj1 (lt_floor _ _)). rewrite !inject_Z_plus.
    apply Qlt_le_trans with (inject_Z (Qfloor i) + inject_Z 1 + m)%Q.
    + apply Qplus_lt_le_compat; [|apply Qle_refl].
      rewrite <- inject_Z_plus. apply Qlt_floor.
    + apply Qplus_le_compat; [apply Qle_refl | apply Qle_ceiling].
Qed.

Lemma floor_ceiling (m : Q) : Qfloor m <= Qceiling m.
Proof.
  rewrite Zle_Qle. apply Qle_trans with m; [apply Qfloor_le|].
  apply Qle_ceiling.
Qed.

Lemma slices_nonempty {A} (fuel : nat) (xs : list A) (m i : Q) :
  Download.slices fuel xs m i <> [] -> Qfloor i < Z.of_nat (length xs).
Proof.
  destruct fuel as [|fuel]; simpl; [congruence|].
  destruct (lt_spec i (inject_Z (Z.of_nat (length xs)))) as [H|H];
    [|congruence].
  intros _. apply (proj1 (lt_floor _ _)). exact H.
Qed.

(** From a position [i] on, the loop cuts what is left of the list into
    consecutive chunks whose sizes are the integer part of the bound or
    one more. *)
Lemma slices_spec {A} (xs : list A) (m : Q) :
  (1 <= m)%Q ->
  forall (fuel : nat) (i : Q),
    (0 <= i)%Q ->
    (length xs - Z.to_nat (Qfloor i) <= fuel)%nat ->
    concat (Download.slices fuel xs m i) = skipn (Z.to_nat (Qfloor i)) xs
    /\ Spec.cut (Z.to_nat (Qfloor m)) (Z.to_nat (Qceiling m))
         (Download.slices fuel xs m i).
Proof.
  intros Hm.
  assert (Hfm : 1 <= Qfloor m) by (apply (proj1 (le_floor 1 m)); exact Hm).
  pose proof (floor_ceiling m) as Hcm.
  induction fuel as [|fuel IH]; intros i Hi Hfuel.
  - pose proof (floor_nonneg i Hi) as Hfi.
    simpl. split; [|left; reflexivity].
    symmetry. apply skipn_all2. lia.
  - pose proof (floor_nonneg i Hi) as Hfi.
    pose proof (floor_plus i m) as [Hlo Hhi].
    assert (Him : (0 <= i + m)%Q).
    { apply Qle_trans with (0 + 1)%Q; [discriminate|].
      apply Qplus_le_compat; assumption. }
    cbn [Download.slices].
    destruct (lt_spec i (inject_Z (Z.of_nat (length xs)))) as [Hlt|Hge].
    + apply lt_floor in Hlt.
      destruct (IH (i + m)%Q Him ltac:(lia)) as [Hcat Hpart].
      set (d := Z.to_nat (Qfloor (i + m) - Qfloor i)).
      assert (Hslice : Js.slice xs i (i + m)
                       = firstn d (skipn (Z.to_nat (Qfloor i)) xs)).
      { unfold Js.slice. rewrite !trunc_nonneg by assumption. reflexivity. }
      rewrite Hslice. split.
      * cbn [concat]. rewrite Hcat.
        replace (Z.to_nat (Qfloor (i + m)))
          with (d + Z.to_nat (Qfloor i))%nat by (unfold d; lia).
        rewrite <- skipn_skipn. apply firstn_skipn.
      * right.
        assert (Hlen : length (firstn d (skipn (Z.to_nat (Qfloor i)) xs))
                       = Nat.min d (length xs - Z.to_nat (Qfloor i))).
        { rewrite length_firstn, length_skipn. reflexivity. }
        destruct Hpart as [Hnil|(front & last & Hcs & Hfront & Hlast)].
        -- exists [], (firstn d (skipn (Z.to_nat (Qfloor i)) xs)).
           rewrite Hnil. split; [reflexivity|]. split; [constructor|].
           rewrite Hlen. unfold d. lia.
        -- exists (firstn d (skipn (Z.to_nat (Qfloor i)) xs) :: front), last.
           rewrite Hcs. split; [reflexivity|]. split; [|exact Hlast].
           constructor; [|exact Hfront].
           assert (Hmore : Qfloor (i + m) < Z.of_nat (length xs)).
           { apply (slices_nonempty fuel xs m). rewrite Hcs.
             destruct front; discriminate. }
           rewrite Hlen. unfold d. lia.
    + apply Qnot_lt_le in Hge. apply le_floor in Hge.
      split; [|left; reflexivity].
      symmetry. apply skipn_all2. lia.
Qed.

Lemma chunks_cut {A} (xs : list A) (m : Q) :
  (1 <= m)%Q ->
  concat (Download.chunks xs m) = xs
  /\ Spec.cut (Z.to_nat (Qfloor m)) (Z.to_nat (Qceiling m))
       (Download.chunks xs m).
Proof.
  intros Hm. unfold Download.chunks.
  destruct (slices_spec xs m Hm (length xs) 0 ltac:(discriminate)
              ltac:(simpl; lia)) as [H1 H2].
  split; [exact H1 | exact H2].
Qed.

(** With a whole number for a bound every chunk but the last has that
    size. *)
Lemma chunks_spec {A} (xs : list A) (m : Q) (z : Z) :
  (1 <= m)%Q ->
  (m == inject_Z z)%Q ->
  concat (Download.chunks xs m) = xs
  /\ Spec.partitioned (Z.to_nat z) (Download.chunks xs m).
Proof.
  intros Hm Hz. destruct (chunks_cut xs m Hm) as [Hcat Hcut].
  split; [exact Hcat|].
  assert (Hf : Qfloor m = z).
  { rewrite (Qfloor_comp _ _ Hz). apply Qfloor_Z. }
  assert (Hc : Qceiling m = z).
  { rewrite (Qceiling_comp _ _ Hz). apply Qceiling_Z. }
  rewrite Hf, Hc in Hcut.
  destruct Hcut as [Hnil|(front & last & Hcs & Hfront & Hlast)];
    [left; exact Hnil|].
  right. exists front, last. split; [exact Hcs|]. split; [|exact Hlast].
  eapply Forall_impl; [|exact Hfront]. cbv beta. intros chunk H. lia.
Qed.
(** ** Concurrent downloader: the batch *)

Lemma tasks_app (base : nat) (c1 c2 : list Envelope) :
  Spec.tasks base (c1 ++ c2)
  = Spec.tasks base c1 ++ Spec.tasks (base + length c1) c2.
Proof.
  revert base. induction c1 as [|e c1 IH]; intros base; simpl.
  - rewrite Nat.add_0_r. reflexivity.
  - rewrite IH. do 3 f_equal. lia.
Qed.

(** Put together, the segments report the outcomes of all the downloads of
    the processed chunks. *)
Lemma chunks_done_outcomes (w : World) (c : DocusignConfig) :
  forall (done : list (list Envelope)) (segs : list (list Effect))
         (base : nat),
    Spec.chunks_done w c base done segs ->
    Permutation (Spec.outcomes (concat segs))
      (map (Spec.expected_outcome w c) (Spec.tasks base (concat done))).
Proof.
  induction done as [|chunk done IH]; intros [|seg segs] base H;
    simpl in H; try contradiction.
  - apply Permutation_refl.
  - destruct H as (_ & Hperm & Hrest).
    simpl. autorewrite with trace. rewrite tasks_app, map_app.
    apply Permutation_app; [exact Hperm | apply IH; exact Hrest].
Qed.

Lemma successes_perm (o1 o2 : list (string * bool)) :
  Permutation o1 o2 -> Spec.successes o1 = Spec.successes o2.
Proof.
  intros H. unfold Spec.successes.
  induction H as [|x l l' _ IH|x y l|l l' l'' _ IH1 _ IH2]; simpl.
  - reflexivity.
  - destruct (snd x); simpl; congruence.
  - destruct (snd x), (snd y); reflexivity.
  - congruence.
Qed.

Lemma successes_expected (w : World) (c : DocusignConfig)
    (ts : list Download.Task) :
  Spec.successes (map (Spec.expected_outcome w c) ts)
  = length (filter (fun t => Spec.succeeds w c (Download.index t)) ts).
Proof.
  unfold Spec.successes.
  induction ts as [|t ts IH]; simpl; [reflexivity|].
  destruct (Spec.succeeds w c (Download.index t)); simpl; congruence.
Qed.

(** While nobody calls [cancel()], the flag stays as it is. *)
Section Undisturbed.
Import Service Download.
Variable w : World.
Hypothesis Hw : Spec.undisturbed w.

Lemma resume_undisturbed (p : Suspended) (d : State) :
  isCancelled (svc (fst (resume w p d))) = isCancelled (svc d).
Proof.
  destruct Hw as (_ & Hdoc & Hwrite).
  destruct p as [t a|t a|t a|t a|t]; unfold resume, enter, dispatch.
  - reflexivity.
  - reflexivity.
  - rewrite Hdoc. cbn [interrupt].
    destruct (outcome (docReply w (index t) a)) as [v|[st dm msg|msg|shown]];
      try reflexivity.
    destruct (is_status st 401); [reflexivity|].
    destruct (retryable st); [|reflexivity].
    destruct (Qle_bool _ _); reflexivity.
  - destruct (pacingWait (svc d)); reflexivity.
  - rewrite Hwrite. cbn [interrupt].
    destruct (outcome (writeReply w (index t))); reflexivity.
Qed.

Lemma starts_flag (chunk : list Envelope) :
  forall (base : nat) (d : State),
    isCancelled (svc (fst (starts base chunk d))) = isCancelled (svc d).
Proof.
  induction chunk as [|e chunk IH]; intros base d; [reflexivity|].
  cbn [starts].
  destruct (start {| index := base; envelope := e |} d) as [d1 en] eqn:E1.
  specialize (IH (S base) d1).
  destruct (starts (S base) chunk d1) as [d2 ens]. cbn [fst] in *.
  rewrite IH.
  unfold start, enter_from_map in E1.
  destruct (pacingWait _); inversion E1; reflexivity.
Qed.

Lemma settle_undisturbed :
  forall (fuel : nat) (queue : list Entry) (d d' : State),
    settle fuel w queue d = Some d' ->
    isCancelled (svc d') = isCancelled (svc d).
Proof.
  induction fuel as [|fuel IH]; intros queue d d' H;
    destruct (pick queue) as [[[t p] rest]|] eqn:Ep.
  - simpl in H. rewrite Ep in H. discriminate.
  - simpl in H. rewrite Ep in H. inversion H. reflexivity.
  - simpl in H. rewrite Ep in H.
    pose proof (resume_undisturbed p (lift (set_now t) d)) as Hr.
    destruct (resume w p (lift (set_now t) d)) as [d1 next].
    rewrite (IH _ _ _ H). exact Hr.
  - simpl in H. rewrite Ep in H. inversion H. reflexivity.
Qed.

Lemma each_chunk_undisturbed :
  forall (cs : list (list Envelope)) (base : nat) (d d' : State),
    each_chunk w base cs d = Some d' ->
    isCancelled (svc d') = isCancelled (svc d).
Proof.
  induction cs as [|chunk cs IH]; intros base d d' H.
  - inversion H. reflexivity.
  - cbn [each_chunk] in H. destruct (isCancelled (svc d)) eqn:Hi.
    + inversion H. subst. exact Hi.
    + destruct (run_chunk w base chunk d) as [d1|] eqn:E; [|discriminate].
      rewrite (IH _ _ _ H). unfold run_chunk in E.
      pose proof (starts_flag chunk base d) as Hs.
      destruct (starts base chunk d) as [d0 queue]. cbn [fst] in Hs.
      rewrite (settle_undisturbed _ _ _ _ E), Hs. exact Hi.
Qed.

End Undisturbed.

(** A batch over a result set that is not empty, started with the
    cancellation flag unset and an output directory that can be made. *)
Lemma download_run (w : World) (s : Service) (v : unit) :
  envelopes s <> [] ->
  isCancelled s = false ->
  outcome (ensureDirReply w) = Resolved v ->
  exists s' done skipped segs,
    Download.downloadDocuments w s = Some (s', Ok tt)
    /\ Download.chunks (envelopes s) (maxConcurrent (config s))
       = done ++ skipped
    /\ Spec.chunks_done w (config s) 0 done segs
    /\ (isCancelled s' = false -> skipped = [])
    /\ (Spec.undisturbed w -> isCancelled s' = false)
    /\ trace s'
       = trace s
         ++ (if interrupted (ensureDirReply w) then [Emit cancelled] else [])
         ++ concat segs
         ++ [Emit (allDownloadsComplete
                     (Spec.successes (Spec.outcomes (concat segs))))].
Proof.
  intros Hne Hc Hdir. unfold Download.downloadDocuments.
  destruct (envelopes s) as [|e es] eqn:He; [congruence|].
  rewrite Hc, Hdir. cbn [length Nat.eqb orb].
  set (s1 := Download.ensureDir w s).
  assert (Hs1 : config s1 = config s /\ envelopes s1 = envelopes s
                /\ trace s1
                   = trace s ++ (if interrupted (ensureDirReply w)
                                 then [Emit cancelled] else [])).
  { unfold s1, Download.ensureDir, Service.interrupt.
    destruct (interrupted (ensureDirReply w)); simpl;
      rewrite ?app_nil_r; auto. }
  destruct Hs1 as (Hc1 & He1 & Ht1).
  destruct (each_chunk_run w (config s)
              (Download.chunks (envelopes s1) (maxConcurrent (config s1)))
              0 {| Download.svc := s1; Download.downloadedCount := 0 |} Hc1)
    as (d' & done & skipped & segs & E & Hcs & Ha & Hdone & Hskip).
  rewrite E. destruct Ha as (_ & _ & _ & Ht & Hn). simpl in Ht, Hn.
  exists (Service.emit (allDownloadsComplete (Download.downloadedCount d'))
            (Download.svc d')), done, skipped, segs.
  split; [reflexivity|].
  split; [|split; [exact Hdone|split; [exact Hskip|split]]].
  - rewrite <- Hcs, He1, Hc1, He. reflexivity.
  - intros Hw. cbn [isCancelled Service.emit Service.record].
    rewrite (each_chunk_undisturbed w Hw _ _ _ _ E). cbn [Download.svc].
    unfold s1, Download.ensureDir. destruct Hw as (Hdir0 & _).
    rewrite Hdir0. exact Hc.
  - rewrite trace_emit, Ht, Ht1, Hn, <- !app_assoc. reflexivity.
Qed.

(** C5 (as amended).  With a whole number for [maxConcurrent] the result
    set is cut into consecutive chunks of that many envelopes, only the
    last possibly smaller (five envelopes and a bound of 2 give sizes 2,
    2, 1); with any bound the chunks are consecutive and hold the
    integer part of the bound or one envelope more.  The chunks are
    processed in sequence: the trace of the batch is the concatenation
    of one segment per processed chunk, in order, and the segment of a
    chunk holds the start of each of its downloads and the outcome of
    each of them, so that no download of a chunk starts before all
    downloads of the chunk before have ended.  Chunks are left out only
    after a cancellation. *)
Theorem chunks_run_in_sequence :
  forall (w : World) (s : Service) (v : unit),
    (1 <= maxConcurrent (config s))%Q ->
    envelopes s <> [] ->
    isCancelled s = false ->
    outcome (ensureDirReply w) = Resolved v ->
    let m := maxConcurrent (config s) in
    let cs := Download.chunks (envelopes s) m in
    concat cs = envelopes s
    /\ (forall z : Z, (m == inject_Z z)%Q -> Spec.partitioned (Z.to_nat z) cs)
    /\ Spec.cut (Z.to_nat (Qfloor m)) (Z.to_nat (Qceiling m)) cs
    /\ (forall xs : list Envelope,
           length xs = 5%nat ->
           map (@length Envelope) (Download.chunks xs 2) = [2; 2; 1]%nat)
    /\ exists s' done skipped segs before n,
         Download.downloadDocuments w s = Some (s', Ok tt)
         /\ cs = done ++ skipped
         /\ (isCancelled s' = false -> skipped = [])
         /\ Spec.chunks_done w (config s) 0 done segs
         /\ trace s'
            = trace s ++ before ++ concat segs
              ++ [Emit (allDownloadsComplete n)]
         /\ Spec.started before = []
         /\ Spec.outcomes before = [].
Proof.
  intros w s v Hm Hne Hc Hdir m cs.
  destruct (chunks_cut (envelopes s) m Hm) as [Hcat Hcut].
  split; [exact Hcat|]. split; [|split; [exact Hcut|split]].
  - intros z Hz. exact (proj2 (chunks_spec (envelopes s) m z Hm Hz)).
  - intros xs Hlen.
    do 5 (destruct xs as [|? xs]; [discriminate|]).
    destruct xs; [reflexivity | discriminate].
  - destruct (download_run w s v Hne Hc Hdir)
      as (s' & done & skipped & segs & E & Hcs & Hdone & Hskip & _ & Ht).
    exists s', done, skipped, segs.
    exists (if interrupted (ensureDirReply w) then [Emit cancelled] else []).
    exists (Spec.successes (Spec.outcomes (concat segs))).
    repeat split; auto; destruct (interrupted (ensureDirReply w));
      reflexivity.
Qed.

Lemma chunks_run_in_sequence_witness :
  map (@length Envelope)
    (Download.chunks (envelopes Spec.sample_batch)
       (maxConcurrent (config Spec.sample_batch))) = [2; 2; 1]%nat
  /\ Spec.partitioned 2
       (Download.chunks (envelopes Spec.sample_batch)
          (maxConcurrent (config Spec.sample_batch))).
Proof.
  destruct (chunks_run_in_sequence
              (Spec.sample_world Spec.nobody Spec.nobody)
              Spec.sample_batch tt) as (_ & Hpart & _ & Hsizes & _).
  - discriminate.
  - discriminate.
  - reflexivity.
  - reflexivity.
  - split; [apply Hsizes; reflexivity | apply (Hpart 2); reflexivity].
Defined.

(** C5 (as stated) fails: the constructor accepts a bound of two and a
    half, and five envelopes are then cut into a chunk of two and a
    chunk of three: the last chunk is the larger one, and three
    downloads are started together. *)
Lemma fractional_bound_gives_uneven_chunks :
  Config.new Spec.no_env Spec.halves = Ok (config Spec.uneven_batch)
  /\ maxConcurrent (config Spec.uneven_batch) = (5 # 2)%Q
  /\ map (@length Envelope)
       (Download.chunks (envelopes Spec.uneven_batch)
          (maxConcurrent (config Spec.uneven_batch))) = [2; 3]%nat
  /\ (forall k : nat,
        ~ Spec.partitioned k
            (Download.chunks (envelopes Spec.uneven_batch)
               (maxConcurrent (config Spec.uneven_batch))))
  /\ exists s',
       Download.downloadDocuments Spec.calm_world Spec.uneven_batch
       = Some (s', Ok tt)
       /\ Spec.events (trace s')
          = [ downloadStarted "A"; downloadStarted "B";
              downloadComplete "A" 1 5; downloadComplete "B" 2 5;
              downloadStarted "C"; downloadStarted "D"; downloadStarted "E";
              downloadComplete "C" 3 5; downloadComplete "D" 4 5;
              downloadComplete "E" 5 5; allDownloadsComplete 5 ].
Proof.
  split; [reflexivity|]. split; [reflexivity|]. split; [reflexivity|].
  split.
  - intros k [H|(front & last & Hcs & Hfront & Hlast)];
      [vm_compute in H; discriminate|].
    vm_compute in Hcs.
    destruct front as [|c1 [|c2 front]].
    + inversion Hcs.
    + inversion Hcs as [[H1 H2]]. subst c1 last.
      inversion Hfront as [|x l Hk _]. simpl in Hk, Hlast. lia.
    + inversion Hcs as [[H1 H2]]. destruct front; discriminate.
  - destruct (Download.downloadDocuments Spec.calm_world Spec.uneven_batch)
      as [[s' r]|] eqn:E; [|vm_compute in E; discriminate].
    vm_compute in E. inversion E. eexists. split; reflexivity.
Qed.

(** C6.  A download that fails (the executor throws, or the write is
    rejected) is reported as failed and nothing else changes: every
    envelope of every processed chunk gets exactly the outcome the world
    determines for it, whatever happens to the others; chunks are left
    out only when the cancellation flag is set, which it is not at the
    end of a batch during which nobody has called [cancel()]; and the
    total notified at the end of the batch is the number of downloads
    that went through. *)
Theorem failures_are_isolated :
  forall (w : World) (s : Service) (v : unit),
    envelopes s <> [] ->
    isCancelled s = false ->
    outcome (ensureDirReply w) = Resolved v ->
    exists s' done skipped segs before,
      Download.downloadDocuments w s = Some (s', Ok tt)
      /\ Download.chunks (envelopes s) (maxConcurrent (config s))
         = done ++ skipped
      /\ (isCancelled s' = false -> skipped = [])
      /\ (Spec.undisturbed w -> isCancelled s' = false)
      /\ Spec.chunks_done w (config s) 0 done segs
      /\ Permutation (Spec.outcomes (concat segs))
           (map (Spec.expected_outcome w (config s))
              (Spec.tasks 0 (concat done)))
      /\ (forall t, In t (Spec.tasks 0 (concat done)) ->
                    Spec.succeeds w (config s) (Download.index t) = false ->
                    In (Download.id t, false) (Spec.outcomes (concat segs)))
      /\ Spec.outcomes before = []
      /\ trace s'
         = trace s ++ before ++ concat segs
           ++ [Emit (allDownloadsComplete
                       (length
                          (filter
                             (fun t => Spec.succeeds w (config s)
                                         (Download.index t))
                             (Spec.tasks 0 (concat done)))))].
Proof.
  intros w s v Hne Hc Hdir.
  destruct (download_run w s v Hne Hc Hdir)
    as (s' & done & skipped & segs & E & Hcs & Hdone & Hskip & Hflag & Ht).
  pose proof (chunks_done_outcomes w (config s) done segs 0 Hdone) as Hperm.
  exists s', done, skipped, segs.
  exists (if interrupted (ensureDirReply w) then [Emit cancelled] else []).
  split; [exact E|]. split; [exact Hcs|]. split; [exact Hskip|].
  split; [exact Hflag|]. split; [exact Hdone|].
  split; [exact Hperm|]. split; [|split].
  - intros t Hin Hfail.
    apply (Permutation_in _ (Permutation_sym Hperm)).
    apply in_map_iff. exists t. split; [|exact Hin].
    unfold Spec.expected_outcome. rewrite Hfail. reflexivity.
  - destruct (interrupted (ensureDirReply w)); reflexivity.
  - rewrite Ht, (successes_perm _ _ Hperm), successes_expected.
    reflexivity.
Qed.

Lemma failures_are_isolated_witness :
  exists s' n,
    Download.downloadDocuments (Spec.sample_world Spec.nobody Spec.nobody)
      Spec.sample_batch = Some (s', Ok tt)
    /\ Spec.outcomes (trace s')
       = [("A", true); ("B", false); ("C", true); ("D", true); ("E", true)]
    /\ In (Emit (allDownloadsComplete n)) (trace s')
    /\ n = 4%nat.
Proof.
  destruct (failures_are_isolated
              (Spec.sample_world Spec.nobody Spec.nobody)
              Spec.sample_batch tt)
    as (s' & done & skipped & segs & before & E & Hcs & Hskip & Hflag & _ & _
        & _ & _ & Ht).
  - discriminate.
  - reflexivity.
  - reflexivity.
  - exists s'.
    assert (Hquiet : Spec.undisturbed
                       (Spec.sample_world Spec.nobody Spec.nobody)).
    { split; [reflexivity|]. split.
      - intros i a. simpl. destruct (i =? 1)%nat; reflexivity.
      - intros i. reflexivity. }
    specialize (Hskip (Hflag Hquiet)). subst skipped.
    rewrite app_nil_r in Hcs. subst done.
    eexists. split; [exact E|]. split; [|split].
    + vm_compute in E. inversion E. reflexivity.
    + rewrite Ht. rewrite !in_app_iff. right. right. right. left. reflexivity.
    + vm_compute. reflexivity.
Defined.

Lemma paging_stops_at_short_page_witness :
  exists s' tr,
    Discovery.getEnvelopesWebApi 5 (Spec.sample_world Spec.nobody Spec.nobody)
      "2024-01-01" "2024-12-31" Spec.sample_service
    = Some (s', Ok (map Spec.sample_envelope (seq 0 103)))
    /\ trace s' = trace Spec.sample_service ++ tr
    /\ Spec.requests tr
       = [ ListEnvelopes "2024-01-01T00:00:00.000Z"
             "2024-12-31T00:00:00.000Z" 0;
           ListEnvelopes "2024-01-01T00:00:00.000Z"
             "2024-12-31T00:00:00.000Z" 0;
           ListEnvelopes "2024-01-01T00:00:00.000Z"
             "2024-12-31T00:00:00.000Z" 100 ].
Proof.
  destruct (paging_stops_at_short_page
              (Spec.sample_world Spec.nobody Spec.nobody) Spec.sample_service
              "2024-01-01" "2024-12-31"
              "2024-01-01T00:00:00.000Z" "2024-12-31T00:00:00.000Z"
              Spec.sample_full Spec.sample_last Spec.sample_tries 5)
    as (s' & tr & E & _ & _ & Ht & Hr).
  - reflexivity.
  - reflexivity.
  - reflexivity.
  - intros j Hj. destruct j as [|j]; [|simpl in Hj; lia].
    split; [reflexivity|]. split; [|reflexivity]. split; [|reflexivity].
    exists (fun _ => 500), (fun _ => "boom"%string). intros i Hi.
    assert (i = 1) by (simpl in Hi; lia). subst i.
    split; [split; [right; lia | exists None; reflexivity] | discriminate].
  - split; [|reflexivity].
    exists (fun _ => 500), (fun _ => "boom"%string). intros i Hi.
    simpl in Hi. lia.
  - reflexivity.
  - vm_compute. discriminate.
  - simpl. lia.
  - exists s', tr. split; [exact E|]. split; [exact Ht | exact Hr].
Defined.

(** ** A download on its own *)

Section Alone.
Import Service Download.
Variable w : World.
Variable t : Task.

Lemma settle_single fuel t0 p d :
  settle (S fuel) w [(t0, p)] d
  = settle fuel w (opt_list (snd (resume w p (lift (set_now t0) d))))
      (fst (resume w p (lift (set_now t0) d))).
Proof. apply (settle_pick w fuel [(t0, p)] d t0 p []). reflexivity. Qed.

Lemma settle_done fuel d : settle fuel w [] d = Some d.
Proof. apply settle_empty. reflexivity. Qed.

Lemma settle_mono :
  forall (n : nat) (queue : list Entry) (d d' : State),
    settle n w queue d = Some d' ->
    forall m, (n <= m)%nat -> settle m w queue d = Some d'.
Proof.
  induction n as [|n IH]; intros queue d d' H m Hm;
    destruct (pick queue) as [[[t0 p] rest]|] eqn:Ep.
  - simpl in H. rewrite Ep in H. discriminate.
  - rewrite (settle_empty w 0 _ _ Ep) in H.
    rewrite (settle_empty w m _ _ Ep). exact H.
  - destruct m as [|m]; [lia|].
    rewrite (settle_pick w n _ _ _ _ _ Ep) in H.
    rewrite (settle_pick w m _ _ _ _ _ Ep).
    apply IH with (m := m) in H; [exact H | lia].
  - rewrite (settle_empty w (S n) _ _ Ep) in H.
    rewrite (settle_empty w m _ _ Ep). exact H.
Qed.

Lemma enter_reaches_in_flight (a : Z) (d : State) :
  exists j, forall k,
    settle (j + k) w [snd (enter w t a d)] (fst (enter w t a d))
    = settle k w [Spec.in_flight_entry w t a d] (Spec.in_flight t d).
Proof.
  unfold enter, Spec.in_flight, Spec.in_flight_entry, _rateLimit.
  destruct (pacingWait (svc d)) as [ms|].
  - exists 1%nat. intros k. cbn [fst snd]. simpl plus.
    rewrite settle_single. reflexivity.
  - exists 0%nat. intros k. reflexivity.
Qed.

Lemma resume_backoff (a : Z) (d : State) :
  resume w (BackoffTimer t a) d
  = (fst (enter w t (a + 1) d), Some (snd (enter w t (a + 1) d))).
Proof. unfold resume. destruct (enter w t (a + 1) d). reflexivity. Qed.

(** The event loop takes a single download through the steps of the
    executor and of the rest of the callback. *)
Lemma enter_agrees :
  forall (fuel : nat) (a : Z) (d : State) (s' : Service)
         (r : result Thrown unit),
    retry fuel (CombinedDocument (id t)) (docReply w (index t)) a (svc d)
    = Some (s', r) ->
    exists n,
      settle n w [snd (enter w t a d)] (fst (enter w t a d))
      = Some (finish w t r
                {| svc := s'; downloadedCount := downloadedCount d |}).
Proof.
  induction fuel as [|fuel IH]; intros a d s' r H; [discriminate|].
  simpl in H.
  destruct (enter_reaches_in_flight a d) as (j & Hj).
  unfold Spec.in_flight, Spec.in_flight_entry in Hj.
  destruct (outcome (docReply w (index t) a))
    as [v|[st dm msg|msg|shown]] eqn:Ho.
  - inversion H; subst s' r. clear H.
    exists (j + 2)%nat. rewrite Hj, settle_single.
    cbv beta iota zeta delta [resume]. rewrite Ho.
    cbn [fst snd opt_list]. rewrite settle_single.
    cbv beta iota zeta delta [resume finish].
    destruct (outcome (writeReply w (index t)));
      cbn [fst snd opt_list]; rewrite settle_done; reflexivity.
  - destruct (settled_frame (CombinedDocument (id t)) (docReply w (index t))
                a (svc d)) as (Hc & _).
    unfold Spec.settled in Hc. rewrite Hc in H.
    set (s2 := invoke (CombinedDocument (id t)) (docReply w (index t) a)
                 (_rateLimit (svc d))) in *.
    destruct (is_status st 401) eqn:H401.
    + inversion H; subst s' r. clear H.
      exists (j + 1)%nat. rewrite Hj, settle_single.
      cbv beta iota zeta delta [resume]. rewrite Ho, H401.
      cbn [fst snd opt_list]. rewrite settle_done. reflexivity.
    + destruct (retryable st) eqn:Hr;
        [destruct (le_spec (inject_Z a) (retryAttempts (config (svc d))))
           as [Hle|Hgt]|].
      * (* within the ceiling: wait and try again *)
        apply (IH (a + 1)
                 {| svc := setTimeout Backoff
                             (backoffDelay (config (svc d)) a)
                             (emit (retrying a (backoffDelay (config (svc d)) a)
                                      msg) s2);
                    downloadedCount := downloadedCount d |}) in H.
        destruct H as (m & Hm).
        exists (j + S (S m))%nat. rewrite Hj, settle_single.
        cbv beta iota zeta delta [resume]. rewrite Ho, H401, Hr.
        match goal with
        | |- context [lift (interrupt ?b) ?D] =>
            change (lift (interrupt b) D)
              with {| svc := s2; downloadedCount := downloadedCount d |}
        end.
        cbn [svc]. rewrite Hc.
        destruct (le_spec (inject_Z a) (retryAttempts (config (svc d))));
          [|contradiction].
        cbn [fst snd opt_list]. rewrite settle_single.
        rewrite resume_backoff. cbn [fst snd opt_list]. exact Hm.
      * inversion H; subst s' r. clear H.
        exists (j + 1)%nat. rewrite Hj, settle_single.
        cbv beta iota zeta delta [resume]. rewrite Ho, H401, Hr.
        match goal with
        | |- context [lift (interrupt ?b) ?D] =>
            change (lift (interrupt b) D)
              with {| svc := s2; downloadedCount := downloadedCount d |}
        end.
        cbn [svc]. rewrite Hc.
        destruct (le_spec (inject_Z a) (retryAttempts (config (svc d))));
          [contradiction|].
        cbn [fst snd opt_list]. rewrite settle_done. reflexivity.
      * inversion H; subst s' r. clear H.
        exists (j + 1)%nat. rewrite Hj, settle_single.
        cbv beta iota zeta delta [resume]. rewrite Ho, H401, Hr.
        cbn [fst snd opt_list]. rewrite settle_done. reflexivity.
  - inversion H; subst s' r. clear H.
    exists (j + 1)%nat. rewrite Hj, settle_single.
    cbv beta iota zeta delta [resume]. rewrite Ho.
    cbn [fst snd opt_list]. rewrite settle_done. reflexivity.
  - inversion H; subst s' r. clear H.
    exists (j + 1)%nat. rewrite Hj, settle_single.
    cbv beta iota zeta delta [resume]. rewrite Ho.
    cbn [fst snd opt_list]. rewrite settle_done. reflexivity.
Qed.

Lemma start_reaches_enter (d : State) :
  exists j, forall k,
    settle (j + k) w [snd (start t d)] (fst (start t d))
    = settle k w
        [snd (enter w t 1 (lift (emit (downloadStarted (id t))) d))]
        (fst (enter w t 1 (lift (emit (downloadStarted (id t))) d))).
Proof.
  unfold start, enter_from_map, enter.
  destruct (pacingWait (svc (lift (emit (downloadStarted (id t))) d))).
  - exists 0%nat. intros k. reflexivity.
  - exists 1%nat. intros k. cbn [fst snd]. simpl plus.
    rewrite settle_single. reflexivity.
Qed.

End Alone.

(** A chunk of one envelope is the callback read from top to bottom: the
    event loop and the sequential executor describe the same download. *)
Lemma single_download_runs_alone (w : World) (base : nat) (e : Envelope)
    (d : Download.State) :
  Download.run_chunk w base [e] d
  = Download.alone w {| Download.index := base; Download.envelope := e |} d.
Proof.
  set (t := {| Download.index := base; Download.envelope := e |}).
  set (d0 := Download.lift (Service.emit (downloadStarted (Download.id t))) d).
  destruct (retry_total (CombinedDocument (Download.id t))
              (docReply w (Download.index t))
              (Service.attempts_fuel (config (Download.svc d0))) 1
              (Download.svc d0)) as (s1 & r & E).
  { unfold Service.attempts_fuel. lia. }
  unfold Download.alone, Service._retryableRequest. fold t d0. rewrite E.
  destruct (enter_agrees w t _ 1 d0 s1 r E) as (n & Hn).
  destruct (start_reaches_enter w t d) as (j & Hj).
  fold d0 in Hj. rewrite <- Hj in Hn.
  destruct (run_chunk_run w (config (Download.svc d)) base [e] d eq_refl)
    as (d' & tr & Hrun & _).
  rewrite Hrun. unfold Download.run_chunk in Hrun.
  change (Download.starts base [e] d)
    with (let '(d1, en) := Download.start t d in (d1, [en])) in Hrun.
  destruct (Download.start t d) as [d1 en] eqn:Es. cbn [fst snd] in Hn.
  set (fuel := (length [e] * Download.task_fuel (config (Download.svc d)))%nat)
    in Hrun.
  pose proof (settle_mono w _ _ _ _ Hrun (fuel + (j + n))%nat ltac:(lia))
    as H1.
  pose proof (settle_mono w _ _ _ _ Hn (fuel + (j + n))%nat ltac:(lia))
    as H2.
  congruence.
Qed.

(** ** Cancellation *)

Lemma retry_keeps_flag {T} (req : Request) (requestFn : Z -> Reply T) :
  forall (fuel : nat) (a : Z) (s s' : Service) (r : result Thrown T),
    Service.retry fuel req requestFn a s = Some (s', r) ->
    isCancelled s = true -> isCancelled s' = true.
Proof.
  induction fuel as [|fuel IH]; intros a s s' r H Hc; [discriminate|].
  simpl in H.
  destruct (settled_frame req requestFn a s) as (_ & _ & Hi & _).
  unfold Spec.settled in Hi. rewrite Hc in Hi. simpl in Hi.
  destruct (outcome (requestFn a)) as [v|[st dm msg|msg|shown]].
  - inversion H. subst. exact Hi.
  - destruct (Service.is_status st 401).
    + inversion H. subst. exact Hi.
    + destruct (Service.retryable st);
        [destruct (Qle_bool _ _)|]; try (inversion H; subst; exact Hi).
      apply IH in H; [exact H | exact Hi].
  - inversion H. subst. exact Hi.
  - inversion H. subst. exact Hi.
Qed.

Lemma paging_keeps_flag fuel w from_date to_date k pos s s' r :
  Discovery.paging fuel w from_date to_date k pos s = Some (s', r) ->
  isCancelled s = true -> isCancelled s' = true.
Proof.
  intros H Hc. destruct fuel as [|fuel]; [discriminate|].
  rewrite (paging_cancelled w from_date to_date fuel k pos s Hc) in H.
  inversion H. subst. exact Hc.
Qed.

Lemma run_chunk_keeps_flag w base chunk d d' :
  Download.run_chunk w base chunk d = Some d' ->
  isCancelled (Download.svc d) = true ->
  isCancelled (Download.svc d') = true.
Proof.
  intros H Hc.
  destruct (run_chunk_run w (config (Download.svc d)) base chunk d eq_refl)
    as (d1 & tr & E & Ha & _).
  rewrite E in H. inversion H. subst.
  destruct Ha as (_ & _ & Hi & _). auto.
Qed.

(** C9 (as amended).  [cancel()] sets the cancellation flag and notifies
    [cancelled]; a second call leaves the flag and everything else of the
    session as the first call left them, and notifies [cancelled] once
    more; no operation of the service clears the flag. *)
Theorem cancel_sets_the_flag_for_good :
  (forall s : Service,
      let once := Service.cancel s in
      let twice := Service.cancel once in
      isCancelled once = true
      /\ trace once = trace s ++ [Emit cancelled]
      /\ isCancelled twice = isCancelled once
      /\ config twice = config once
      /\ envelopes twice = envelopes once
      /\ lastRequestTime twice = lastRequestTime once
      /\ now twice = now once
      /\ trace twice = trace once ++ [Emit cancelled])
  /\ (forall s : Service,
         isCancelled s = true ->
         isCancelled (Service.cancel s) = true
         /\ (forall T fuel req (requestFn : Z -> Reply T) a s' r,
                Service.retry fuel req requestFn a s = Some (s', r) ->
                isCancelled s' = true)
         /\ (forall fuel w fromDate toDate s' r,
                Discovery.getEnvelopesWebApi fuel w fromDate toDate s
                = Some (s', r) ->
                isCancelled s' = true)
         /\ (forall w base chunk n d',
                Download.run_chunk w base chunk
                  {| Download.svc := s; Download.downloadedCount := n |}
                = Some d' ->
                isCancelled (Download.svc d') = true)
         /\ (forall w s' r,
                Download.downloadDocuments w s = Some (s', r) ->
                isCancelled s' = true)).
Proof.
  split.
  - intros s. simpl. repeat split; reflexivity.
  - intros s Hc. split; [reflexivity|]. split; [|split; [|split]].
    + intros T fuel req requestFn a s' r H.
      exact (retry_keeps_flag req requestFn fuel a s s' r H Hc).
    + intros fuel w fromDate toDate s' r H.
      unfold Discovery.getEnvelopesWebApi in H. rewrite Hc in H.
      inversion H. subst. exact Hc.
    + intros w base chunk n d' H.
      exact (run_chunk_keeps_flag w base chunk _ d' H Hc).
    + intros w s' r H. unfold Download.downloadDocuments in H.
      rewrite Hc, orb_true_r in H. inversion H. subst. exact Hc.
Qed.

Lemma cancel_sets_the_flag_for_good_witness :
  isCancelled (Service.cancel Spec.sample_service) = true
  /\ exists s',
      Service.retry 4 Spec.sample_request (Spec.always_fails 503) 1
        (Service.cancel Spec.sample_service)
      = Some (s', Err (ApiError "boom" (Some 503)))
      /\ isCancelled s' = true.
Proof.
  destruct cancel_sets_the_flag_for_good as [H1 H2].
  destruct (H1 Spec.sample_service) as (Hflag & _).
  split; [exact Hflag|].
  destruct (H2 (Service.cancel Spec.sample_service) Hflag)
    as (_ & Hretry & _).
  eexists. split; [vm_compute; reflexivity|].
  eapply (Hretry unit 4%nat Spec.sample_request (Spec.always_fails 503) 1).
  vm_compute. reflexivity.
Defined.

(** C9 (as stated) fails: the second [cancel()] is not a no-op, it emits
    a second [cancelled] notification. *)
Lemma second_cancel_notifies_again :
  Spec.events (trace (Service.cancel Spec.sample_service)) = [cancelled]
  /\ Spec.events (trace (Service.cancel (Service.cancel Spec.sample_service)))
     = [cancelled; cancelled]
  /\ Service.cancel (Service.cancel Spec.sample_service)
     <> Service.cancel Spec.sample_service.
Proof.
  split; [reflexivity|]. split; [reflexivity|].
  intros H. apply (f_equal trace) in H. vm_compute in H. discriminate.
Qed.

(** C8.  [cancel()] called while a page call is in flight stops the
    listing after that page: no further page is requested, no error is
    raised or notified, and the records accumulated so far are returned.
    A chunk that is reached with the flag set does not start, nor does
    any later one; a chunk that was started runs to its end, every one of
    its downloads ending with its outcome, and when [cancel()] was called
    meanwhile the batch goes no further. *)
Theorem cancellation_is_cooperative :
  (forall (w : World) (s : Service)
          (fromDate toDate from_iso to_iso : string)
          (full : list (list Envelope)) (last : option (list Envelope))
          (tries : nat -> nat) (fuel : nat),
      isCancelled s = false ->
      toISOString w fromDate = Some from_iso ->
      toISOString w toDate = Some to_iso ->
      Spec.full_pages w s full tries ->
      let n := length full in
      let lastFn := listReply w n (Spec.offset 0 (envelopes s) full n) in
      Spec.resolves_after (config s) lastFn (tries n) last ->
      Spec.disturbed lastFn (tries n) = true ->
      (S n < fuel)%nat ->
      exists s' tr,
        Discovery.getEnvelopesWebApi fuel w fromDate toDate s
        = Some (s', Ok (envelopes s ++ concat full ++ Spec.records last))
        /\ isCancelled s' = true
        /\ trace s' = trace s ++ tr
        /\ Spec.requests tr
           = Spec.page_requests from_iso to_iso s full tries (S n)
        /\ filter Spec.is_error (Spec.events tr) = [])
  /\ (forall (w : World) (base : nat) (chunk : list Envelope)
             (later : list (list Envelope)) (d : Download.State),
         isCancelled (Download.svc d) = true ->
         Download.each_chunk w base (chunk :: later) d = Some d)
  /\ (forall (w : World) (base : nat) (chunk : list Envelope)
             (later : list (list Envelope)) (d : Download.State),
         isCancelled (Download.svc d) = false ->
         exists d1 tr,
           Download.run_chunk w base chunk d = Some d1
           /\ Spec.advances d d1 tr
           /\ Spec.started tr = map envelopeId chunk
           /\ Permutation (Spec.outcomes tr)
                (map (Spec.expected_outcome w (config (Download.svc d)))
                   (Spec.tasks base chunk))
           /\ (isCancelled (Download.svc d1) = true ->
               Download.each_chunk w base (chunk :: later) d = Some d1)).
Proof.
  split; [|split].
  - intros w s fromDate toDate from_iso to_iso full last tries fuel
           Hc Hf Ht Hfull n lastFn Hlast Hdis Hfuel.
    destruct (listing_run w s fromDate toDate from_iso to_iso full last tries
                fuel Hc Hf Ht Hfull Hlast (or_intror Hdis) Hfuel)
      as (s' & tr & E & He & Hi & Htr & Hr & Hx).
    exists s', tr. fold n lastFn in Hi. rewrite Hdis in Hi. auto.
  - intros w base chunk later d Hc. apply each_chunk_cancelled. exact Hc.
  - intros w base chunk later d Hc.
    destruct (run_chunk_run w (config (Download.svc d)) base chunk d eq_refl)
      as (d1 & tr & E & Ha & Hs & Hperm).
    exists d1, tr. split; [exact E|]. split; [exact Ha|].
    split; [exact Hs|]. split; [exact Hperm|].
    intros Hc1. simpl. rewrite Hc, E.
    apply each_chunk_cancelled. exact Hc1.
Qed.

Lemma cancellation_is_cooperative_witness :
  (exists s' tr,
      Discovery.getEnvelopesWebApi 5
        (Spec.sample_world (Spec.only 0) Spec.nobody)
        "2024-01-01" "2024-12-31" Spec.sample_service
      = Some (s', Ok (map Spec.sample_envelope (seq 0 100)))
      /\ isCancelled s' = true
      /\ trace s' = trace Spec.sample_service ++ tr
      /\ length (Spec.requests tr) = 2%nat)
  /\ (let d := {| Download.svc := Service.cancel Spec.sample_batch;
                  Download.downloadedCount := 0 |} in
      Download.each_chunk (Spec.sample_world Spec.nobody Spec.nobody) 0
        (Download.chunks (envelopes Spec.sample_batch) 2) d = Some d)
  /\ (exists d1,
         Download.each_chunk (Spec.sample_world Spec.nobody (Spec.only 0)) 0
           (Download.chunks (envelopes Spec.sample_batch) 2)
           {| Download.svc := Spec.sample_batch;
              Download.downloadedCount := 0 |} = Some d1
         /\ isCancelled (Download.svc d1) = true
         /\ Spec.started (trace (Download.svc d1)) = ["A"; "B"]%string).
Proof.
  destruct cancellation_is_cooperative as (Hlist & Hskip & Hchunk).
  split; [|split].
  - destruct (Hlist (Spec.sample_world (Spec.only 0) Spec.nobody)
                Spec.sample_service "2024-01-01" "2024-12-31"
                "2024-01-01T00:00:00.000Z" "2024-12-31T00:00:00.000Z"
                [] (Some (map Spec.sample_envelope (seq 0 100)))
                Spec.sample_tries 5%nat)
      as (s' & tr & E & Hi & Ht & Hr & _).
    + reflexivity.
    + reflexivity.
    + reflexivity.
    + intros j Hj. simpl in Hj. lia.
    + split; [|reflexivity].
      exists (fun _ => 500), (fun _ => "boom"%string). intros i Hi.
      assert (i = 1) by (simpl in Hi; lia). subst i.
      split; [split; [right; lia | exists None; reflexivity]|].
      discriminate.
    + reflexivity.
    + simpl. lia.
    + exists s', tr. split; [exact E|]. split; [exact Hi|].
      split; [exact Ht|]. rewrite Hr. reflexivity.
  - apply (Hskip (Spec.sample_world Spec.nobody Spec.nobody) 0%nat
             (map Spec.sample_envelope (seq 0 2))
             [map Spec.sample_envelope (seq 2 2);
              map Spec.sample_envelope (seq 4 1)]).
    reflexivity.
  - destruct (Hchunk (Spec.sample_world Spec.nobody (Spec.only 0)) 0%nat
                (map Spec.sample_envelope (seq 0 2))
                [map Spec.sample_envelope (seq 2 2);
                 map Spec.sample_envelope (seq 4 1)]
                {| Download.svc := Spec.sample_batch;
                   Download.downloadedCount := 0 |} eq_refl)
      as (d1 & tr & E & _ & _ & _ & Hstop).
    vm_compute in E. inversion E as [Hd1]. clear E.
    exists d1. rewrite <- Hd1. split; [|split; reflexivity].
    rewrite Hd1. apply Hstop. rewrite <- Hd1. reflexivity.
Defined.

(** ** Pacing *)

Lemma interval_bounds (s : Service) :
  (1 <= rateLimit (config s))%Q ->
  (0 <= Service.minRequestInterval s)%Q
  /\ (Service.minRequestInterval s <= 1000)%Q.
Proof.
  intros H. unfold Service.minRequestInterval. split.
  - apply Qle_shift_div_l; lra.
  - apply Qle_shift_div_r; lra.
Qed.

(** Run on its own in a session whose clock is not behind the request
    time it remembers, [_rateLimit] returns no earlier than one interval
    after the last recorded request, and records the instant at which it
    returns. *)
Lemma rateLimit_waits_out_the_interval (s : Service) :
  (1 <= rateLimit (config s))%Q ->
  (lastRequestTime s <= now s)%Q ->
  (lastRequestTime s + Service.minRequestInterval s
   <= now (Service._rateLimit s))%Q
  /\ lastRequestTime (Service._rateLimit s) = now (Service._rateLimit s)
  /\ (now s <= now (Service._rateLimit s))%Q.
Proof.
  intros Hr Hl. destruct (interval_bounds s Hr) as [_ Hi].
  unfold Service._rateLimit, Service.pacingWait.
  destruct (lt_spec (now s - lastRequestTime s) (Service.minRequestInterval s))
    as [E|E];
    cbn [now lastRequestTime Service.setTimeout Service.elapse Service.record
         Service.set_lastRequestTime].
  - set (wait := (Service.minRequestInterval s
                  - (now s - lastRequestTime s))%Q).
    pose proof (timeout_pos wait) as Hpos.
    assert (Hfull : (wait <= Js.timeout wait)%Q).
    { apply timeout_full. unfold wait, Js.TIMEOUT_MAX. lra. }
    unfold wait in *. split; [lra|]. split; [reflexivity | lra].
  - split; [lra|]. split; [reflexivity | lra].
Qed.

Lemma instants_app (a b : list Effect) :
  Spec.dispatch_instants (a ++ b)
  = Spec.dispatch_instants a ++ Spec.dispatch_instants b.
Proof. apply flat_map_app. Qed.

Lemma paced_snoc (interval : Q) (ts : list Q) (t' : Q) :
  Spec.paced interval ts ->
  Forall (fun t => (t + interval <= t')%Q) ts ->
  Spec.paced interval (ts ++ [t']).
Proof.
  induction ts as [|t1 ts IH]; intros Hp Hf; [exact I|].
  inversion Hf as [|x l H1 Hrest]; subst x l.
  destruct ts as [|t2 rest].
  - simpl. split; [exact H1 | exact I].
  - destruct Hp as [H12 Hp]. split; [exact H12|].
    apply IH; assumption.
Qed.

Lemma interval_nonneg (s : Service) :
  (1 <= rateLimit (config s))%Q -> (0 <= Service.minRequestInterval s)%Q.
Proof. intros H. exact (proj1 (interval_bounds s H)). Qed.

(** Effects other than a dispatch keep a session Spec.stamped. *)
Lemma stamped_quiet (s s' : Service) (tr : list Effect) :
  config s' = config s ->
  lastRequestTime s' = lastRequestTime s ->
  trace s' = trace s ++ tr ->
  Spec.dispatch_instants tr = [] ->
  (now s <= now s')%Q ->
  Spec.stamped s -> Spec.stamped s'.
Proof.
  intros Hc Hl Ht Hq Hn (Hp & Hf & Hclock).
  unfold Spec.stamped, Service.minRequestInterval in *.
  rewrite Hc, Hl, Ht, instants_app, Hq, app_nil_r.
  split; [assumption|]. split; [assumption|].
  apply Qle_trans with (now s); assumption.
Qed.

Ltac quiet := try reflexivity; try apply Qle_refl.

Lemma stamped_attempt {T} (req : Request) (r : Reply T) (s : Service) :
  (1 <= rateLimit (config s))%Q ->
  Spec.stamped s ->
  Spec.stamped (Service.invoke req r (Service._rateLimit s)).
Proof.
  intros Hr (Hp & Hf & Hclock).
  destruct (rateLimit_waits_out_the_interval s Hr Hclock)
    as (Hwait & Hstamp & _).
  pose proof (interval_nonneg s Hr) as Hpos.
  destruct (rateLimit_frame s) as (Hc & _ & _ & Ht).
  set (s1 := Service._rateLimit s) in *.
  assert (Hi : Spec.dispatch_instants (trace s1)
               = Spec.dispatch_instants (trace s)).
  { rewrite Ht, instants_app. unfold Spec.pacing_effects.
    destruct (Service.pacingWait s); simpl; rewrite app_nil_r; reflexivity. }
  assert (Hgoal : Spec.stamped
            (Service.elapse (latency r)
               (Service.record (Dispatch (now s1) req) s1))).
  { unfold Spec.stamped, Service.minRequestInterval.
    change (trace (Service.elapse (latency r)
                     (Service.record (Dispatch (now s1) req) s1)))
      with (trace s1 ++ [Dispatch (now s1) req]).
    change (lastRequestTime (Service.elapse (latency r)
                     (Service.record (Dispatch (now s1) req) s1)))
      with (lastRequestTime s1).
    change (config (Service.elapse (latency r)
                     (Service.record (Dispatch (now s1) req) s1)))
      with (config s1).
    rewrite instants_app, Hi, Hc.
    change (Spec.dispatch_instants [Dispatch (now s1) req]) with [now s1].
    change (now (Service.elapse (latency r)
                     (Service.record (Dispatch (now s1) req) s1)))
      with (now s1 + latency r)%Q.
    rewrite Hstamp. split; [|split].
    - apply paced_snoc; [exact Hp|].
      eapply Forall_impl; [|exact Hf]. intros t Ht0. simpl in Ht0.
      unfold Service.minRequestInterval in *. lra.
    - apply Forall_app. split.
      + eapply Forall_impl; [|exact Hf]. intros t Ht0. simpl in Ht0.
        unfold Service.minRequestInterval in *. lra.
      + constructor; [apply Qle_refl | constructor].
    - pose proof (latency_nonneg r). lra. }
  unfold Service.invoke, Service.interrupt. fold s1.
  set (s3 := Service.elapse (latency r)
               (Service.record (Dispatch (now s1) req) s1)) in *.
  destruct (interrupted r); [|exact Hgoal].
  apply (stamped_quiet s3 _ [Emit cancelled]); quiet. exact Hgoal.
Qed.

(** Requests made one after the other are paced: in the trace of the
    executor, run on its own, successive dispatches are at least one
    interval apart. *)
Lemma retry_stamped {T} (req : Request) (requestFn : Z -> Reply T) :
  forall (fuel : nat) (a : Z) (s s' : Service) (r : result Thrown T),
    Service.retry fuel req requestFn a s = Some (s', r) ->
    (1 <= rateLimit (config s))%Q ->
    Spec.stamped s -> Spec.stamped s'.
Proof.
  induction fuel as [|fuel IH]; intros a s s' r H Hr Hs; [discriminate|].
  simpl in H.
  pose proof (stamped_attempt req (requestFn a) s Hr Hs) as Hs2.
  destruct (settled_frame req requestFn a s) as (Hc & _).
  unfold Spec.settled in Hc.
  set (s2 := Service.invoke req (requestFn a) (Service._rateLimit s)) in *.
  destruct (outcome (requestFn a)) as [v|[st dm msg|msg|shown]].
  - inversion H; subst. exact Hs2.
  - destruct (Service.is_status st 401).
    + inversion H; subst.
      eapply (stamped_quiet s2 _ [Emit tokenExpired]); quiet.
      exact Hs2.
    + destruct (Service.retryable st);
        [destruct (Qle_bool _ _)|]; try (inversion H; subst; exact Hs2).
      apply IH in H;
        [exact H
        |cbn [config Service.setTimeout Service.elapse Service.emit
              Service.record]; rewrite Hc; exact Hr |].
      eapply (stamped_quiet s2 _ [Emit _; Timeout Backoff _]);
        try reflexivity; [| |exact Hs2].
      * cbn [trace Service.setTimeout Service.elapse Service.emit
             Service.record].
        rewrite <- app_assoc. reflexivity.
      * cbn [now Service.setTimeout Service.elapse Service.emit
             Service.record].
        pose proof (timeout_pos
                      (Service.backoffDelay (config s2) a)) as Hpos.
        lra.
  - inversion H; subst. exact Hs2.
  - inversion H; subst. exact Hs2.
Qed.

Lemma retry_keeps_config {T} (req : Request) (requestFn : Z -> Reply T) :
  forall (fuel : nat) (a : Z) (s s' : Service) (r : result Thrown T),
    Service.retry fuel req requestFn a s = Some (s', r) ->
    config s' = config s.
Proof.
  induction fuel as [|fuel IH]; intros a s s' r H; [discriminate|].
  simpl in H.
  destruct (settled_frame req requestFn a s) as (Hc & _).
  unfold Spec.settled in Hc.
  destruct (outcome (requestFn a)) as [v|[st dm msg|msg|shown]].
  - inversion H; subst. exact Hc.
  - destruct (Service.is_status st 401).
    + inversion H; subst. exact Hc.
    + destruct (Service.retryable st);
        [destruct (Qle_bool _ _)|]; try (inversion H; subst; exact Hc).
      apply IH in H. rewrite H. exact Hc.
  - inversion H; subst. exact Hc.
  - inversion H; subst. exact Hc.
Qed.

Lemma paging_stamped (w : World) (from_date to_date : string) :
  forall (fuel k : nat) (pos : Z) (s s' : Service)
         (r : result Thrown (list Envelope)),
    Discovery.paging fuel w from_date to_date k pos s = Some (s', r) ->
    (1 <= rateLimit (config s))%Q ->
    Spec.stamped s -> Spec.stamped s'.
Proof.
  induction fuel as [|fuel IH]; intros k pos s s' r H Hr Hs; [discriminate|].
  simpl in H. destruct (isCancelled s); [inversion H; subst; exact Hs|].
  destruct (Service._retryableRequest _ _ s) as [[s1 [data|e]]|] eqn:E;
    [| |discriminate].
  - pose proof (retry_stamped _ _ _ _ _ _ _ E Hr Hs) as Hs1.
    pose proof (retry_keeps_config _ _ _ _ _ _ _ E) as Hc1.
    assert (Hs2 : Spec.stamped (Spec.absorb data s1)).
    { destruct data as [es|]; [|exact Hs1].
      apply (stamped_quiet s1 _ [Emit (envelopesFound (length es)
                                         (length (envelopes s1 ++ es)))]);
        quiet. exact Hs1. }
    destruct data as [es|]; cbv beta iota zeta in H;
      destruct (_ =? _);
      try (inversion H; subst; exact Hs2);
      (apply IH in H; [exact H | simpl; rewrite Hc1; exact Hr | exact Hs2]).
  - inversion H; subst.
    apply (stamped_quiet s1 _ [Emit (error e)]); quiet.
    exact (retry_stamped _ _ _ _ _ _ _ E Hr Hs).
Qed.

(** Discovery paces its requests: if the dispatches recorded so far are
    paced (none, in a new session), so are they after a listing. *)
Lemma listing_is_paced (w : World) (fuel : nat) (fromDate toDate : string)
    (s s' : Service) (r : result Thrown (list Envelope)) :
  Discovery.getEnvelopesWebApi fuel w fromDate toDate s = Some (s', r) ->
  (1 <= rateLimit (config s))%Q ->
  Spec.stamped s -> Spec.stamped s'.
Proof.
  unfold Discovery.getEnvelopesWebApi. intros H Hr Hs.
  destruct (isCancelled s); [inversion H; subst; exact Hs|].
  destruct (toISOString w fromDate) as [f|], (toISOString w toDate) as [t|];
    try (inversion H; subst;
         apply (stamped_quiet s _ [Emit (error InvalidTime)]);
         quiet; exact Hs).
  apply paging_stamped in H; [exact H | exact Hr |].
  apply (stamped_quiet s _ [Emit (searchStarted fromDate toDate)]);
    quiet. exact Hs.
Qed.

Lemma new_session_stamped (c : DocusignConfig) (t0 : Q) :
  (0 <= t0)%Q -> Spec.stamped (Service.new c t0).
Proof. intros H. split; [exact I|]. split; [constructor | exact H]. Qed.

(** C3 fails on the code.  With two requests per second the interval is
    500 ms; the three downloads of one chunk are started together, the
    second and the third both read the request time recorded by the
    first, both wait 500 ms, and both dispatch at the same instant. *)
Theorem concurrent_downloads_are_not_paced :
  exists s',
    Download.downloadDocuments Spec.calm_world Spec.sample_trio
    = Some (s', Ok tt)
    /\ Qred (Service.minRequestInterval Spec.sample_trio) = 500%Q
    /\ map Qred (Spec.dispatch_instants (trace s'))
       = [10100%Q; 10600%Q; 10600%Q]
    /\ ~ Spec.paced (Service.minRequestInterval Spec.sample_trio)
           (Spec.dispatch_instants (trace s')).
Proof.
  eexists. split; [vm_compute; reflexivity|].
  split; [reflexivity|]. split; [reflexivity|].
  intros H. simpl in H. destruct H as (_ & H & _).
  vm_compute in H. apply H. reflexivity.
Qed.

(** ** Session configuration: bounds and defaults *)

Lemma new_ok_merge env config c :
  Config.new env config = Ok c -> c = Config.merge env config.
Proof.
  unfold Config.new. destruct (Config.validate _); [discriminate|].
  intros H. inversion H. reflexivity.
Qed.

(** X1.  The number of concurrent downloads of a constructed
    configuration lies between 1 and [MAX_CONCURRENT_DOWNLOADS]: a
    request for 5 or more gives 5, a request between 1 and 5 is kept
    (whole or not), a request that is absent, [NaN] or 0 gives the
    default 3, and any other one (negative, or below 1) is refused. *)
Theorem concurrency_is_capped :
  forall (env : ProcessEnv) (config : DocusignConfigOptions)
         (c : DocusignConfig),
    Config.new env config = Ok c ->
    (1 <= maxConcurrent c)%Q
    /\ (maxConcurrent c <= Constants.MAX_CONCURRENT_DOWNLOADS)%Q
    /\ (forall q, opt_maxConcurrent config = Some (Js.Num q) ->
          ((q == 0)%Q \/ (1 <= q)%Q)
          /\ ((1 <= q)%Q -> (q <= 5)%Q -> maxConcurrent c = q)
          /\ ((5 <= q)%Q -> (maxConcurrent c == 5)%Q)
          /\ ((q == 0)%Q -> maxConcurrent c = 3%Q))
    /\ (opt_maxConcurrent config = None
        \/ opt_maxConcurrent config = Some Js.NaN ->
        maxConcurrent c = 3%Q).
Proof.
  intros env config c H.
  pose proof (new_ok_valid _ _ _ H) as (_ & _ & _ & _ & Hm & _).
  apply new_ok_merge in H. subst c.
  unfold Constants.MAX_CONCURRENT_DOWNLOADS.
  cbn [Config.merge maxConcurrent] in *.
  split; [exact Hm|]. split; [apply min_le_r|]. split.
  - intros q Hq. rewrite Hq in *.
    destruct (Qeq_dec q 0) as [H0|H0].
    + rewrite (or_num_zero q 3 H0) in *.
      split; [left; exact H0|]. split; [|split].
      * intros H1 _. lra.
      * intros H5. lra.
      * intros _. reflexivity.
    + rewrite (or_num_given q 3 H0) in *.
      assert (H1 : (1 <= q)%Q).
      { apply Qle_trans with (Js.min q 5); [exact Hm | apply min_le_l]. }
      split; [right; exact H1|]. split; [|split].
      * intros _ H5. apply min_l. exact H5.
      * intros H5. unfold Js.min.
        destruct (le_spec q 5) as [Hle|_]; [|reflexivity].
        apply Qle_antisym; assumption.
      * intros E. contradiction.
  - intros [Hz|Hz]; rewrite Hz; reflexivity.
Qed.

Lemma concurrency_is_capped_witness :
  exists c,
    Config.new Spec.no_env (Spec.sample_options "t" (Some 10) None None None)
    = Ok c
    /\ (maxConcurrent c == 5)%Q.
Proof.
  eexists. split; [reflexivity|].
  destruct (concurrency_is_capped Spec.no_env
              (Spec.sample_options "t" (Some 10) None None None) _ eq_refl)
    as (_ & _ & H & _).
  destruct (H (inject_Z 10) eq_refl) as (_ & _ & H5 & _). apply H5.
  discriminate.
Defined.
(** ** The retry executor on arbitrary replies *)

Lemma retryable_iff (st : Z) :
  Service.retryable (Some st) = true <-> st = 429 \/ 500 <= st.
Proof.
  unfold Service.retryable, Service.is_status, Service.status_or_zero.
  rewrite orb_true_iff, Z.eqb_eq, Z.leb_le. reflexivity.
Qed.

Lemma retryable_no_response : Service.retryable None = false.
Proof. reflexivity. Qed.

Lemma attempts_from_length (k : nat) :
  forall a, length (Spec.attempts_from a k) = k.
Proof. induction k as [|k IH]; intros a; simpl; [|rewrite IH]; reflexivity. Qed.

Lemma waited_app (t : Timer) (a b : list Effect) :
  (Log.waited t (a ++ b) == Log.waited t a + Log.waited t b)%Q.
Proof.
  induction a as [|e a IH]; simpl.
  - lra.
  - destruct e as [ev|[|] ms|at_ r]; destruct t; simpl; try exact IH;
      rewrite IH; lra.
Qed.



(** The time a call takes is the time of its timers and of its
    attempts. *)
Lemma timeline_total {T} (requestFn : Z -> Reply T) (tr : list Effect) :
  forall (a : Z) (t t' : Q),
    Spec.timeline Spec.actual requestFn a t tr t' ->
    (t' == t + Log.waited Pacing tr + Log.waited Backoff tr
           + Log.spent requestFn a (length (Spec.requests tr)))%Q.
Proof.
  induction tr as [|e tr IH]; intros a t t' H.
  - simpl in *. rewrite H. unfold Log.spent. simpl. lra.
  - destruct e as [ev|k ms|at_ r]; cbn [Spec.timeline] in H;
      cbn [Log.waited fold_right Spec.requests flat_map app length];
      fold (Log.waited Pacing tr); fold (Log.waited Backoff tr);
      fold (Spec.requests tr).
    + exact (IH a t t' H).
    + rewrite (IH _ _ _ H). unfold Spec.actual. destruct k; lra.
    + destruct H as [_ H]. rewrite (IH _ _ _ H).
      unfold Log.spent. cbn [Spec.attempts_from fold_right]. lra.
Qed.

Lemma errors_app (a b : list Effect) :
  Log.errors (a ++ b) = Log.errors a ++ Log.errors b.
Proof. apply flat_map_app. Qed.

Lemma found_app (a b : list Effect) :
  Log.found (a ++ b) = Log.found a ++ Log.found b.
Proof. apply flat_map_app. Qed.

Lemma progress_app (a b : list Effect) :
  Log.progress (a ++ b) = Log.progress a ++ Log.progress b.
Proof. apply flat_map_app. Qed.

Lemma totals_app (a b : list Effect) :
  Log.totals (a ++ b) = Log.totals a ++ Log.totals b.
Proof. apply flat_map_app. Qed.

Lemma timers_app (a b : list Effect) :
  Log.timers (a ++ b) = Log.timers a ++ Log.timers b.
Proof. apply filter_app. Qed.

#[local] Hint Rewrite errors_app found_app progress_app totals_app
  timers_app : trace.

Section Schedule.
Import Service.
Context {T : Type}.
Variable req : Request.
Variable requestFn : Z -> Reply T.

(** Whatever the replies, a call through the executor is a number [k]
    of rounds, each within the ceiling, and one last attempt. *)
Lemma retry_schedule :
  forall (fuel : nat) (a : Z) (s s' : Service) (r : result Thrown T),
    retry fuel req requestFn a s = Some (s', r) ->
    exists (tr : list Effect) (k : nat),
      trace s' = trace s ++ tr
      /\ (forall i, a <= i < a + Z.of_nat k ->
                    (inject_Z i <= retryAttempts (config s))%Q)
      /\ Spec.requests tr = repeat req (S k)
      /\ Spec.backoffs tr
         = flat_map (Spec.retry_round (config s) (Log.cause requestFn))
             (Spec.attempts_from a k)
      /\ filter Spec.is_tokenExpired (Spec.events tr)
         = match r with
           | Err TokenExpired => [tokenExpired]
           | _ => []
           end
      /\ Log.errors tr = [] /\ Log.found tr = []
      /\ Spec.started tr = [] /\ Spec.outcomes tr = []
      /\ Spec.timeline Spec.actual requestFn a (now s) tr (now s').
Proof.
  induction fuel as [|fuel IH]; intros a s s' r H; [discriminate|].
  simpl in H.
  destruct (settled_frame req requestFn a s) as (Hc & _ & _ & Ht).
  pose proof (attempt_timeline req requestFn Spec.actual a s eq_refl) as Hti.
  unfold Spec.settled in Hc, Ht, Hti.
  set (s2 := invoke req (requestFn a) (_rateLimit s)) in *.
  assert (Hquiet :
    Spec.requests (Spec.attempt_effects req requestFn a s) = [req]
    /\ Spec.backoffs (Spec.attempt_effects req requestFn a s) = []
    /\ filter Spec.is_tokenExpired
         (Spec.events (Spec.attempt_effects req requestFn a s)) = []
    /\ Log.errors (Spec.attempt_effects req requestFn a s) = []
    /\ Log.found (Spec.attempt_effects req requestFn a s) = []
    /\ Spec.started (Spec.attempt_effects req requestFn a s) = []
    /\ Spec.outcomes (Spec.attempt_effects req requestFn a s) = []).
  { unfold Spec.attempt_effects, Spec.pacing_effects, Spec.invoke_effects.
    destruct (pacingWait s), (interrupted (requestFn a));
      repeat split; reflexivity. }
  destruct Hquiet as (Q1 & Q2 & Q3 & Q4 & Q5 & Q6 & Q7).
  assert (Hlast : forall e,
    (match e with TokenExpired => False | _ => True end) ->
    (s', r) = (s2, @Err Thrown T e) \/ (exists v, (s', r) = (s2, Ok v)) ->
    exists (tr : list Effect) (k : nat),
      trace s' = trace s ++ tr
      /\ (forall i, a <= i < a + Z.of_nat k ->
                    (inject_Z i <= retryAttempts (config s))%Q)
      /\ Spec.requests tr = repeat req (S k)
      /\ Spec.backoffs tr
         = flat_map (Spec.retry_round (config s) (Log.cause requestFn))
             (Spec.attempts_from a k)
      /\ filter Spec.is_tokenExpired (Spec.events tr)
         = match r with
           | Err TokenExpired => [tokenExpired]
           | _ => []
           end
      /\ Log.errors tr = [] /\ Log.found tr = []
      /\ Spec.started tr = [] /\ Spec.outcomes tr = []
      /\ Spec.timeline Spec.actual requestFn a (now s) tr (now s')).
  { intros e He Hr.
    exists (Spec.attempt_effects req requestFn a s), 0%nat.
    assert (Hs : s' = s2) by (destruct Hr as [Hr|(v & Hr)]; congruence).
    subst s'. split; [exact Ht|]. split; [intros i Hi; lia|].
    split; [exact Q1|]. split; [exact Q2|].
    split; [|repeat split; auto].
    rewrite Q3. destruct Hr as [Hr|(v & Hr)]; inversion Hr; subst.
    - destruct e; try reflexivity. contradiction.
    - reflexivity. }
  destruct (outcome (requestFn a)) as [v|[st dm msg|msg|shown]] eqn:Ho.
  - apply (Hlast InvalidTime I). right. exists v. congruence.
  - destruct (is_status st 401) eqn:H401.
    + inversion H; subst s' r. clear H.
      exists (Spec.attempt_effects req requestFn a s ++ [Emit tokenExpired]),
        0%nat.
      split; [rewrite trace_emit, Ht, app_assoc; reflexivity|].
      split; [intros i Hi; lia|].
      autorewrite with trace. rewrite filter_app.
      rewrite Q1, Q2, Q3, Q4, Q5, Q6, Q7.
      repeat split; try reflexivity.
      apply (timeline_app _ _ _ _ a (now s) (now s2)); [exact Hti|].
      simpl. reflexivity.
    + destruct (retryable st) eqn:Hr.
      * rewrite Hc in H.
        destruct (le_spec (inject_Z a) (retryAttempts (config s)))
          as [Hle|Hgt].
        -- apply IH in H.
           destruct H as (tr & k & Ht' & Hin & R1 & R2 & R3 & R4 & R5 & R6
                             & R7 & R8).
           cbn [config now setTimeout elapse emit record] in Hin, R2, R8.
           rewrite Hc in Hin, R2.
           exists (Spec.attempt_effects req requestFn a s
                   ++ Spec.retry_round (config s) (Log.cause requestFn) a
                   ++ tr), (S k).
           split.
           { rewrite Ht'. cbn [trace setTimeout elapse emit record].
             rewrite Ht. unfold Spec.retry_round, backoffDelay, Log.cause.
             rewrite Ho, <- !app_assoc. reflexivity. }
           split; [intros i Hi;
                   destruct (Z.eq_dec i a); [subst; exact Hle|];
                   apply Hin; lia|].
           autorewrite with trace. rewrite !filter_app.
           rewrite Q1, Q2, Q3, Q4, Q5, Q6, Q7, R1, R2, R3, R4, R5, R6, R7.
           repeat split; try reflexivity.
           apply (timeline_app _ _ _ _ a (now s) (now s2)); [exact Hti|].
           rewrite Q1.
           apply (timeline_app _ _
                    (Spec.retry_round (config s) (Log.cause requestFn) a) tr
                    (a + 1) (now s2)
                    (now s2 + Js.timeout (backoffDelay (config s) a))%Q).
           ++ unfold Spec.retry_round, Spec.actual, backoffDelay.
              cbn [Spec.timeline]. reflexivity.
           ++ cbn [Spec.retry_round Spec.requests flat_map app length].
              rewrite Z.add_0_r. exact R8.
        -- apply (Hlast (ApiError (Js.or_str dm msg) st) I). left.
           congruence.
      * apply (Hlast (ApiError (Js.or_str dm msg) st) I). left. congruence.
  - apply (Hlast (Rethrown (OtherError msg)) I). left. congruence.
  - apply (Hlast (Rethrown (NonError shown)) I). left. congruence.
Qed.

End Schedule.



(** Two runs of the executor on the same replies, in sessions with the
    same retry ceiling, go through the same attempts. *)
Lemma retry_agree {T} (req1 req2 : Request) (requestFn : Z -> Reply T) :
  forall (fuel1 fuel2 : nat) (a : Z) (s1 s2 s1' s2' : Service)
         (r1 r2 : result Thrown T),
    retryAttempts (config s1) = retryAttempts (config s2) ->
    Service.retry fuel1 req1 requestFn a s1 = Some (s1', r1) ->
    Service.retry fuel2 req2 requestFn a s2 = Some (s2', r2) ->
    r1 = r2
    /\ exists tr1 tr2,
         trace s1' = trace s1 ++ tr1
         /\ trace s2' = trace s2 ++ tr2
         /\ length (Spec.requests tr1) = length (Spec.requests tr2).
Proof.
  induction fuel1 as [|fuel1 IH]; intros [|fuel2] a s1 s2 s1' s2' r1 r2 Hn
    H1 H2; try discriminate.
  simpl in H1, H2.
  destruct (settled_frame req1 requestFn a s1) as (Hc1 & _ & _ & Ht1).
  destruct (settled_frame req2 requestFn a s2) as (Hc2 & _ & _ & Ht2).
  unfold Spec.settled in Hc1, Ht1, Hc2, Ht2.
  pose proof (attempt_effects_requests req1 requestFn a s1) as Q1.
  pose proof (attempt_effects_requests req2 requestFn a s2) as Q2.
  set (t1 := Service.invoke req1 (requestFn a) (Service._rateLimit s1)) in *.
  set (t2 := Service.invoke req2 (requestFn a) (Service._rateLimit s2)) in *.
  assert (Hone : exists tr1 tr2,
             trace t1 = trace s1 ++ tr1 /\ trace t2 = trace s2 ++ tr2
             /\ length (Spec.requests tr1) = length (Spec.requests tr2)).
  { eexists _, _. split; [exact Ht1|]. split; [exact Ht2|].
    rewrite Q1, Q2. reflexivity. }
  destruct (outcome (requestFn a)) as [v|[st dm msg|msg|shown]].
  - inversion H1; inversion H2; subst. split; [reflexivity | exact Hone].
  - destruct (Service.is_status st 401).
    + inversion H1; inversion H2; subst. split; [reflexivity|].
      eexists _, _. rewrite !trace_emit, Ht1, Ht2, <- !app_assoc.
      split; [reflexivity|]. split; [reflexivity|].
      rewrite !requests_app, Q1, Q2. reflexivity.
    + destruct (Service.retryable st);
        [rewrite Hc1 in H1; rewrite Hc2 in H2; rewrite <- Hn in H2;
         destruct (Qle_bool (inject_Z a) (retryAttempts (config s1)))|];
        try (inversion H1; inversion H2; subst;
             split; [reflexivity | exact Hone]).
      assert (Hn' : retryAttempts (config s1) = retryAttempts (config s2))
        by exact Hn.
      rewrite <- Hc1, <- Hc2 in Hn'.
      pose proof (fun Hx => IH _ _ _ _ _ _ _ _ Hx H1 H2) as Hgo.
      destruct (Hgo Hn') as (Hr & tr1 & tr2 & E1 & E2 & Hlen).
      split; [exact Hr|].
      cbn [trace Service.setTimeout Service.elapse Service.emit
           Service.record] in E1, E2.
      rewrite Ht1 in E1. rewrite Ht2 in E2.
      rewrite <- !app_assoc in E1, E2.
      eexists _, _. split; [exact E1|]. split; [exact E2|].
      rewrite !requests_app, Q1, Q2, !length_app, Hlen. reflexivity.
  - inversion H1; inversion H2; subst. split; [reflexivity | exact Hone].
  - inversion H1; inversion H2; subst. split; [reflexivity | exact Hone].
Qed.

(** X3.  How a call through the executor ends, and after how many
    attempts, depends on the replies and on the retry ceiling only: not
    on the request, the clock, the pacing state or the cancellation
    flag.  In particular the executor of a cancelled session sends and
    retries its request like any other. *)
Theorem executor_verdict_ignores_the_session :
  forall (T : Type) (req1 req2 : Request) (requestFn : Z -> Reply T)
         (s1 s2 s1' s2' : Service) (r1 r2 : result Thrown T),
    retryAttempts (config s1) = retryAttempts (config s2) ->
    Service._retryableRequest req1 requestFn s1 = Some (s1', r1) ->
    Service._retryableRequest req2 requestFn s2 = Some (s2', r2) ->
    r1 = r2
    /\ exists tr1 tr2,
         trace s1' = trace s1 ++ tr1
         /\ trace s2' = trace s2 ++ tr2
         /\ length (Spec.requests tr1) = length (Spec.requests tr2).
Proof.
  intros T req1 req2 requestFn s1 s2 s1' s2' r1 r2 Hn H1 H2.
  unfold Service._retryableRequest in H1, H2.
  exact (retry_agree req1 req2 requestFn _ _ 1 s1 s2 s1' s2' r1 r2 Hn H1 H2).
Qed.

Lemma executor_verdict_ignores_the_session_witness :
  exists s1' s2' r tr2,
    Service._retryableRequest Spec.sample_request (Spec.always_fails 503)
      Spec.sample_service = Some (s1', r)
    /\ Service._retryableRequest Spec.sample_request (Spec.always_fails 503)
         (Service.cancel Spec.sample_service) = Some (s2', r)
    /\ trace s2' = [Emit cancelled] ++ tr2
    /\ length (Spec.requests tr2) = 4%nat.
Proof.
  destruct (executor_returns Spec.sample_request (Spec.always_fails 503)
              Spec.sample_service) as (s1' & r1 & E1).
  destruct (executor_returns Spec.sample_request (Spec.always_fails 503)
              (Service.cancel Spec.sample_service)) as (s2' & r2 & E2).
  destruct (executor_verdict_ignores_the_session unit
              Spec.sample_request Spec.sample_request (Spec.always_fails 503)
              Spec.sample_service (Service.cancel Spec.sample_service)
              s1' s2' r1 r2 eq_refl E1 E2)
    as (Hr & tr1 & tr2 & Ht1 & Ht2 & Hlen).
  subst r2. exists s1', s2', r1, tr2.
  split; [exact E1|]. split; [exact E2|]. split; [exact Ht2|].
  rewrite <- Hlen. vm_compute in E1. inversion E1 as [[Hs1 Hr1]]. clear E1.
  rewrite <- Hs1 in Ht1. simpl in Ht1. rewrite <- Ht1. reflexivity.
Defined.

Lemma unauthorized_iff (st : option Z) :
  Service.is_status st 401 = true <-> st = Some 401.
Proof.
  destruct st as [z|]; simpl; [|split; discriminate].
  rewrite Z.eqb_eq. split; congruence.
Qed.

Lemma not_unauthorized {A : Type} (st : option Z) (x y : A) :
  Service.is_status st 401 = false ->
  match st with Some 401 => x | _ => y end = y.
Proof.
  intros H. destruct st as [[|p|p]|]; try reflexivity.
  do 9 (destruct p as [p|p|]; try reflexivity).
  discriminate H.
Qed.

(** X4.  A failure that is not an HTTP 429 or a status of 500 and above
    is never retried: the request is sent once, and the call throws at
    once: the token-expired error for a 401, an API error built from
    the message of the response (or of the error) for any other status
    and for a failure without a response (a network error, reported
    with status [undefined]); a rejection that is not an axios error is
    thrown as it is. *)
Theorem other_failures_are_not_retried :
  forall (T : Type) (req : Request) (requestFn : Z -> Reply T) (s : Service)
         (rej : Rejection),
    outcome (requestFn 1) = Rejected rej ->
    match rej with
    | AxiosError (Some st) _ _ => st <> 429 /\ st < 500
    | _ => True
    end ->
    exists (s' : Service) (tr : list Effect) (e : Thrown),
      Service._retryableRequest req requestFn s = Some (s', Err e)
      /\ trace s' = trace s ++ tr
      /\ Spec.requests tr = [req]
      /\ Spec.backoffs tr = []
      /\ match rej with
         | AxiosError (Some 401) _ _ => e = TokenExpired
         | AxiosError st dataMessage message =>
             e = ApiError (Js.or_str dataMessage message) st
             /\ (st = None ->
                 thrown_message e
                 = Some ("DocuSign API Error: "
                         ++ Js.or_str dataMessage message
                         ++ " (Status: undefined)")%string)
         | _ => e = Rethrown rej
         end.
Proof.
  intros T req requestFn s rej Ho Hst.
  destruct (settled_frame req requestFn 1 s) as (Hc & _ & _ & Ht).
  unfold Spec.settled in Hc, Ht.
  pose proof (attempt_effects_requests req requestFn 1 s) as Q1.
  pose proof (attempt_effects_backoffs req requestFn 1 s) as Q2.
  unfold Service._retryableRequest, Service.attempts_fuel.
  cbn [Service.retry]. rewrite Ho.
  set (s2 := Service.invoke req (requestFn 1) (Service._rateLimit s)) in *.
  destruct rej as [st dm msg|msg|shown].
  - destruct (Service.is_status st 401) eqn:H401.
    + apply unauthorized_iff in H401. subst st.
      exists (Service.emit tokenExpired s2),
        (Spec.attempt_effects req requestFn 1 s ++ [Emit tokenExpired]),
        TokenExpired.
      split; [reflexivity|].
      split; [rewrite trace_emit, Ht, app_assoc; reflexivity|].
      autorewrite with trace. rewrite Q1, Q2. repeat split; reflexivity.
    + assert (Hnot : Service.retryable st = false).
      { destruct st as [st|]; [|reflexivity].
        destruct (Service.retryable (Some st)) eqn:Hret; [|reflexivity].
        apply retryable_iff in Hret. lia. }
      rewrite Hnot.
      exists s2, (Spec.attempt_effects req requestFn 1 s),
        (ApiError (Js.or_str dm msg) st).
      split; [reflexivity|]. split; [exact Ht|].
      split; [exact Q1|]. split; [exact Q2|].
      rewrite (not_unauthorized st _ _ H401).
      split; [reflexivity|]. intros E. subst st. reflexivity.
  - exists s2, (Spec.attempt_effects req requestFn 1 s),
      (Rethrown (OtherError msg)).
    repeat split; auto.
  - exists s2, (Spec.attempt_effects req requestFn 1 s),
      (Rethrown (NonError shown)).
    repeat split; auto.
Qed.

Lemma other_failures_are_not_retried_witness :
  exists s' tr,
    Service._retryableRequest Spec.sample_request Sample.network_down
      Spec.sample_service
    = Some (s', Err (ApiError "socket hang up" None))
    /\ trace s' = trace Spec.sample_service ++ tr
    /\ Spec.requests tr = [Spec.sample_request].
Proof.
  destruct (other_failures_are_not_retried unit Spec.sample_request
              Sample.network_down Spec.sample_service
              (AxiosError None None "socket hang up") eq_refl I)
    as (s' & tr & e & E & Ht & Hr & _ & He & _).
  subst e. exists s', tr. split; [exact E|]. split; [exact Ht | exact Hr].
Defined.

(** A first attempt that fails with a status the executor retries, in a
    session whose ceiling is at least 1, is followed by a second one. *)
Lemma first_failure_is_retried {T} (req : Request) (requestFn : Z -> Reply T)
    (s : Service) (st : Z) (dataMessage : option string) (message : string) :
  outcome (requestFn 1)
  = Rejected (AxiosError (Some st) dataMessage message) ->
  st = 429 \/ 500 <= st ->
  (1 <= retryAttempts (config s))%Q ->
  exists (s' : Service) (r : result Thrown T) (tr : list Effect) (k : nat),
    Service._retryableRequest req requestFn s = Some (s', r)
    /\ trace s' = trace s ++ tr
    /\ Spec.requests tr = req :: req :: repeat req k
    /\ exists delay, (delay == retryDelay (config s))%Q
                     /\ In (Emit (retrying 1 delay message)) tr
                     /\ In (Timeout Backoff delay) tr.
Proof.
  intros Ho Hst Ha.
  destruct (executor_returns req requestFn s) as (s' & r & E).
  exists s', r.
  destruct (retry_schedule req requestFn _ 1 s s' r E)
    as (tr & k & Ht & _ & Hr & Hb & _).
  destruct k as [|k].
  - (* no retry: impossible *)
    exfalso. unfold Service._retryableRequest, Service.attempts_fuel in E.
    cbn [Service.retry] in E. rewrite Ho in E.
    assert (H401 : Service.is_status (Some st) 401 = false).
    { simpl. apply Z.eqb_neq. lia. }
    rewrite H401 in E.
    assert (Hret : Service.retryable (Some st) = true)
      by (apply retryable_iff; exact Hst).
    rewrite Hret in E.
    destruct (settled_frame req requestFn 1 s) as (Hc1 & _ & _ & Ht1).
    unfold Spec.settled in Hc1, Ht1. rewrite Hc1 in E.
    destruct (le_spec (inject_Z 1) (retryAttempts (config s)));
      [|contradiction].
    apply (le_floor 1) in Ha. unfold Service.ceiling in E.
    destruct (Z.to_nat (Qfloor (retryAttempts (config s)))) eqn:En; [lia|].
    apply retry_schedule in E.
    destruct E as (tr' & k' & Ht' & _ & Hr' & _).
    cbn [trace Service.setTimeout Service.elapse Service.emit Service.record]
      in Ht'.
    rewrite Ht1, Ht, <- !app_assoc in Ht'.
    apply app_inv_head in Ht'. subst tr.
    autorewrite with trace in Hr.
    rewrite attempt_effects_requests, Hr' in Hr. discriminate.
  - exists tr, k. split; [exact E|]. split; [exact Ht|].
    split; [exact Hr|].
    assert (Hin : forall e, In e (Spec.backoffs tr) -> In e tr).
    { intros e He. unfold Spec.backoffs in He.
      apply filter_In in He. tauto. }
    rewrite Hb in Hin. simpl in Hin.
    unfold Log.cause in Hin. rewrite Ho in Hin.
    exists (retryDelay (config s) * 1)%Q.
    split; [apply Qmult_1_r|].
    split; apply Hin; [left | right; left]; reflexivity.
Qed.

(** The same attempt in a session whose ceiling is below 1 is the last
    one. *)
Lemma first_failure_is_thrown {T} (req : Request) (requestFn : Z -> Reply T)
    (s : Service) (st : Z) (dataMessage : option string) (message : string) :
  outcome (requestFn 1)
  = Rejected (AxiosError (Some st) dataMessage message) ->
  st = 429 \/ 500 <= st ->
  (retryAttempts (config s) < 1)%Q ->
  exists (s' : Service) (tr : list Effect),
    Service._retryableRequest req requestFn s
    = Some (s', Err (ApiError (Js.or_str dataMessage message) (Some st)))
    /\ trace s' = trace s ++ tr
    /\ Spec.requests tr = [req]
    /\ Spec.backoffs tr = [].
Proof.
  intros Ho Hst Ha.
  destruct (settled_frame req requestFn 1 s) as (Hc & _ & _ & Ht).
  unfold Spec.settled in Hc, Ht.
  exists (Service.invoke req (requestFn 1) (Service._rateLimit s)),
    (Spec.attempt_effects req requestFn 1 s).
  split; [|split; [exact Ht|split]].
  - unfold Service._retryableRequest, Service.attempts_fuel.
    cbn [Service.retry]. rewrite Ho.
    assert (H401 : Service.is_status (Some st) 401 = false).
    { simpl. apply Z.eqb_neq. lia. }
    rewrite H401, (proj2 (retryable_iff st) Hst), Hc.
    destruct (le_spec (inject_Z 1) (retryAttempts (config s))) as [Hle|_];
      [|reflexivity].
    exfalso. exact (Qlt_not_le _ _ Ha Hle).
  - apply attempt_effects_requests.
  - apply attempt_effects_backoffs.
Qed.

(** X5.  Retries can be switched off, but not with a whole number: a
    retry ceiling of 0 (like one that is left out, or [NaN]) is replaced
    by the default 3 and a negative one is refused, so that the ceiling
    of a constructed session is positive, and at least 1 when the
    option is a whole number; a call whose first attempt fails with
    status 429 or with a status of 500 and above (599 is no limit) is
    then notified as retried and sent again.  A fraction below 1 is
    accepted as it is, and the same failure is then thrown after a
    single request. *)
Theorem retries_need_a_ceiling_of_one :
  forall (env : ProcessEnv) (config0 : DocusignConfigOptions)
         (c : DocusignConfig),
    Config.new env config0 = Ok c ->
    (0 < retryAttempts c)%Q
    /\ (forall q, opt_retryAttempts config0 = Some (Js.Num q) ->
          ~ (q == 0)%Q -> retryAttempts c = q)
    /\ (forall q, opt_retryAttempts config0 = Some (Js.Num q) ->
          (q == 0)%Q -> retryAttempts c = 3%Q)
    /\ (opt_retryAttempts config0 = None
        \/ opt_retryAttempts config0 = Some Js.NaN ->
        retryAttempts c = 3%Q)
    /\ (forall z, opt_retryAttempts config0 = Some (Js.int z) ->
          (1 <= retryAttempts c)%Q)
    /\ forall (T : Type) (req : Request) (requestFn : Z -> Reply T)
              (s : Service) (st : Z) (dataMessage : option string)
              (message : string),
         config s = c ->
         outcome (requestFn 1)
         = Rejected (AxiosError (Some st) dataMessage message) ->
         st = 429 \/ 500 <= st ->
         ((1 <= retryAttempts c)%Q ->
          exists (s' : Service) (r : result Thrown T) (tr : list Effect)
                 (k : nat),
            Service._retryableRequest req requestFn s = Some (s', r)
            /\ trace s' = trace s ++ tr
            /\ Spec.requests tr = req :: req :: repeat req k
            /\ exists delay, (delay == retryDelay c)%Q
                             /\ In (Emit (retrying 1 delay message)) tr
                             /\ In (Timeout Backoff delay) tr)
         /\ ((retryAttempts c < 1)%Q ->
             exists (s' : Service) (tr : list Effect),
               Service._retryableRequest req requestFn s
               = Some (s', Err (ApiError (Js.or_str dataMessage message)
                                  (Some st)))
               /\ trace s' = trace s ++ tr
               /\ Spec.requests tr = [req]
               /\ Spec.backoffs tr = []).
Proof.
  intros env config0 c H.
  pose proof (new_ok_valid _ _ _ H) as (_ & _ & _ & _ & _ & Ha & _ & _).
  apply new_ok_merge in H.
  assert (Hcases : forall q, opt_retryAttempts config0 = Some (Js.Num q) ->
             ((q == 0)%Q -> retryAttempts c = 3%Q)
             /\ (~ (q == 0)%Q -> retryAttempts c = q)).
  { intros q Hq. subst c. cbn [Config.merge retryAttempts]. rewrite Hq.
    split; intros H0; [apply or_num_zero | apply or_num_given]; exact H0. }
  assert (Hpos : (0 < retryAttempts c)%Q).
  { destruct (opt_retryAttempts config0) as [[q|]|] eqn:Hq;
      try (subst c; cbn [Config.merge retryAttempts]; rewrite Hq;
           reflexivity).
    destruct (Qeq_dec q 0) as [H0|H0].
    - rewrite (proj1 (Hcases q eq_refl) H0). reflexivity.
    - rewrite (proj2 (Hcases q eq_refl) H0) in *.
      destruct (Qlt_le_dec 0 q) as [Hlt|Hle]; [exact Hlt|].
      exfalso. apply H0. apply Qle_antisym; assumption. }
  split; [exact Hpos|].
  split; [intros q Hq H0; exact (proj2 (Hcases q Hq) H0)|].
  split; [intros q Hq H0; exact (proj1 (Hcases q Hq) H0)|].
  split.
  { intros [E|E]; subst c; cbn [Config.merge retryAttempts]; rewrite E;
      reflexivity. }
  split.
  { intros z Hz. unfold Js.int in Hz.
    destruct (Z.eq_dec z 0) as [Hz0|Hz0].
    - rewrite (proj1 (Hcases _ Hz)); [discriminate|].
      rewrite Hz0. reflexivity.
    - assert (Hne : ~ (inject_Z z == 0)%Q).
      { intros E. apply Hz0. apply (proj1 (inject_Z_injective z 0)).
        exact E. }
      rewrite (proj2 (Hcases _ Hz) Hne) in *.
      change 1%Q with (inject_Z 1). change 0%Q with (inject_Z 0) in Hpos.
      rewrite <- Zle_Qle. rewrite <- Zlt_Qlt in Hpos. lia. }
  intros T req requestFn s st dm msg Hc Ho Hst.
  rewrite <- Hc in *. split.
  - intros Ha1.
    exact (first_failure_is_retried req requestFn s st dm msg Ho Hst Ha1).
  - intros Ha1.
    exact (first_failure_is_thrown req requestFn s st dm msg Ho Hst Ha1).
Qed.

Lemma retries_need_a_ceiling_of_one_witness :
  (exists c s' tr k,
      Config.new Spec.no_env (Spec.sample_options "t" None (Some 0) None None)
      = Ok c
      /\ Service._retryableRequest Spec.sample_request
           (Sample.fails_once 600) (Service.new c 10000)
         = Some (s', Ok tt)
      /\ trace s' = tr
      /\ Spec.requests tr
         = Spec.sample_request :: Spec.sample_request
           :: repeat Spec.sample_request k)
  /\ exists c s',
       Config.new Spec.no_env Sample.half_a_retry = Ok c
       /\ retryAttempts c = (1 # 2)%Q
       /\ Service._retryableRequest Spec.sample_request
            (Sample.fails_once 503) (Service.new c 10000)
          = Some (s', Err (ApiError "boom" (Some 503)))
       /\ Spec.requests (trace s') = [Spec.sample_request].
Proof.
  split.
  - eexists.
    destruct (retries_need_a_ceiling_of_one Spec.no_env
                (Spec.sample_options "t" None (Some 0) None None) _ eq_refl)
      as (_ & _ & _ & _ & _ & H).
    destruct (H unit Spec.sample_request (Sample.fails_once 600)
                (Service.new _ 10000) 600 None "boom"%string eq_refl eq_refl
                ltac:(right; lia))
      as [H1 _].
    destruct H1 as (s' & r & tr & k & E & Ht & Hr & _); [discriminate|].
    exists s', tr, k. split; [reflexivity|].
    assert (Er : r = Ok tt).
    { pose proof E as E'. vm_compute in E'. inversion E'. reflexivity. }
    subst r. split; [exact E|]. split; [exact Ht | exact Hr].
  - eexists.
    destruct (retries_need_a_ceiling_of_one Spec.no_env
                Sample.half_a_retry _ eq_refl)
      as (_ & _ & _ & _ & _ & H).
    destruct (H unit Spec.sample_request (Sample.fails_once 503)
                (Service.new _ 10000) 503 None "boom"%string eq_refl eq_refl
                ltac:(right; lia))
      as [_ H2].
    destruct H2 as (s' & tr & E & Ht & Hr & _); [reflexivity|].
    exists s'. split; [reflexivity|]. split; [reflexivity|].
    split; [exact E|]. rewrite Ht. exact Hr.
Defined.


(** X6.  The exported constants describe the service: the base address
    of a constructed configuration is the entry of [API_ENDPOINTS] for
    its environment, an option that is left out takes the value
    [DEFAULT_CONFIG] gives it, the page size of the listing is
    [BATCH_SIZE] and the cap on concurrent downloads
    [MAX_CONCURRENT_DOWNLOADS]; the statuses the executor retries are
    [TOO_MANY_REQUESTS] and everything from [SERVER_ERROR_START] on,
    [SERVER_ERROR_END] being no limit. *)
Theorem constants_describe_the_service :
  forall (env : ProcessEnv) (config0 : DocusignConfigOptions)
         (c : DocusignConfig),
    Config.new env config0 = Ok c ->
    Constants.API_ENDPOINTS (environment c) = Some (Config.getBaseUrl c)
    /\ (opt_environment config0 = None ->
        opt_environment Constants.DEFAULT_CONFIG = Some (environment c))
    /\ (opt_outputFormat config0 = None ->
        opt_outputFormat Constants.DEFAULT_CONFIG = Some (outputFormat c))
    /\ (opt_outputPath config0 = None ->
        opt_outputPath Constants.DEFAULT_CONFIG = Some (outputPath c))
    /\ (opt_maxConcurrent config0 = None ->
        opt_maxConcurrent Constants.DEFAULT_CONFIG
        = Some (Js.Num (maxConcurrent c)))
    /\ (opt_retryAttempts config0 = None ->
        opt_retryAttempts Constants.DEFAULT_CONFIG
        = Some (Js.Num (retryAttempts c)))
    /\ (opt_retryDelay config0 = None ->
        opt_retryDelay Constants.DEFAULT_CONFIG
        = Some (Js.Num (retryDelay c)))
    /\ (opt_rateLimit config0 = None ->
        opt_rateLimit Constants.DEFAULT_CONFIG = Some (Js.Num (rateLimit c)))
    /\ (maxConcurrent c <= Constants.MAX_CONCURRENT_DOWNLOADS)%Q
    /\ Discovery.count = Constants.BATCH_SIZE
    /\ (forall st : Z,
          Service.is_status (Some st) 401 = true
          <-> st = Constants.UNAUTHORIZED)
    /\ (forall st : Z,
          Service.retryable (Some st) = true
          <-> st = Constants.TOO_MANY_REQUESTS
              \/ Constants.SERVER_ERROR_START <= st)
    /\ Service.retryable (Some (Constants.SERVER_ERROR_END + 1)) = true.
Proof.
  intros env config0 c H.
  pose proof (new_ok_valid _ _ _ H) as (_ & _ & _ & He & _).
  apply new_ok_merge in H. subst c.
  split.
  { unfold Constants.API_ENDPOINTS, Config.getBaseUrl.
    destruct He as [He|He]; rewrite He; reflexivity. }
  cbn [Config.merge environment outputFormat outputPath maxConcurrent
       retryAttempts retryDelay rateLimit].
  repeat (split; [intros E; rewrite E; reflexivity|]).
  split; [apply min_le_r|]. split; [reflexivity|].
  split; [intros st; simpl; apply Z.eqb_eq|].
  split; [intros st; apply retryable_iff | reflexivity].
Qed.

Lemma constants_describe_the_service_witness :
  exists c,
    Config.new Spec.no_env (Spec.sample_options "t" None None None None)
    = Ok c
    /\ Config.getBaseUrl c
       = "https://apps.docusign.com/api/esign/na3/restapi/v2.1"%string
    /\ (maxConcurrent c, retryAttempts c, retryDelay c, rateLimit c)
       = (3, 3, 1000, 5)%Q.
Proof.
  eexists. split; [reflexivity|].
  destruct (constants_describe_the_service Spec.no_env
              (Spec.sample_options "t" None None None None) _ eq_refl)
    as (Hu & _ & _ & _ & Hm & Ha & Hd & Hr & _).
  split; [|reflexivity].
  simpl in Hu. inversion Hu. reflexivity.
Defined.

(** ** The command line *)

Lemma check_accepts (getTime : string -> option Z) (argv : Cli.CliArguments) :
  Cli.check getTime argv = Ok tt ->
  exists fromDate toDate,
    getTime (Cli.from argv) = Some fromDate
    /\ getTime (Cli.to argv) = Some toDate
    /\ fromDate <= toDate
    /\ (forall q, Cli.concurrent argv = Js.Num q -> (1 <= q)%Q /\ (q <= 5)%Q)
    /\ (forall q, Cli.rateLimit argv = Js.Num q -> (1 <= q)%Q).
Proof.
  unfold Cli.check.
  destruct (getTime (Cli.from argv)) as [f|]; [|discriminate].
  destruct (getTime (Cli.to argv)) as [t|]; [|discriminate].
  destruct (Z.ltb_spec t f); [discriminate|].
  destruct (Js.below (Cli.concurrent argv) 1) eqn:E1; [discriminate|].
  destruct (Js.above (Cli.concurrent argv) 5) eqn:E2; [discriminate|].
  destruct (Js.below (Cli.rateLimit argv) 1) eqn:E3; [discriminate|].
  intros _. exists f, t.
  split; [reflexivity|]. split; [reflexivity|]. split; [assumption|].
  split.
  - intros q Hq. rewrite Hq in E1, E2. cbn [Js.below Js.above] in E1, E2.
    apply lt_false in E1, E2. split; assumption.
  - intros q Hq. rewrite Hq in E3. cbn [Js.below] in E3.
    apply lt_false in E3. exact E3.
Qed.

(** X7.  The session the command line builds for arguments that pass its
    check: the number of concurrent downloads is the one asked for, a
    number from 1 to 5 that need not be whole, or the default 3 when
    the option is not a number, which the check lets through; the
    environment is production, and the credentials come from the
    environment variables, so that construction can only fail for a
    missing token, account id or cookie; the options [--rateLimit],
    [--retryAttempts] and [--retryDelay] are not handed on: whatever
    their values the session has the defaults 5, 3 and 1000. *)
Theorem cli_builds_a_default_session :
  forall (getTime : string -> option Z) (argv : Cli.CliArguments)
         (env : ProcessEnv),
    Cli.check getTime argv = Ok tt ->
    (forall c, Config.new env (Cli.service_options argv) = Ok c ->
       match Cli.concurrent argv with
       | Js.Num q => maxConcurrent c = q /\ (1 <= q)%Q /\ (q <= 5)%Q
       | Js.NaN => maxConcurrent c = 3%Q
       end
       /\ rateLimit c = 5%Q /\ retryAttempts c = 3%Q
       /\ retryDelay c = 1000%Q
       /\ environment c = "production"%string
       /\ token c
          = Js.replace "Bearer " EmptyString
              (Js.or_str (DOCUSIGN_TOKEN env) EmptyString)
       /\ accountId c = Js.or_str (DOCUSIGN_ACCOUNT_ID env) EmptyString
       /\ cookie c = Js.or_str (DOCUSIGN_COOKIE env) EmptyString)
    /\ (forall m, Config.new env (Cli.service_options argv) = Err m ->
          m = field_message FToken \/ m = field_message FAccountId
          \/ m = field_message FCookie).
Proof.
  intros getTime argv env Hcheck.
  apply check_accepts in Hcheck.
  destruct Hcheck as (f & t & _ & _ & _ & Hconc & _).
  assert (Hm : match Cli.concurrent argv with
               | Js.Num q =>
                   maxConcurrent (Config.merge env (Cli.service_options argv))
                   = q /\ (1 <= q)%Q /\ (q <= 5)%Q
               | Js.NaN =>
                   maxConcurrent (Config.merge env (Cli.service_options argv))
                   = 3%Q
               end).
  { cbn [Config.merge Cli.service_options maxConcurrent opt_maxConcurrent].
    destruct (Cli.concurrent argv) as [q|]; [|reflexivity].
    destruct (Hconc q eq_refl) as [H1 H5].
    split; [|split; assumption].
    rewrite or_num_given; [apply min_l; exact H5|].
    intros H0. rewrite H0 in H1. exact (H1 eq_refl). }
  assert (Hone : (1 <= maxConcurrent
                         (Config.merge env (Cli.service_options argv)))%Q).
  { destruct (Cli.concurrent argv) as [q|].
    - destruct Hm as (-> & H1 & _). exact H1.
    - rewrite Hm. discriminate. }
  split.
  - intros c H. apply new_ok_merge in H. subst c.
    split; [exact Hm|]. repeat split; reflexivity.
  - intros m. unfold Config.new, Config.validate.
    apply lt_false in Hone. rewrite Hone.
    cbn [Config.merge Cli.service_options token accountId cookie environment
         retryAttempts retryDelay rateLimit opt_token opt_accountId
         opt_cookie opt_environment opt_retryAttempts opt_retryDelay
         opt_rateLimit Js.or_num].
    destruct (String.eqb _ EmptyString);
      [intros E; inversion E; auto|].
    destruct (String.eqb _ EmptyString);
      [intros E; inversion E; auto|].
    destruct (String.eqb _ EmptyString);
      [intros E; inversion E; auto|].
    change (Js.or_str (Some "production"%string) "production")
      with "production"%string.
    cbn [existsb String.eqb Ascii.eqb Bool.eqb orb negb].
    simpl. discriminate.
Qed.

Lemma cli_builds_a_default_session_witness :
  (exists c,
      Config.new Sample.credentials (Cli.service_options Sample.argv) = Ok c
      /\ token c = "abc"%string
      /\ maxConcurrent c = 4%Q
      /\ (rateLimit c, retryAttempts c, retryDelay c) = (5, 3, 1000)%Q)
  /\ exists c,
       Cli.concurrent Sample.unreadable_argv = Js.NaN
       /\ Cli.check Sample.getTime Sample.unreadable_argv = Ok tt
       /\ Config.new Sample.credentials
            (Cli.service_options Sample.unreadable_argv) = Ok c
       /\ maxConcurrent c = 3%Q.
Proof.
  split.
  - eexists. split; [reflexivity|].
    destruct (cli_builds_a_default_session Sample.getTime Sample.argv
                Sample.credentials eq_refl) as (H & _).
    destruct (H _ eq_refl) as (Hm & Hr & Ha & Hd & _ & Ht & _).
    split; [exact Ht|]. split; [exact (proj1 Hm)|].
    rewrite Hr, Ha, Hd. reflexivity.
  - eexists. split; [reflexivity|]. split; [reflexivity|].
    split; [reflexivity|].
    destruct (cli_builds_a_default_session Sample.getTime
                Sample.unreadable_argv Sample.credentials eq_refl) as (H & _).
    destruct (H _ eq_refl) as (Hm & _). exact Hm.
Defined.
(** ** Resource discovery on arbitrary replies *)

Lemma retry_keeps_envelopes {T} (req : Request) (requestFn : Z -> Reply T) :
  forall (fuel : nat) (a : Z) (s s' : Service) (r : result Thrown T),
    Service.retry fuel req requestFn a s = Some (s', r) ->
    envelopes s' = envelopes s.
Proof.
  induction fuel as [|fuel IH]; intros a s s' r H; [discriminate|].
  simpl in H.
  destruct (settled_frame req requestFn a s) as (_ & He & _).
  unfold Spec.settled in He.
  destruct (outcome (requestFn a)) as [v|[st dm msg|msg|shown]].
  - inversion H; subst. exact He.
  - destruct (Service.is_status st 401).
    + inversion H; subst. exact He.
    + destruct (Service.retryable st);
        [destruct (Qle_bool _ _)|]; try (inversion H; subst; exact He).
      apply IH in H. rewrite H. exact He.
  - inversion H; subst. exact He.
  - inversion H; subst. exact He.
Qed.

Lemma cumulative_app (n : nat) (a b : list (nat * nat)) :
  Log.cumulative n a ->
  Log.cumulative (Log.last_total n a) b ->
  Log.cumulative n (a ++ b).
Proof.
  revert n. induction a as [|[c t] a IH]; intros n Ha Hb; [exact Hb|].
  destruct Ha as [Ht Ha]. split; [exact Ht|].
  apply IH; [exact Ha | exact Hb].
Qed.

Lemma last_total_app (n : nat) (a b : list (nat * nat)) :
  Log.last_total n (a ++ b) = Log.last_total (Log.last_total n a) b.
Proof. apply fold_left_app. Qed.

(** What a caller sees of an error that is notified and thrown. *)
Lemma raise_listened (w : World) (e : Thrown) :
  listensForError w = true -> Service.raise w e = e.
Proof. intros H. unfold Service.raise. rewrite H. reflexivity. Qed.

Lemma raise_error (w : World) (e : Thrown) :
  Service.instanceofError e = true -> Service.raise w e = e.
Proof.
  intros H. unfold Service.raise.
  destruct (listensForError w); [reflexivity|].
  destruct e as [| | |[| |shown]|]; try reflexivity; discriminate.
Qed.

Lemma raise_unhandled (w : World) (shown : string) :
  listensForError w = false ->
  Service.raise w (Rethrown (NonError shown)) = Unhandled shown.
Proof. intros H. unfold Service.raise. rewrite H. reflexivity. Qed.

Section Listing.
Import Service.
Variable w : World.
Variables from_date to_date : string.

(** Whatever the replies, a listing that ends has only grown the result
    set, has reported every page it added with the running total, and
    has notified an error exactly when it throws it, as the last thing
    it does. *)
Lemma paging_summary :
  forall (fuel k : nat) (pos : Z) (s s' : Service)
         (r : result Thrown (list Envelope)),
    Discovery.paging fuel w from_date to_date k pos s = Some (s', r) ->
    exists (tr : list Effect) (more : list Envelope),
      trace s' = trace s ++ tr
      /\ config s' = config s
      /\ envelopes s' = envelopes s ++ more
      /\ Log.cumulative (length (envelopes s)) (Log.found tr)
      /\ Log.last_total (length (envelopes s)) (Log.found tr)
         = length (envelopes s')
      /\ (forall es, r = Ok es -> Log.errors tr = [])
      /\ (forall e', r = Err e' ->
          exists e tr0, tr = tr0 ++ [Emit (error e)]
                        /\ Log.errors tr = [e] /\ e' = Service.raise w e)
      /\ (forall es, r = Ok es -> es = envelopes s')
      /\ Forall (fun q => Log.is_listing q = true) (Spec.requests tr)
      /\ Spec.started tr = [] /\ Spec.outcomes tr = [].
Proof.
  induction fuel as [|fuel IH]; intros k pos s s' r H; [discriminate|].
  destruct (isCancelled s) eqn:Hi.
  { rewrite paging_cancelled in H by exact Hi.
    inversion H; subst. exists [], [].
    rewrite !app_nil_r. simpl.
    repeat split; try reflexivity; try constructor.
    - intros e He. discriminate.
    - intros es He. inversion He. reflexivity. }
  destruct (_retryableRequest (Spec.page_request from_date to_date pos)
              (listReply w k pos) s) as [[s1 [data|e]]|] eqn:E.
  - pose proof (retry_keeps_config _ _ _ _ _ _ _ E) as Hc1.
    pose proof (retry_keeps_envelopes _ _ _ _ _ _ _ E) as He1.
    destruct (retry_schedule _ _ _ _ _ _ _ E)
      as (tr1 & n & Ht1 & _ & Hr1 & _ & _ & Her1 & Hf1 & Hs1 & Ho1 & _).
    destruct (absorb_frame data s1) as (Hc2 & He2 & _ & Ht2).
    assert (Hlist1 : Forall (fun q => Log.is_listing q = true)
                       (Spec.requests tr1)).
    { rewrite Hr1. apply Forall_forall. intros q Hq.
      apply repeat_spec in Hq. subst q. reflexivity. }
    assert (Habs :
      Log.found (Spec.absorb_effects data s1)
      = match data with
        | Some es => [(length es, (length (envelopes s) + length es)%nat)]
        | None => []
        end
      /\ Log.errors (Spec.absorb_effects data s1) = []
      /\ Spec.requests (Spec.absorb_effects data s1) = []
      /\ Spec.started (Spec.absorb_effects data s1) = []
      /\ Spec.outcomes (Spec.absorb_effects data s1) = []
      /\ length (envelopes (Spec.absorb data s1))
         = match data with
           | Some es => (length (envelopes s) + length es)%nat
           | None => length (envelopes s)
           end).
    { destruct data as [es|]; simpl; rewrite ?length_app, He1;
        repeat split; reflexivity. }
    destruct Habs as (A1 & A2 & A3 & A4 & A5 & A6).
    assert (Hstep :
      exists (tr : list Effect) (more : list Envelope),
        trace (Spec.absorb data s1) = trace s ++ tr
        /\ config (Spec.absorb data s1) = config s
        /\ envelopes (Spec.absorb data s1) = envelopes s ++ more
        /\ Log.cumulative (length (envelopes s)) (Log.found tr)
        /\ Log.last_total (length (envelopes s)) (Log.found tr)
           = length (envelopes (Spec.absorb data s1))
        /\ Log.errors tr = []
        /\ Forall (fun q => Log.is_listing q = true) (Spec.requests tr)
        /\ Spec.started tr = [] /\ Spec.outcomes tr = []).
    { exists (tr1 ++ Spec.absorb_effects data s1), (Spec.records data).
      split; [rewrite Ht2, Ht1, app_assoc; reflexivity|].
      split; [congruence|]. split; [rewrite He2, He1; reflexivity|].
      autorewrite with trace.
      rewrite Hf1, Her1, A1, A2, A3, A4, A5, A6, Hs1, Ho1, app_nil_r.
      destruct data as [es|]; simpl; repeat split; auto;
        rewrite app_nil_r; exact Hlist1. }
    destruct Hstep as (tr & more & Ht & Hc & He & Hcum & Hlast & Herr
                          & Hlist & Hst & Hout).
    rewrite (paging_page w from_date to_date fuel k pos s s1 data Hi E) in H.
    destruct (Discovery.length_or_zero data =? 100).
    + apply IH in H.
      destruct H as (tr' & more' & Ht' & Hc' & He' & Hcum' & Hlast' & Herr'
                        & Hthrow' & Hret' & Hlist' & Hst' & Hout').
      exists (tr ++ tr'), (more ++ more').
      split; [rewrite Ht', Ht, app_assoc; reflexivity|].
      split; [congruence|].
      split; [rewrite He', He, app_assoc; reflexivity|].
      autorewrite with trace.
      split; [apply cumulative_app; [exact Hcum | rewrite Hlast; exact Hcum']|].
      split; [rewrite last_total_app, Hlast; exact Hlast'|].
      split; [intros es Hr; rewrite ?errors_app, Herr; exact (Herr' es Hr)|].
      split.
      { intros e' Hr. destruct (Hthrow' e' Hr) as (e & tr0 & E0 & E1 & E2).
        exists e, (tr ++ tr0).
        split; [rewrite E0, app_assoc; reflexivity|].
        split; [rewrite ?errors_app, Herr; exact E1 | exact E2]. }
      split; [exact Hret'|].
      split; [apply Forall_app; split; assumption|].
      rewrite Hst, Hst', Hout, Hout'. split; reflexivity.
    + inversion H; subst s' r. clear H.
      exists tr, more.
      repeat (split; [assumption|]).
      split; [intros es He0; exact Herr|].
      split; [intros e He0; discriminate|].
      split; [intros es He0; inversion He0; reflexivity|].
      repeat (split; [assumption|]). exact Hout.
  - (* the executor throws: the error is notified, then thrown *)
    assert (H' : Some (emit (error e) s1,
                       @Err Thrown (list Envelope) (raise w e))
                 = Some (s', r)).
    { rewrite <- H. simpl. rewrite Hi.
      unfold Spec.page_request in E. rewrite E. reflexivity. }
    inversion H'; subst s' r. clear H H'.
    pose proof (retry_keeps_config _ _ _ _ _ _ _ E) as Hc1.
    pose proof (retry_keeps_envelopes _ _ _ _ _ _ _ E) as He1.
    destruct (retry_schedule _ _ _ _ _ _ _ E)
      as (tr1 & n & Ht1 & _ & Hr1 & _ & _ & Her1 & Hf1 & Hs1 & Ho1 & _).
    exists (tr1 ++ [Emit (error e)]), [].
    split; [rewrite trace_emit, Ht1, app_assoc; reflexivity|].
    split; [exact Hc1|]. split; [rewrite app_nil_r; exact He1|].
    autorewrite with trace. rewrite Hf1, Her1, Hs1, Ho1, Hr1. simpl.
    split; [exact I|]. split; [rewrite He1; reflexivity|].
    split; [intros es He0; discriminate|].
    split.
    { intros e0 He0. inversion He0; subst. exists e, tr1.
      repeat split. }
    split; [intros es He0; discriminate|].
    split; [|split; reflexivity].
    rewrite ?app_nil_r. apply Forall_forall. intros q Hq.
    apply (repeat_spec (S n)) in Hq. subst q. reflexivity.
  - exfalso. simpl in H. rewrite Hi in H.
    unfold Spec.page_request in E. rewrite E in H. discriminate.
Qed.

End Listing.

Lemma listing_summary (w : World) (fuel : nat) (fromDate toDate : string)
    (s s' : Service) (r : result Thrown (list Envelope)) :
  Discovery.getEnvelopesWebApi fuel w fromDate toDate s = Some (s', r) ->
  isCancelled s = false ->
  exists (tr : list Effect) (more : list Envelope),
    trace s' = trace s ++ tr
    /\ config s' = config s
    /\ envelopes s' = envelopes s ++ more
    /\ Log.cumulative (length (envelopes s)) (Log.found tr)
    /\ Log.last_total (length (envelopes s)) (Log.found tr)
       = length (envelopes s')
    /\ (forall es, r = Ok es -> Log.errors tr = [])
    /\ (forall e', r = Err e' ->
        exists e tr0, tr = tr0 ++ [Emit (error e)]
                      /\ Log.errors tr = [e] /\ e' = Service.raise w e)
    /\ (forall es, r = Ok es -> es = envelopes s')
    /\ Forall (fun q => Log.is_listing q = true) (Spec.requests tr)
    /\ Spec.started tr = [] /\ Spec.outcomes tr = []
    /\ (toISOString w fromDate = None \/ toISOString w toDate = None ->
        r = Err InvalidTime /\ tr = [Emit (error InvalidTime)]).
Proof.
  unfold Discovery.getEnvelopesWebApi. intros H Hi. rewrite Hi in H.
  assert (Hbad : Some (Service.emit (error InvalidTime) s,
                       @Err Thrown (list Envelope)
                         (Service.raise w InvalidTime))
                 = Some (s', r) ->
    exists (tr : list Effect) (more : list Envelope),
      trace s' = trace s ++ tr
      /\ config s' = config s
      /\ envelopes s' = envelopes s ++ more
      /\ Log.cumulative (length (envelopes s)) (Log.found tr)
      /\ Log.last_total (length (envelopes s)) (Log.found tr)
         = length (envelopes s')
      /\ (forall es, r = Ok es -> Log.errors tr = [])
      /\ (forall e', r = Err e' ->
          exists e tr0, tr = tr0 ++ [Emit (error e)]
                        /\ Log.errors tr = [e] /\ e' = Service.raise w e)
      /\ (forall es, r = Ok es -> es = envelopes s')
      /\ Forall (fun q => Log.is_listing q = true) (Spec.requests tr)
      /\ Spec.started tr = [] /\ Spec.outcomes tr = []
      /\ (toISOString w fromDate = None \/ toISOString w toDate = None ->
          r = Err InvalidTime /\ tr = [Emit (error InvalidTime)])).
  { rewrite raise_error by reflexivity.
    intros E. inversion E; subst s' r. clear E.
    exists [Emit (error InvalidTime)], []. simpl. rewrite app_nil_r.
    repeat split; try reflexivity; try constructor.
    - intros es He. discriminate.
    - intros e He. inversion He. exists InvalidTime, [].
      rewrite raise_error by reflexivity. repeat split.
    - intros es He. discriminate. }
  destruct (toISOString w fromDate) as [f|]; [|exact (Hbad H)].
  destruct (toISOString w toDate) as [t|]; [|exact (Hbad H)].
  clear Hbad. apply paging_summary in H.
  destruct H as (tr & more & Ht & Hc & He & Hcum & Hlast & Herr & Hthrow
                    & Hret & Hlist & Hst & Hout).
  exists (Emit (searchStarted fromDate toDate) :: tr), more.
  split; [rewrite Ht, trace_emit, <- app_assoc; reflexivity|].
  repeat (split; [assumption|]).
  split.
  { intros e' Hr. destruct (Hthrow e' Hr) as (e & tr0 & E0 & E1 & E2).
    exists e, (Emit (searchStarted fromDate toDate) :: tr0).
    rewrite E0. repeat split; [|exact E2].
    rewrite E0 in E1. exact E1. }
  repeat (split; [assumption|]).
  intros [Hn|Hn]; discriminate.
Qed.

(** X8.  A listing that throws has emitted one error event, as the last
    thing it did and with the error that stopped it, and a listing that
    returns has emitted none.  What it throws is that error when the
    session has a listener for error events or the error is an
    [Error]; a value that is not an [Error], with no listener, is
    replaced by an [Error] whose message is Unhandled error. followed by
    the value as it is shown.  A date that cannot be converted makes
    the listing fail before anything else is notified or requested; in
    every case the session keeps the records of the pages found until
    then. *)
Theorem listing_errors_are_notified_and_thrown :
  forall (w : World) (fuel : nat) (fromDate toDate : string)
         (s s' : Service) (r : result Thrown (list Envelope)),
    Discovery.getEnvelopesWebApi fuel w fromDate toDate s = Some (s', r) ->
    exists (tr : list Effect) (more : list Envelope),
      trace s' = trace s ++ tr
      /\ envelopes s' = envelopes s ++ more
      /\ (forall es, r = Ok es -> Log.errors tr = [])
      /\ (forall thrown, r = Err thrown ->
          exists e tr0,
            tr = tr0 ++ [Emit (error e)]
            /\ Log.errors tr = [e]
            /\ thrown = Service.raise w e
            /\ (listensForError w = true \/ Service.instanceofError e = true ->
                thrown = e)
            /\ (forall shown,
                  listensForError w = false ->
                  e = Rethrown (NonError shown) ->
                  thrown = Unhandled shown
                  /\ thrown_message thrown
                     = Some ("Unhandled error. (" ++ shown ++ ")")%string))
      /\ (isCancelled s = false ->
          toISOString w fromDate = None \/ toISOString w toDate = None ->
          r = Err InvalidTime /\ tr = [Emit (error InvalidTime)]).
Proof.
  intros w fuel fromDate toDate s s' r H.
  destruct (isCancelled s) eqn:Hi.
  - unfold Discovery.getEnvelopesWebApi in H. rewrite Hi in H.
    inversion H; subst s' r. exists [], []. rewrite !app_nil_r.
    repeat split; try reflexivity; try discriminate.
  - destruct (listing_summary w fuel fromDate toDate s s' r H Hi)
      as (tr & more & Ht & _ & He & _ & _ & Herr & Hthrow & _ & _ & _ & _
             & Hbad).
    exists tr, more. repeat (split; [assumption|]).
    split; [|intros _; exact Hbad].
    intros e' Hr. destruct (Hthrow e' Hr) as (e & tr0 & E0 & E1 & E2).
    exists e, tr0. repeat (split; [assumption|]).
    split.
    + intros [Hl|Hl]; rewrite E2;
        [apply raise_listened | apply raise_error]; exact Hl.
    + intros shown Hl Hs. subst e. rewrite E2, raise_unhandled by exact Hl.
      split; reflexivity.
Qed.

Lemma listing_errors_are_notified_and_thrown_witness :
  (exists s' tr,
      Discovery.getEnvelopesWebApi 5 Sample.expiring_world
        "2024-01-01" "2024-12-31" Spec.sample_service
      = Some (s', Err TokenExpired)
      /\ trace s' = trace Spec.sample_service ++ tr
      /\ Log.errors tr = [TokenExpired]
      /\ length (envelopes s') = 100%nat)
  /\ exists s' tr,
       Discovery.getEnvelopesWebApi 5 Sample.odd_world
         "2024-01-01" "2024-12-31" Spec.sample_service
       = Some (s', Err (Unhandled "'stop'"))
       /\ trace s' = trace Spec.sample_service ++ tr
       /\ Log.errors tr = [Rethrown (NonError "'stop'")].
Proof.
  split.
  - destruct (Discovery.getEnvelopesWebApi 5 Sample.expiring_world
                "2024-01-01" "2024-12-31" Spec.sample_service)
      as [[s' r]|] eqn:E; [|vm_compute in E; discriminate].
    destruct (listing_errors_are_notified_and_thrown Sample.expiring_world 5
                "2024-01-01" "2024-12-31" Spec.sample_service s' r E)
      as (tr & more & Ht & He & _ & Hthrow & _).
    assert (Er : r = Err TokenExpired /\ length (envelopes s') = 100%nat).
    { vm_compute in E. inversion E. split; reflexivity. }
    destruct Er as [Er Hlen]. subst r.
    destruct (Hthrow _ eq_refl) as (e & tr0 & _ & Herr & Hraise & _).
    exists s', tr. split; [reflexivity|]. split; [exact Ht|].
    split; [|exact Hlen].
    rewrite Herr. f_equal.
    destruct e as [| | |[| |shown]|]; cbv in Hraise;
      try discriminate Hraise. reflexivity.
  - destruct (Discovery.getEnvelopesWebApi 5 Sample.odd_world
                "2024-01-01" "2024-12-31" Spec.sample_service)
      as [[s' r]|] eqn:E; [|vm_compute in E; discriminate].
    destruct (listing_errors_are_notified_and_thrown Sample.odd_world 5
                "2024-01-01" "2024-12-31" Spec.sample_service s' r E)
      as (tr & more & Ht & _ & _ & Hthrow & _).
    assert (Er : r = Err (Unhandled "'stop'")).
    { vm_compute in E. inversion E. reflexivity. }
    subst r.
    destruct (Hthrow _ eq_refl) as (e & tr0 & _ & Herr & _ & _ & Hshown).
    exists s', tr. split; [reflexivity|]. split; [exact Ht|].
    rewrite Herr. f_equal.
    vm_compute in E. inversion E as [Hs]. clear E.
    rewrite <- Hs in Ht. simpl in Ht. rewrite <- Ht in Herr.
    inversion Herr. reflexivity.
Defined.

(** X9.  The result set of a session only grows: a listing appends the
    records of the pages it receives, and notifies each page that
    carries records with its size and with the size the result set has
    then, so that each total is the total before plus the count and the
    last one is the size of the result set; the list a listing returns
    is the result set of the session, records of earlier listings
    included; only a listing of a cancelled session returns the empty
    list and leaves the session as it is. *)
Theorem listing_reports_running_totals :
  forall (w : World) (fuel : nat) (fromDate toDate : string)
         (s s' : Service) (r : result Thrown (list Envelope)),
    Discovery.getEnvelopesWebApi fuel w fromDate toDate s = Some (s', r) ->
    exists (tr : list Effect) (more : list Envelope),
      trace s' = trace s ++ tr
      /\ config s' = config s
      /\ envelopes s' = envelopes s ++ more
      /\ Log.cumulative (length (envelopes s)) (Log.found tr)
      /\ Log.last_total (length (envelopes s)) (Log.found tr)
         = length (envelopes s')
      /\ (isCancelled s = false ->
          forall es, r = Ok es -> es = envelopes s')
      /\ (isCancelled s = true -> r = Ok [] /\ s' = s).
Proof.
  intros w fuel fromDate toDate s s' r H.
  destruct (isCancelled s) eqn:Hi.
  - unfold Discovery.getEnvelopesWebApi in H. rewrite Hi in H.
    inversion H; subst s' r. exists [], []. rewrite !app_nil_r.
    repeat split; try reflexivity; try discriminate.
  - destruct (listing_summary w fuel fromDate toDate s s' r H Hi)
      as (tr & more & Ht & Hc & He & Hcum & Hlast & _ & _ & Hret & _).
    exists tr, more. repeat (split; [assumption|]).
    split; [intros _; exact Hret | discriminate].
Qed.

Lemma listing_reports_running_totals_witness :
  exists s' es tr,
    Discovery.getEnvelopesWebApi 5 (Spec.sample_world Spec.nobody Spec.nobody)
      "2024-01-01" "2024-12-31" Spec.sample_service
    = Some (s', Ok es)
    /\ es = envelopes s'
    /\ trace s' = trace Spec.sample_service ++ tr
    /\ Log.found tr = [(100, 100); (3, 103)]%nat.
Proof.
  destruct (Discovery.getEnvelopesWebApi 5
              (Spec.sample_world Spec.nobody Spec.nobody)
              "2024-01-01" "2024-12-31" Spec.sample_service)
    as [[s' r]|] eqn:E; [|vm_compute in E; discriminate].
  destruct (listing_reports_running_totals
              (Spec.sample_world Spec.nobody Spec.nobody) 5
              "2024-01-01" "2024-12-31" Spec.sample_service s' r E)
    as (tr & more & Ht & _ & _ & _ & _ & Hret & _).
  destruct r as [es|e]; [|vm_compute in E; discriminate].
  exists s', es, tr. split; [reflexivity|].
  split; [apply Hret; reflexivity|]. split; [exact Ht|].
  vm_compute in E. inversion E as [[Hs Hes]]. clear E.
  rewrite <- Hs in Ht. simpl in Ht. rewrite <- Ht. reflexivity.
Defined.


(** ** Concurrent downloader on arbitrary replies *)

Lemma successes_progress (tr : list Effect) :
  Spec.successes (Spec.outcomes tr) = length (Log.progress tr).
Proof.
  unfold Spec.successes.
  induction tr as [|e tr IH]; [reflexivity|].
  destruct e as [ev|t ms|at_ q]; try exact IH.
  destruct ev; simpl; try exact IH. rewrite IH. reflexivity.
Qed.

Lemma counting_app (n total k1 k2 : nat) :
  Batch.counting n total k1 ++ Batch.counting (n + k1) total k2
  = Batch.counting n total (k1 + k2).
Proof.
  unfold Batch.counting. rewrite seq_app, map_app.
  rewrite <- plus_Sn_m. reflexivity.
Qed.

Lemma runs_refl (d : Download.State) : Batch.runs d d [].
Proof.
  split; [apply advances_refl|]. split; [constructor | reflexivity].
Qed.

Lemma runs_trans (d1 d2 d3 : Download.State) (tr1 tr2 : list Effect) :
  Batch.runs d1 d2 tr1 -> Batch.runs d2 d3 tr2 ->
  Batch.runs d1 d3 (tr1 ++ tr2).
Proof.
  intros (Ha1 & Hb1 & Hp1) (Ha2 & Hb2 & Hp2).
  split; [eapply advances_trans; eassumption|].
  destruct Ha1 as (_ & He1 & _ & _ & Hn1).
  rewrite He1 in Hb2, Hp2. rewrite Hn1, successes_progress in Hp2.
  split; [apply Forall_app; split; assumption|].
  rewrite progress_app, length_app, <- counting_app, <- Hp1, <- Hp2.
  reflexivity.
Qed.

(** An effect that is no [downloadComplete]. *)
Lemma runs_record (d : Download.State) (e : Effect) :
  Batch.belongs (map envelopeId (envelopes (Download.svc d))) e ->
  Log.progress [e] = [] ->
  Batch.runs d (Download.lift (Service.record e) d) [e].
Proof.
  intros Hb Hp. split; [|split].
  - apply advances_record. rewrite successes_progress, Hp. reflexivity.
  - constructor; [exact Hb | constructor].
  - rewrite Hp. reflexivity.
Qed.

Lemma runs_quiet (d d' : Download.State) :
  Spec.advances d d' [] -> Batch.runs d d' [].
Proof.
  intros H. split; [exact H|]. split; [constructor | reflexivity].
Qed.

Lemma runs_interrupt (d : Download.State) (b : bool) :
  Batch.runs d (Download.lift (Service.interrupt b) d)
    (if b then [Emit cancelled] else []).
Proof.
  split; [apply advances_interrupt|].
  destruct b; split; try reflexivity; repeat constructor.
Qed.

Lemma runs_failed (d : Download.State) (t : Download.Task) (e : Thrown) :
  In (Download.id t) (map envelopeId (envelopes (Download.svc d))) ->
  Batch.runs d (Download.failed t e d)
    [Emit (downloadError (Download.id t) (describe e))].
Proof. intros H. apply runs_record; [exact H | reflexivity]. Qed.

Lemma runs_completed (d : Download.State) (t : Download.Task) :
  In (Download.id t) (map envelopeId (envelopes (Download.svc d))) ->
  Batch.runs d (Download.completed t d)
    [Emit (downloadComplete (Download.id t) (S (Download.downloadedCount d))
             (length (envelopes (Download.svc d))))].
Proof.
  intros H. split; [|split].
  - unfold Spec.advances, Download.completed. simpl.
    repeat split; auto. unfold Spec.successes. simpl. lia.
  - constructor; [exact H | constructor].
  - reflexivity.
Qed.

Section BatchSteps.
Import Service Download.
Variable w : World.

Lemma dispatch_runs (t : Task) (a : Z) (d : State) :
  In (id t) (map envelopeId (envelopes (svc d))) ->
  Batch.runs d (fst (dispatch w t a d))
    [Dispatch (now (svc d)) (CombinedDocument (id t))]
  /\ Spec.task_of (snd (snd (dispatch w t a d))) = t.
Proof.
  intros H. split; [|reflexivity].
  apply runs_record; [exact H | reflexivity].
Qed.

Lemma enter_runs (t : Task) (a : Z) (d : State) :
  In (id t) (map envelopeId (envelopes (svc d))) ->
  exists tr,
    Batch.runs d (fst (enter w t a d)) tr
    /\ Spec.task_of (snd (snd (enter w t a d))) = t.
Proof.
  intros H. unfold enter. destruct (pacingWait (svc d)) as [ms|].
  - exists [Timeout Pacing ms]. split; [|reflexivity].
    apply runs_record; [exact I | reflexivity].
  - exists ([] ++ [Dispatch (now (svc (lift stamp d)))
                     (CombinedDocument (id t))]).
    destruct (dispatch_runs t a (lift stamp d) H) as [Hr Ht].
    split; [|exact Ht].
    eapply runs_trans; [|exact Hr].
    apply runs_quiet. apply advances_stamp.
Qed.

(** One wake-up of a download of the result set. *)
Lemma resume_runs (p : Suspended) (d : State) :
  In (id (Spec.task_of p)) (map envelopeId (envelopes (svc d))) ->
  exists tr,
    Batch.runs d (fst (resume w p d)) tr
    /\ forall e, snd (resume w p d) = Some e ->
                 Spec.task_of (snd e) = Spec.task_of p.
Proof.
  intros H. destruct p as [t a|t a|t a|t a|t]; cbn [Spec.task_of] in H.
  - (* the pacing timer fired *)
    unfold resume.
    destruct (dispatch_runs t a (lift stamp d) H) as [Hr Ht].
    destruct (dispatch w t a (lift stamp d)) as [d1 e]. cbn [fst snd] in *.
    eexists. split.
    + eapply runs_trans; [|exact Hr].
      apply runs_quiet. apply advances_stamp.
    + intros e0 E. inversion E as [E0]. rewrite <- E0. exact Ht.
  - unfold resume.
    destruct (dispatch_runs t a d H) as [Hr Ht].
    destruct (dispatch w t a d) as [d1 e]. cbn [fst snd] in *.
    eexists. split; [exact Hr|].
    intros e0 E. inversion E as [E0]. rewrite <- E0. exact Ht.
  - (* the reply arrived *)
    unfold resume.
    set (r := docReply w (index t) a).
    pose proof (runs_interrupt d (interrupted r)) as Hi.
    set (d1 := lift (interrupt (interrupted r)) d) in *.
    assert (H1 : In (id t) (map envelopeId (envelopes (svc d1)))).
    { destruct Hi as ((_ & He & _) & _). rewrite He. exact H. }
    assert (Hfail : forall e,
      exists tr,
        Batch.runs d (fst (failed t e d1, @None Entry)) tr
        /\ forall e0, snd (failed t e d1, @None Entry) = Some e0 ->
                      Spec.task_of (snd e0) = Spec.task_of (InFlight t a)).
    { intros e. eexists. split; [|intros e0 E; discriminate].
      eapply runs_trans; [exact Hi|]. apply runs_failed. exact H1. }
    destruct (outcome r) as [v|[st dm msg|msg|shown]].
    + eexists. split; [exact Hi|].
      intros e0 E. inversion E. reflexivity.
    + destruct (is_status st 401).
      * eexists. split; [|intros e0 E; discriminate]. cbn [fst].
        eapply runs_trans; [exact Hi|].
        eapply runs_trans;
          [apply (runs_record d1 (Emit tokenExpired)); [exact I|reflexivity]|].
        apply runs_failed. exact H1.
      * destruct (retryable st); [|apply Hfail].
        destruct (Qle_bool _ _); [|apply Hfail].
        eexists. split; [|intros e0 E; inversion E; reflexivity].
        cbn [fst].
        eapply runs_trans; [exact Hi|].
        eapply runs_trans;
          [apply (runs_record d1
                    (Emit (retrying a (backoffDelay (config (svc d1)) a)
                             msg)));
           [exact I | reflexivity]|].
        apply runs_record; [exact I | reflexivity].
    + apply Hfail.
    + apply Hfail.
  - (* the backoff timer fired *)
    unfold resume.
    destruct (enter_runs t (a + 1) d H) as (tr & Hr & Ht).
    destruct (enter w t (a + 1) d) as [d1 e]. cbn [fst snd] in *.
    exists tr. split; [exact Hr|].
    intros e0 E. inversion E as [E0]. rewrite <- E0. exact Ht.
  - (* the write ended *)
    unfold resume.
    set (r := writeReply w (index t)).
    pose proof (runs_interrupt d (interrupted r)) as Hi.
    set (d1 := lift (interrupt (interrupted r)) d) in *.
    assert (H1 : In (id t) (map envelopeId (envelopes (svc d1)))).
    { destruct Hi as ((_ & He & _) & _). rewrite He. exact H. }
    destruct (outcome r) as [v|e].
    + eexists. split; [|intros e0 E; discriminate]. cbn [fst].
      eapply runs_trans; [exact Hi|]. apply runs_completed. exact H1.
    + eexists. split; [|intros e0 E; discriminate]. cbn [fst].
      eapply runs_trans; [exact Hi|]. apply runs_failed. exact H1.
Qed.

End BatchSteps.

Lemma known_runs (d d' : Download.State) (tr : list Effect)
    (e : Download.Entry) :
  Batch.runs d d' tr -> Batch.known d e -> Batch.known d' e.
Proof.
  intros ((_ & He & _) & _) H. unfold Batch.known in *.
  rewrite He. exact H.
Qed.

Section BatchRuns.
Import Service Download.
Variable w : World.

(** Whatever the order of the wake-ups, the downloads of a chunk only
    do what belongs to them. *)
Lemma settle_runs :
  forall (fuel : nat) (queue : list Entry) (d d' : State),
    Forall (Batch.known d) queue ->
    settle fuel w queue d = Some d' ->
    exists tr, Batch.runs d d' tr.
Proof.
  induction fuel as [|fuel IH]; intros queue d d' Hq H;
    destruct (pick queue) as [[[t p] rest]|] eqn:Ep.
  - simpl in H. rewrite Ep in H. discriminate.
  - rewrite (settle_empty w 0 _ _ Ep) in H. inversion H; subst.
    exists []. apply runs_refl.
  - rewrite (settle_pick w fuel _ _ _ _ _ Ep) in H.
    apply pick_perm in Ep.
    pose proof (Permutation_Forall Ep Hq) as Hq'.
    inversion Hq' as [|x l Hp Hrest]; subst x l.
    pose proof (runs_quiet d (lift (set_now t) d) (advances_set_now d t))
      as Hclock.
    destruct (resume_runs w p (lift (set_now t) d)) as (tr1 & Hr & Hnext).
    { exact (known_runs _ _ _ _ Hclock Hp). }
    destruct (resume w p (lift (set_now t) d)) as [d1 next].
    cbn [fst snd] in *.
    pose proof (runs_trans _ _ _ _ _ Hclock Hr) as Hr1.
    destruct (IH (rest ++ opt_list next) d1 d') as (tr2 & Hr2);
      [|exact H|].
    + apply Forall_app. split.
      * eapply Forall_impl; [|exact Hrest].
        intros e He. exact (known_runs _ _ _ _ Hr1 He).
      * destruct next as [e|]; simpl; [|constructor].
        constructor; [|constructor].
        unfold Batch.known. rewrite (Hnext e eq_refl).
        exact (known_runs _ _ _ _ Hr1 Hp).
    + exists (([] ++ tr1) ++ tr2). eapply runs_trans; eassumption.
  - rewrite (settle_empty w (S fuel) _ _ Ep) in H. inversion H; subst.
    exists []. apply runs_refl.
Qed.

Lemma start_runs (t : Task) (d : State) :
  In (id t) (map envelopeId (envelopes (svc d))) ->
  exists tr,
    Batch.runs d (fst (start t d)) tr
    /\ Spec.task_of (snd (snd (start t d))) = t.
Proof.
  intros H. unfold start, enter_from_map.
  pose proof (runs_record d (Emit (downloadStarted (id t))) H eq_refl) as H0.
  change (lift (record (Emit (downloadStarted (id t)))) d)
    with (lift (emit (downloadStarted (id t))) d) in H0.
  set (d0 := lift (emit (downloadStarted (id t))) d) in *.
  destruct (pacingWait (svc d0)) as [ms|]; cbn [fst snd].
  - eexists. split; [|reflexivity].
    eapply runs_trans; [exact H0|].
    apply runs_record; [exact I | reflexivity].
  - eexists. split; [|reflexivity].
    eapply runs_trans; [exact H0|].
    apply runs_quiet. apply advances_stamp.
Qed.

Lemma starts_runs :
  forall (chunk : list Envelope) (base : nat) (d : State),
    incl chunk (envelopes (svc d)) ->
    exists tr,
      Batch.runs d (fst (starts base chunk d)) tr
      /\ Forall (Batch.known (fst (starts base chunk d)))
           (snd (starts base chunk d)).
Proof.
  induction chunk as [|e chunk IH]; intros base d Hin.
  - exists []. split; [apply runs_refl | constructor].
  - simpl starts.
    destruct (start_runs {| index := base; envelope := e |} d)
      as (tr1 & Hr1 & Ht1).
    { unfold id. cbn [envelope]. apply in_map. apply Hin.
      left. reflexivity. }
    destruct (start {| index := base; envelope := e |} d) as [d1 en].
    cbn [fst snd] in *.
    destruct (IH (S base) d1) as (tr2 & Hr2 & Hq2).
    { destruct Hr1 as ((_ & He & _) & _). rewrite He.
      intros x Hx. apply Hin. right. exact Hx. }
    destruct (starts (S base) chunk d1) as [d2 ens].
    cbn [fst snd] in *.
    exists (tr1 ++ tr2). split; [eapply runs_trans; eassumption|].
    constructor; [|exact Hq2].
    apply (known_runs d d2 (tr1 ++ tr2)).
    + eapply runs_trans; eassumption.
    + unfold Batch.known. rewrite Ht1. unfold id. cbn [envelope].
      apply in_map. apply Hin. left. reflexivity.
Qed.

Lemma run_chunk_runs (base : nat) (chunk : list Envelope) (d d' : State) :
  incl chunk (envelopes (svc d)) ->
  run_chunk w base chunk d = Some d' ->
  exists tr, Batch.runs d d' tr.
Proof.
  intros Hin H. unfold run_chunk in H.
  destruct (starts_runs chunk base d Hin) as (tr1 & Hr1 & Hq1).
  destruct (starts base chunk d) as [d1 queue]. cbn [fst snd] in *.
  destruct (settle_runs _ _ _ _ Hq1 H) as (tr2 & Hr2).
  exists (tr1 ++ tr2). eapply runs_trans; eassumption.
Qed.

Lemma each_chunk_runs :
  forall (cs : list (list Envelope)) (base : nat) (d d' : State),
    Forall (fun chunk => incl chunk (envelopes (svc d))) cs ->
    each_chunk w base cs d = Some d' ->
    exists tr, Batch.runs d d' tr.
Proof.
  induction cs as [|chunk cs IH]; intros base d d' Hin H.
  - inversion H; subst. exists []. apply runs_refl.
  - simpl in H. destruct (isCancelled (svc d)).
    + inversion H; subst. exists []. apply runs_refl.
    + destruct (run_chunk w base chunk d) as [d1|] eqn:E; [|discriminate].
      inversion Hin as [|x l Hc Hrest]; subst x l.
      destruct (run_chunk_runs base chunk d d1 Hc E) as (tr1 & Hr1).
      destruct (IH (base + length chunk)%nat d1 d') as (tr2 & Hr2);
        [|exact H|].
      * destruct Hr1 as ((_ & He & _) & _). rewrite He. exact Hrest.
      * exists (tr1 ++ tr2). eapply runs_trans; eassumption.
Qed.

End BatchRuns.

Lemma in_firstn {A} (n : nat) (l : list A) (x : A) :
  In x (firstn n l) -> In x l.
Proof.
  intros H. rewrite <- (firstn_skipn n l). apply in_or_app. left. exact H.
Qed.

Lemma in_skipn {A} (n : nat) (l : list A) (x : A) :
  In x (skipn n l) -> In x l.
Proof.
  intros H. rewrite <- (firstn_skipn n l). apply in_or_app. right. exact H.
Qed.

Lemma slices_incl {A} (xs : list A) (m : Q) :
  forall (fuel : nat) (i : Q),
    Forall (fun chunk => incl chunk xs) (Download.slices fuel xs m i).
Proof.
  induction fuel as [|fuel IH]; intros i; simpl; [constructor|].
  destruct (Js.lt i _); [|constructor].
  constructor; [|apply IH].
  unfold Js.slice. intros x Hx.
  apply in_firstn in Hx. apply in_skipn in Hx. exact Hx.
Qed.

Lemma successes_le (os : list (string * bool)) :
  (Spec.successes os <= length os)%nat.
Proof. unfold Spec.successes. apply filter_length_le. Qed.

Lemma tasks_length (chunk : list Envelope) :
  forall base, length (Spec.tasks base chunk) = length chunk.
Proof.
  induction chunk as [|e chunk IH]; intros base; simpl; [|rewrite IH];
    reflexivity.
Qed.

(** A batch that starts: what it leaves in the trace between the
    creation of the output directory and the final notification. *)
Lemma download_summary (w : World) (s : Service) (v : unit) :
  (1 <= maxConcurrent (config s))%Q ->
  envelopes s <> [] ->
  isCancelled s = false ->
  outcome (ensureDirReply w) = Resolved v ->
  exists (s' : Service) (tr : list Effect) (n : nat),
    Download.downloadDocuments w s = Some (s', Ok tt)
    /\ trace s'
       = trace s
         ++ (if interrupted (ensureDirReply w) then [Emit cancelled] else [])
         ++ tr ++ [Emit (allDownloadsComplete n)]
    /\ config s' = config s
    /\ envelopes s' = envelopes s
    /\ Forall (Batch.belongs (map envelopeId (envelopes s))) tr
    /\ Log.progress tr = Batch.counting 0 (length (envelopes s)) n
    /\ (n <= length (envelopes s))%nat.
Proof.
  intros Hm Hne Hc Hdir.
  destruct (download_run w s v Hne Hc Hdir)
    as (s' & done & skipped & segs & E & Hcs & Hdone & _ & _ & Ht).
  pose proof E as E'. unfold Download.downloadDocuments in E'.
  destruct (envelopes s) as [|e0 es] eqn:Hes; [congruence|].
  rewrite Hc, Hdir in E'. cbn [length Nat.eqb orb] in E'.
  set (s1 := Download.ensureDir w s) in *.
  assert (Hs1 : config s1 = config s /\ envelopes s1 = envelopes s
                /\ trace s1
                   = trace s ++ (if interrupted (ensureDirReply w)
                                 then [Emit cancelled] else [])).
  { unfold s1, Download.ensureDir, Service.interrupt.
    destruct (interrupted (ensureDirReply w)); simpl;
      rewrite ?app_nil_r; auto. }
  destruct Hs1 as (Hc1 & He1 & Ht1).
  destruct (Download.each_chunk w 0 _ _) as [d'|] eqn:Ech; [|discriminate].
  inversion E' as [Hs']. clear E'.
  destruct (each_chunk_runs w _ _ _ _ (slices_incl _ _ _ _) Ech)
    as (tr & (Ha & Hb & Hp)).
  destruct Ha as (Hc' & He' & _ & Ht' & Hn'). cbn [Download.svc] in *.
  cbn [Download.downloadedCount] in Hn', Hp.
  rewrite successes_progress in Hn'. simpl in Hn'.
  exists s', tr, (Download.downloadedCount d').
  split; [exact E|].
  rewrite <- Hs'. unfold Service.emit, Service.record.
  cbn [config envelopes trace]. rewrite Ht', Ht1.
  split; [rewrite <- !app_assoc; reflexivity|].
  split; [congruence|]. split; [rewrite He', He1; exact Hes|].
  rewrite He1, Hes in Hb, Hp. split; [exact Hb|].
  split; [rewrite Hn'; exact Hp|].
  (* no more completed downloads than envelopes *)
  assert (Htr : tr = concat segs).
  { rewrite <- Hs', trace_emit, Ht', Ht1, <- !app_assoc in Ht.
    apply app_inv_head in Ht. apply app_inv_head in Ht.
    apply app_inj_tail in Ht. tauto. }
  pose proof (chunks_done_outcomes w (config s) done segs 0%nat Hdone)
    as Hperm.
  apply Permutation_length in Hperm.
  rewrite length_map, tasks_length in Hperm.
  destruct (chunks_cut (e0 :: es) (maxConcurrent (config s)) Hm)
    as [Hcat _].
  rewrite Hcs, concat_app in Hcat.
  apply (f_equal (@length Envelope)) in Hcat. rewrite length_app in Hcat.
  rewrite Hn', <- successes_progress, Htr.
  pose proof (successes_le (Spec.outcomes (concat segs))). lia.
Qed.

Lemma belongs_quiet (ids : list string) (tr : list Effect) :
  Forall (Batch.belongs ids) tr ->
  Log.totals tr = [] /\ Log.errors tr = [] /\ Log.found tr = []
  /\ Forall (fun q => exists i, q = CombinedDocument i /\ In i ids)
       (Spec.requests tr)
  /\ Forall (fun i => In i ids) (Spec.started tr).
Proof.
  induction 1 as [|e tr He _ IH]; [repeat split; constructor|].
  destruct IH as (H1 & H2 & H3 & H4 & H5).
  destruct e as [ev|t ms|at_ q].
  - destruct ev; simpl in *; try contradiction; repeat split; auto.
  - repeat split; auto.
  - destruct q as [f t p|i]; simpl in *; [contradiction|].
    repeat split; auto. constructor; [|exact H4]. exists i. auto.
Qed.

(** X10.  A batch always ends.  With an empty result set or in a
    cancelled session it does nothing at all: no directory is made and
    nothing is notified, not even the end of the batch.  If the output
    directory cannot be made the batch throws that error: no download
    is started and nothing is notified.  Otherwise it returns, whatever
    happens to the downloads: no failure of a download is thrown or
    notified as [error], and the last thing the batch does is to notify
    [allDownloadsComplete], once. *)
Theorem batch_always_ends :
  forall (w : World) (s : Service),
    (1 <= maxConcurrent (config s))%Q ->
    exists (s' : Service) (r : result Thrown unit) (tr : list Effect),
      Download.downloadDocuments w s = Some (s', r)
      /\ trace s' = trace s ++ tr
      /\ (envelopes s = [] \/ isCancelled s = true -> r = Ok tt /\ s' = s)
      /\ (envelopes s <> [] -> isCancelled s = false ->
          match outcome (ensureDirReply w) with
          | Rejected rej =>
              r = Err (Rethrown rej)
              /\ Spec.events tr
                 = (if interrupted (ensureDirReply w) then [cancelled] else [])
              /\ Spec.requests tr = []
          | Resolved _ =>
              r = Ok tt
              /\ Log.errors tr = []
              /\ exists tr0 n,
                   tr = tr0 ++ [Emit (allDownloadsComplete n)]
                   /\ Log.totals tr0 = []
          end).
Proof.
  intros w s Hm.
  destruct (envelopes s) as [|e0 es] eqn:Hes.
  { exists s, (Ok tt), []. unfold Download.downloadDocuments.
    rewrite Hes, app_nil_r. simpl.
    repeat split; auto. intros H. congruence. }
  destruct (isCancelled s) eqn:Hi.
  { exists s, (Ok tt), []. unfold Download.downloadDocuments.
    rewrite Hes, Hi, app_nil_r. simpl.
    repeat split; auto. intros _ H. discriminate. }
  destruct (outcome (ensureDirReply w)) as [v|rej] eqn:Hdir.
  - destruct (download_summary w s v Hm) as (s' & tr & n & E & Ht & _ & _
                                               & Hb & _);
      [congruence | exact Hi | exact Hdir |].
    rewrite Hes in Hb.
    destruct (belongs_quiet _ _ Hb) as (Htot & Herr & _).
    exists s', (Ok tt),
      ((if interrupted (ensureDirReply w) then [Emit cancelled] else [])
       ++ tr ++ [Emit (allDownloadsComplete n)]).
    split; [exact E|]. split; [exact Ht|].
    split; [intros [H|H]; discriminate|].
    intros _ _. split; [reflexivity|]. split.
    + autorewrite with trace. rewrite Herr.
      destruct (interrupted (ensureDirReply w)); reflexivity.
    + exists ((if interrupted (ensureDirReply w) then [Emit cancelled]
               else []) ++ tr), n.
      split; [rewrite <- app_assoc; reflexivity|].
      autorewrite with trace. rewrite Htot.
      destruct (interrupted (ensureDirReply w)); reflexivity.
  - exists (Download.ensureDir w s), (Err (Rethrown rej)),
      (if interrupted (ensureDirReply w) then [Emit cancelled] else []).
    unfold Download.downloadDocuments. rewrite Hes, Hi, Hdir. simpl.
    split; [reflexivity|].
    unfold Download.ensureDir, Service.interrupt.
    destruct (interrupted (ensureDirReply w)); simpl;
      (split; [rewrite ?app_nil_r; reflexivity|]);
      (split; [intros [H|H]; discriminate|]);
      intros _ _; repeat split; reflexivity.
Qed.

Lemma batch_always_ends_witness :
  exists s',
    Download.downloadDocuments Sample.readonly_world Spec.sample_batch
    = Some (s', Err (Rethrown (OtherError "EACCES: permission denied")))
    /\ trace s' = trace Spec.sample_batch.
Proof.
  destruct (batch_always_ends Sample.readonly_world Spec.sample_batch)
    as (s' & r & tr & E & Ht & _ & H).
  { vm_compute. discriminate. }
  destruct H as (Hr & Hev & _); [discriminate | reflexivity |].
  subst r. exists s'. split; [exact E|].
  vm_compute in E. inversion E. reflexivity.
Defined.

(** X11.  The completed downloads of a batch are counted one by one: the
    [k]th [downloadComplete] of the batch, in the order in which the
    downloads end, reports [k] downloads out of the size of the result
    set, so that the progress grows with every notification and never
    exceeds 100%; the total of the final [allDownloadsComplete] is the
    count of the last of them. *)
Theorem downloads_are_counted_in_order :
  forall (w : World) (s s' : Service) (v : unit),
    (1 <= maxConcurrent (config s))%Q ->
    envelopes s <> [] ->
    isCancelled s = false ->
    outcome (ensureDirReply w) = Resolved v ->
    Download.downloadDocuments w s = Some (s', Ok tt) ->
    exists (tr : list Effect) (n : nat),
      trace s' = trace s ++ tr
      /\ Log.progress tr = Batch.counting 0 (length (envelopes s)) n
      /\ Log.totals tr = [n]
      /\ (n <= length (envelopes s))%nat.
Proof.
  intros w s s' v Hm Hne Hi Hdir E.
  destruct (download_summary w s v Hm Hne Hi Hdir)
    as (s1 & tr & n & E1 & Ht & _ & _ & Hb & Hp & Hn).
  rewrite E in E1. inversion E1; subst s1. clear E1.
  destruct (belongs_quiet _ _ Hb) as (Htot & _).
  exists ((if interrupted (ensureDirReply w) then [Emit cancelled] else [])
          ++ tr ++ [Emit (allDownloadsComplete n)]), n.
  split; [exact Ht|].
  autorewrite with trace. rewrite Hp, Htot.
  destruct (interrupted (ensureDirReply w)); simpl; rewrite ?app_nil_r;
    repeat split; auto.
Qed.

Lemma downloads_are_counted_in_order_witness :
  exists s' tr,
    Download.downloadDocuments (Spec.sample_world Spec.nobody Spec.nobody)
      Spec.sample_batch = Some (s', Ok tt)
    /\ trace s' = trace Spec.sample_batch ++ tr
    /\ Log.progress tr = [(1, 5); (2, 5); (3, 5); (4, 5)]%nat
    /\ Log.totals tr = [4]%nat.
Proof.
  destruct (Download.downloadDocuments
              (Spec.sample_world Spec.nobody Spec.nobody) Spec.sample_batch)
    as [[s' r]|] eqn:E; [|vm_compute in E; discriminate].
  assert (Er : r = Ok tt).
  { pose proof E as E'. vm_compute in E'. inversion E'. reflexivity. }
  subst r.
  destruct (downloads_are_counted_in_order
              (Spec.sample_world Spec.nobody Spec.nobody)
              Spec.sample_batch s' tt)
    as (tr & n & Ht & Hp & Htot & Hn);
    [vm_compute; discriminate | discriminate | reflexivity | reflexivity
    | exact E |].
  exists s', tr. split; [reflexivity|]. split; [exact Ht|].
  assert (En : n = 4%nat).
  { vm_compute in E. inversion E as [Hs]. clear E.
    rewrite <- Hs in Ht. simpl in Ht. rewrite <- Ht in Htot.
    inversion Htot. reflexivity. }
  subst n. split; [exact Hp | exact Htot].
Defined.

(** X12.  A batch leaves the configuration and the result set as they
    are, and only deals with the envelopes of the result set: every
    request it sends asks for the combined document of one of them
    (never for a page of the listing), and every download it starts is
    the download of one of them. *)
Theorem batch_only_downloads_its_envelopes :
  forall (w : World) (s s' : Service) (r : result Thrown unit),
    (1 <= maxConcurrent (config s))%Q ->
    Download.downloadDocuments w s = Some (s', r) ->
    config s' = config s
    /\ envelopes s' = envelopes s
    /\ exists (tr : list Effect),
         trace s' = trace s ++ tr
         /\ Forall (fun q => exists i, q = CombinedDocument i
                                       /\ In i (map envelopeId (envelopes s)))
              (Spec.requests tr)
         /\ Forall (fun i => In i (map envelopeId (envelopes s)))
              (Spec.started tr)
         /\ Log.found tr = [].
Proof.
  intros w s s' r Hm E.
  assert (Hnothing : Some (s, @Ok Thrown unit tt) = Some (s', r) ->
    config s' = config s
    /\ envelopes s' = envelopes s
    /\ exists (tr : list Effect),
         trace s' = trace s ++ tr
         /\ Forall (fun q => exists i, q = CombinedDocument i
                                       /\ In i (map envelopeId (envelopes s)))
              (Spec.requests tr)
         /\ Forall (fun i => In i (map envelopeId (envelopes s)))
              (Spec.started tr)
         /\ Log.found tr = []).
  { intros E0. inversion E0; subst s' r.
    repeat split. exists []. rewrite app_nil_r.
    repeat split; constructor. }
  assert (Hcase : envelopes s = [] \/ envelopes s <> []).
  { destruct (envelopes s); [left; reflexivity | right; discriminate]. }
  destruct Hcase as [Hes|Hne].
  { apply Hnothing. rewrite <- E. unfold Download.downloadDocuments.
    rewrite Hes. reflexivity. }
  destruct (isCancelled s) eqn:Hi.
  { apply Hnothing. rewrite <- E. unfold Download.downloadDocuments.
    rewrite Hi, orb_true_r. reflexivity. }
  clear Hnothing.
  destruct (outcome (ensureDirReply w)) as [v|rej] eqn:Hdir.
  - destruct (download_summary w s v Hm Hne Hi Hdir)
      as (s1 & tr & n & E1 & Ht & Hc & He & Hb & _).
    rewrite E in E1. inversion E1; subst s1 r. clear E1.
    split; [exact Hc|]. split; [exact He|].
    destruct (belongs_quiet _ _ Hb) as (_ & _ & Hf & Hr & Hs).
    eexists. split; [exact Ht|].
    autorewrite with trace. rewrite Hf.
    destruct (interrupted (ensureDirReply w)); simpl; rewrite ?app_nil_r;
      repeat split; assumption.
  - unfold Download.downloadDocuments in E. rewrite Hi, Hdir in E.
    destruct (envelopes s) as [|e0 es] eqn:Hes; [congruence|].
    simpl in E. inversion E; subst s' r. clear E.
    unfold Download.ensureDir, Service.interrupt.
    destruct (interrupted (ensureDirReply w)); simpl.
    + split; [reflexivity|]. split; [exact Hes|].
      exists [Emit cancelled]. repeat split; constructor.
    + split; [reflexivity|]. split; [exact Hes|].
      exists []. rewrite app_nil_r. repeat split; constructor.
Qed.

Lemma batch_only_downloads_its_envelopes_witness :
  exists s' tr,
    Download.downloadDocuments (Spec.sample_world Spec.nobody Spec.nobody)
      Spec.sample_batch = Some (s', Ok tt)
    /\ envelopes s' = envelopes Spec.sample_batch
    /\ trace s' = trace Spec.sample_batch ++ tr
    /\ Forall (fun i => In i ["A"; "B"; "C"; "D"; "E"]%string)
         (Spec.started tr).
Proof.
  destruct (Download.downloadDocuments
              (Spec.sample_world Spec.nobody Spec.nobody) Spec.sample_batch)
    as [[s' r]|] eqn:E; [|vm_compute in E; discriminate].
  assert (Er : r = Ok tt).
  { pose proof E as E'. vm_compute in E'. inversion E'. reflexivity. }
  subst r.
  destruct (batch_only_downloads_its_envelopes
              (Spec.sample_world Spec.nobody Spec.nobody)
              Spec.sample_batch s' (Ok tt))
    as (_ & He & tr & Ht & _ & Hs & _); [vm_compute; discriminate | exact E |].
  exists s', tr. split; [reflexivity|]. split; [exact He|].
  split; [exact Ht | exact Hs].
Defined.


(** The synchronous part of the callbacks sends nothing. *)
Lemma starts_quiet :
  forall (chunk : list Envelope) (base : nat) (d : Download.State),
    exists tr,
      trace (Download.svc (fst (Download.starts base chunk d)))
      = trace (Download.svc d) ++ tr
      /\ Spec.requests tr = [].
Proof.
  induction chunk as [|e chunk IH]; intros base d.
  - exists []. simpl. rewrite app_nil_r. split; reflexivity.
  - simpl Download.starts.
    assert (H1 : exists tr,
               trace (Download.svc
                        (fst (Download.start
                                {| Download.index := base;
                                   Download.envelope := e |} d)))
               = trace (Download.svc d) ++ tr
               /\ Spec.requests tr = []).
    { unfold Download.start, Download.enter_from_map.
      destruct (Service.pacingWait _) as [ms|]; cbn [fst].
      - eexists. simpl. rewrite <- app_assoc. split; reflexivity.
      - eexists. simpl. split; reflexivity. }
    destruct H1 as (tr1 & Ht1 & Hr1).
    destruct (Download.start _ d) as [d1 en]. cbn [fst] in Ht1.
    destruct (IH (S base) d1) as (tr2 & Ht2 & Hr2).
    destruct (Download.starts (S base) chunk d1) as [d2 ens].
    cbn [fst] in *.
    exists (tr1 ++ tr2). rewrite Ht2, Ht1, app_assoc.
    split; [reflexivity|]. rewrite requests_app, Hr1, Hr2. reflexivity.
Qed.

(** X13.  Within a chunk every download is started before any request of
    the chunk leaves: the callbacks of the chunk all run up to their
    first suspension, each notifying [downloadStarted], in the order of
    the result set, before the first of them goes on to dispatch its
    request; whatever the replies, the chunk then runs to its end. *)
Theorem chunk_starts_before_it_requests :
  forall (w : World) (base : nat) (chunk : list Envelope)
         (d : Download.State),
    exists (d' : Download.State) (tr1 tr2 : list Effect),
      Download.run_chunk w base chunk d = Some d'
      /\ trace (Download.svc d') = trace (Download.svc d) ++ tr1 ++ tr2
      /\ Spec.started tr1 = map envelopeId chunk
      /\ Spec.requests tr1 = []
      /\ Spec.started tr2 = []
      /\ length (Spec.outcomes tr2) = length chunk.
Proof.
  intros w base chunk d. unfold Download.run_chunk.
  set (c := config (Download.svc d)).
  destruct (starts_run w c chunk base d)
    as (tr1 & Ha1 & Hs1 & Ho1 & Hf1 & Hon1 & Hst1).
  destruct (starts_quiet chunk base d) as (tr1' & Ht1' & Hr1).
  destruct (Download.starts base chunk d) as [d1 queue]. cbn [fst snd] in *.
  assert (E1 : tr1' = tr1).
  { destruct Ha1 as (_ & _ & _ & Ht1 & _). rewrite Ht1 in Ht1'.
    apply app_inv_head in Ht1'. congruence. }
  subst tr1'.
  assert (Hc1 : config (Download.svc d1) = c).
  { destruct Ha1 as (H & _). exact H. }
  destruct (settle_run w c (length chunk * Download.task_fuel c) queue d1
              Hc1 Hon1) as (d' & tr2 & E & Ha2 & Hs2 & Hperm).
  { rewrite Hst1. lia. }
  exists d', tr1, tr2. split; [exact E|].
  destruct Ha1 as (_ & _ & _ & Ht1 & _).
  destruct Ha2 as (_ & _ & _ & Ht2 & _).
  split; [rewrite Ht2, Ht1, app_assoc; reflexivity|].
  repeat (split; [assumption|]).
  apply Permutation_length in Hperm.
  rewrite Hperm, Hf1, length_map. apply tasks_length.
Qed.


(** ** Sessions *)

Lemma download_frame (w : World) (s s' : Service) (r : result Thrown unit) :
  (1 <= maxConcurrent (config s))%Q ->
  Download.downloadDocuments w s = Some (s', r) ->
  config s' = config s /\ envelopes s' = envelopes s
  /\ exists tr, trace s' = trace s ++ tr.
Proof.
  intros Hm E.
  assert (Hcase : envelopes s = [] \/ envelopes s <> []).
  { destruct (envelopes s); [left; reflexivity | right; discriminate]. }
  destruct Hcase as [Hes|Hne].
  { unfold Download.downloadDocuments in E. rewrite Hes in E.
    inversion E; subst. repeat split. exists []. symmetry. apply app_nil_r. }
  destruct (isCancelled s) eqn:Hi.
  { unfold Download.downloadDocuments in E. rewrite Hi, orb_true_r in E.
    inversion E; subst. repeat split. exists []. symmetry. apply app_nil_r. }
  destruct (outcome (ensureDirReply w)) as [v|rej] eqn:Hdir.
  - destruct (download_summary w s v Hm Hne Hi Hdir)
      as (s1 & tr & n & E1 & Ht & Hc & He & _).
    rewrite E in E1. inversion E1; subst s1 r.
    split; [exact Hc|]. split; [exact He|]. eexists. exact Ht.
  - unfold Download.downloadDocuments in E. rewrite Hi, Hdir in E.
    destruct (envelopes s) as [|e0 es] eqn:Hes; [congruence|].
    simpl in E. inversion E; subst s' r. clear E.
    unfold Download.ensureDir, Service.interrupt.
    destruct (interrupted (ensureDirReply w)); simpl.
    + repeat split; auto. exists [Emit cancelled]. reflexivity.
    + repeat split; auto. exists []. symmetry. apply app_nil_r.
Qed.

Lemma listing_frame (w : World) (fuel : nat) (fromDate toDate : string)
    (s s' : Service) (r : result Thrown (list Envelope)) :
  Discovery.getEnvelopesWebApi fuel w fromDate toDate s = Some (s', r) ->
  config s' = config s
  /\ (exists more, envelopes s' = envelopes s ++ more)
  /\ exists tr, trace s' = trace s ++ tr.
Proof.
  intros H. destruct (isCancelled s) eqn:Hi.
  - unfold Discovery.getEnvelopesWebApi in H. rewrite Hi in H.
    inversion H; subst s' r.
    split; [reflexivity|].
    split; exists []; symmetry; apply app_nil_r.
  - destruct (listing_summary w fuel fromDate toDate s s' r H Hi)
      as (tr & more & Ht & Hc & He & _).
    split; [exact Hc|]. split; [exists more; exact He | exists tr; exact Ht].
Qed.

(** X14.  Once the cancellation flag is set the session is inert: a
    listing returns the empty list (not the result set) and a batch
    returns, both at once and without a request, a timer or a
    notification; whatever is called afterwards, the session stays
    cancelled and changes only by one [cancelled] notification for each
    further call of [cancel()]. *)
Theorem cancelled_session_is_inert :
  forall (s : Service),
    isCancelled s = true ->
    (forall fuel w fromDate toDate,
        Discovery.getEnvelopesWebApi fuel w fromDate toDate s
        = Some (s, Ok []))
    /\ (forall w, Download.downloadDocuments w s = Some (s, Ok tt))
    /\ forall cs : list Session.Call,
         exists s',
           Session.calls cs s = Some s'
           /\ isCancelled s' = true
           /\ config s' = config s
           /\ envelopes s' = envelopes s
           /\ lastRequestTime s' = lastRequestTime s
           /\ now s' = now s
           /\ trace s'
              = trace s
                ++ repeat (Emit cancelled)
                     (length (filter Session.is_cancel cs)).
Proof.
  intros s Hi.
  assert (Hlist : forall s0 fuel w fromDate toDate,
             isCancelled s0 = true ->
             Discovery.getEnvelopesWebApi fuel w fromDate toDate s0
             = Some (s0, Ok [])).
  { intros s0 fuel w f t H0. unfold Discovery.getEnvelopesWebApi.
    rewrite H0. reflexivity. }
  assert (Hbatch : forall s0 w,
             isCancelled s0 = true ->
             Download.downloadDocuments w s0 = Some (s0, Ok tt)).
  { intros s0 w H0. unfold Download.downloadDocuments.
    rewrite H0, orb_true_r. reflexivity. }
  split; [intros; apply Hlist; exact Hi|].
  split; [intros; apply Hbatch; exact Hi|].
  intros cs. revert s Hi.
  induction cs as [|c cs IH]; intros s Hi.
  - exists s. simpl. rewrite app_nil_r. repeat split; auto.
  - destruct c as [fuel w f t|w|].
    + destruct (IH s Hi) as (s' & E & H).
      exists s'. simpl. rewrite (Hlist s fuel w f t Hi). simpl.
      split; [exact E | exact H].
    + destruct (IH s Hi) as (s' & E & H).
      exists s'. simpl. rewrite (Hbatch s w Hi). simpl.
      split; [exact E | exact H].
    + destruct (IH (Service.cancel s) eq_refl)
        as (s' & E & Hi' & Hc & He & Hl & Hn & Ht).
      exists s'. simpl. split; [exact E|].
      repeat (split; [assumption|]).
      rewrite Ht. simpl. rewrite <- app_assoc. reflexivity.
Qed.

Lemma cancelled_session_is_inert_witness :
  exists s',
    Session.calls Sample.after_cancel (Service.cancel Spec.sample_batch)
    = Some s'
    /\ Spec.requests (trace s') = []
    /\ Spec.events (trace s') = [cancelled; cancelled].
Proof.
  destruct (cancelled_session_is_inert (Service.cancel Spec.sample_batch)
              eq_refl) as (_ & _ & H).
  destruct (H Sample.after_cancel) as (s' & E & _ & _ & _ & _ & _ & Ht).
  exists s'. split; [exact E|]. rewrite Ht. split; reflexivity.
Defined.

(** X15.  No call changes the configuration of a session or takes a
    record out of its result set: after any calls the configuration is
    the one the session was constructed with, the result set is the
    earlier one with records appended (by listings only), and the trace
    is the earlier one with effects appended. *)
Theorem session_keeps_its_configuration_and_records :
  forall (cs : list Session.Call) (s s' : Service),
    (1 <= maxConcurrent (config s))%Q ->
    Session.calls cs s = Some s' ->
    config s' = config s
    /\ (exists more, envelopes s' = envelopes s ++ more)
    /\ (exists tr, trace s' = trace s ++ tr)
    /\ (forallb (fun c => match c with
                          | Session.Listing _ _ _ _ => false
                          | _ => true
                          end) cs = true ->
        envelopes s' = envelopes s).
Proof.
  induction cs as [|c cs IH]; intros s s' Hm H.
  - inversion H; subst.
    split; [reflexivity|].
    split; [exists []; symmetry; apply app_nil_r|].
    split; [exists []; symmetry; apply app_nil_r | reflexivity].
  - simpl in H. destruct (Session.call c s) as [s1|] eqn:E; [|discriminate].
    assert (Hstep : config s1 = config s
                    /\ (exists more, envelopes s1 = envelopes s ++ more)
                    /\ (exists tr, trace s1 = trace s ++ tr)
                    /\ (match c with
                        | Session.Listing _ _ _ _ => False
                        | _ => True
                        end -> envelopes s1 = envelopes s)).
    { destruct c as [fuel w f t|w|]; simpl in E.
      - destruct (Discovery.getEnvelopesWebApi fuel w f t s)
          as [[s2 r]|] eqn:E2; [|discriminate].
        inversion E; subst s2.
        destruct (listing_frame w fuel f t s s1 r E2) as (Hc & He & Ht).
        repeat split; auto. contradiction.
      - destruct (Download.downloadDocuments w s) as [[s2 r]|] eqn:E2;
          [|discriminate].
        inversion E; subst s2.
        destruct (download_frame w s s1 r Hm E2) as (Hc & He & Ht).
        repeat split; auto. exists []. rewrite app_nil_r. exact He.
      - inversion E; subst s1. simpl.
        repeat split; auto.
        + exists []. symmetry. apply app_nil_r.
        + exists [Emit cancelled]. reflexivity. }
    destruct Hstep as (Hc1 & (m1 & He1) & (t1 & Ht1) & Hsame).
    destruct (IH s1 s') as (Hc & (m2 & He) & (t2 & Ht) & Hsame');
      [rewrite Hc1; exact Hm | exact H |].
    split; [congruence|].
    split; [exists (m1 ++ m2); rewrite He, He1, app_assoc; reflexivity|].
    split; [exists (t1 ++ t2); rewrite Ht, Ht1, app_assoc; reflexivity|].
    intros Hall. simpl in Hall. apply andb_true_iff in Hall.
    destruct Hall as [Hhd Htl].
    rewrite (Hsame' Htl). apply Hsame.
    destruct c; [discriminate | exact I | exact I].
Qed.

Lemma session_keeps_its_configuration_and_records_witness :
  exists s' more,
    Session.calls Sample.export Spec.sample_batch = Some s'
    /\ config s' = config Spec.sample_batch
    /\ envelopes s' = envelopes Spec.sample_batch ++ more.
Proof.
  destruct (Session.calls Sample.export Spec.sample_batch) as [s'|] eqn:E;
    [|vm_compute in E; discriminate].
  destruct (session_keeps_its_configuration_and_records Sample.export
              Spec.sample_batch s') as (Hc & (more & He) & _);
    [vm_compute; discriminate | exact E |].
  exists s', more. split; [reflexivity|]. split; [exact Hc | exact He].
Defined.


(** ** The older JavaScript module *)

Lemma or_opt_or_str (a b : option string) :
  Js.or_str a (Js.or_str b EmptyString) <> EmptyString ->
  Legacy.or_opt a b = Some (Js.or_str a (Js.or_str b EmptyString)).
Proof.
  unfold Legacy.or_opt, Js.or_str.
  destruct a as [s|]; [destruct (String.eqb_spec s EmptyString)|];
    try reflexivity;
    (destruct b as [t|]; [destruct (String.eqb_spec t EmptyString)|];
     try reflexivity; intros H; contradiction H; reflexivity).
Qed.

Lemma truthy_some (s : string) :
  s <> EmptyString -> Legacy.truthy (Some s) = true.
Proof.
  intros H. simpl. destruct (String.eqb_spec s EmptyString);
    [contradiction | reflexivity].
Qed.

(** X16.  The older module accepts every configuration the service
    accepts, and stores the same values, except that it does not cap
    the number of concurrent downloads at 5. *)
Theorem older_constructor_accepts_what_the_service_accepts :
  forall (env : ProcessEnv) (config0 : DocusignConfigOptions)
         (c : DocusignConfig),
    Config.new env config0 = Ok c ->
    exists c' : Legacy.DocusignConfig,
      Legacy.new env config0 = Ok c'
      /\ Legacy.token c' = token c
      /\ Legacy.accountId c' = Some (accountId c)
      /\ Legacy.cookie c' = Some (cookie c)
      /\ Legacy.environment c' = environment c
      /\ Legacy.outputFormat c' = outputFormat c
      /\ Legacy.outputPath c' = outputPath c
      /\ Legacy.getBaseUrl c' = Config.getBaseUrl c
      /\ maxConcurrent c = Js.min (Legacy.maxConcurrent c') 5
      /\ Legacy.retryAttempts c' = retryAttempts c
      /\ Legacy.retryDelay c' = retryDelay c.
Proof.
  intros env config0 c H.
  pose proof (new_ok_valid _ _ _ H) as (Ht & Ha & Hk & He & _).
  apply new_ok_merge in H. subst c.
  cbn [Config.merge token accountId cookie environment] in Ht, Ha, Hk, He.
  exists (Legacy.merge env config0).
  assert (Ea : Legacy.accountId (Legacy.merge env config0)
               = Some (accountId (Config.merge env config0))).
  { apply or_opt_or_str. exact Ha. }
  assert (Ek : Legacy.cookie (Legacy.merge env config0)
               = Some (cookie (Config.merge env config0))).
  { apply or_opt_or_str. exact Hk. }
  split; [|repeat split; assumption].
  unfold Legacy.new, Legacy.validate. rewrite Ea, Ek.
  cbn [Config.merge accountId cookie].
  rewrite !truthy_some by assumption.
  cbn [Legacy.merge Legacy.token Legacy.environment negb].
  destruct (String.eqb_spec
              (Js.replace "Bearer " EmptyString
                 (Js.or_str (opt_token config0)
                    (Js.or_str (DOCUSIGN_TOKEN env) EmptyString)))
              EmptyString) as [E|_]; [contradiction|].
  destruct He as [He|He]; rewrite He; reflexivity.
Qed.

Lemma older_constructor_accepts_what_the_service_accepts_witness :
  exists c c',
    Config.new Spec.no_env (Spec.sample_options "t" (Some 10) None None None)
    = Ok c
    /\ Legacy.new Spec.no_env
         (Spec.sample_options "t" (Some 10) None None None) = Ok c'
    /\ maxConcurrent c = 5%Q /\ Legacy.maxConcurrent c' = 10%Q.
Proof.
  eexists.
  destruct (older_constructor_accepts_what_the_service_accepts Spec.no_env
              (Spec.sample_options "t" (Some 10) None None None) _ eq_refl)
    as (c' & E & _).
  exists c'. split; [reflexivity|]. split; [exact E|].
  split; [reflexivity|].
  vm_compute in E. inversion E. reflexivity.
Defined.

Lemma firstn_min {A} (n : nat) (l : list A) :
  firstn (Nat.min n (length l)) l = firstn n l.
Proof.
  destruct (Nat.le_ge_cases n (length l)) as [H|H].
  - rewrite Nat.min_l by exact H. reflexivity.
  - rewrite Nat.min_r by exact H. rewrite !firstn_all2; auto.
Qed.

(** For the indexes the service uses, [slice] is the plain one. *)
Lemma slice_plain {A} (xs : list A) (i j : Q) :
  (0 <= i)%Q -> Qfloor i <= Z.of_nat (length xs) -> (i <= j)%Q ->
  Legacy.slice xs i j = Js.slice xs i j.
Proof.
  intros Hi Hlen Hj. unfold Legacy.slice, Js.slice, Legacy.clamp.
  assert (Hj0 : (0 <= j)%Q) by (apply Qle_trans with i; assumption).
  rewrite !trunc_nonneg by assumption.
  pose proof (floor_nonneg i Hi) as Hfi.
  pose proof (floor_nonneg j Hj0) as Hfj.
  destruct (Z.ltb_spec (Qfloor i) 0); [lia|].
  destruct (Z.ltb_spec (Qfloor j) 0); [lia|].
  rewrite (Z.min_l (Qfloor i)) by lia.
  rewrite <- (firstn_min (Z.to_nat (Qfloor j - Qfloor i))). f_equal.
  rewrite length_skipn. lia.
Qed.

Lemma slices_agree {A} (xs : list A) (m : Q) :
  (1 <= m)%Q ->
  forall (fuel fuel' : nat) (i : Q),
    (0 <= i)%Q ->
    (length xs - Z.to_nat (Qfloor i) <= fuel)%nat ->
    (length xs - Z.to_nat (Qfloor i) < fuel')%nat ->
    Legacy.slices fuel' xs m i = Some (Download.slices fuel xs m i).
Proof.
  intros Hm.
  assert (Hfm : 1 <= Qfloor m) by (apply (proj1 (le_floor 1 m)); exact Hm).
  induction fuel as [|fuel IH]; intros [|fuel'] i Hi Hf Hf';
    try lia; pose proof (floor_nonneg i Hi) as Hfi.
  - simpl. destruct (lt_spec i (inject_Z (Z.of_nat (length xs)))) as [Hlt|_];
      [|reflexivity].
    apply lt_floor in Hlt. lia.
  - simpl. destruct (lt_spec i (inject_Z (Z.of_nat (length xs)))) as [Hlt|_];
      [|reflexivity].
    apply lt_floor in Hlt.
    pose proof (floor_plus i m) as [Hlo _].
    assert (Him : (0 <= i + m)%Q) by lra.
    rewrite (IH fuel' (i + m)%Q Him) by lia. simpl.
    rewrite slice_plain; [reflexivity | exact Hi | lia | lra].
Qed.

Lemma slices_diverge {A} (xs : list A) (m : Q) :
  xs <> [] -> (m < 0)%Q ->
  forall (fuel : nat) (i : Q),
    (i <= 0)%Q -> Legacy.slices fuel xs m i = None.
Proof.
  intros Hne Hm.
  assert (Hlen : (1 <= inject_Z (Z.of_nat (length xs)))%Q).
  { change 1%Q with (inject_Z 1). rewrite <- Zle_Qle.
    destruct xs; [congruence | simpl; lia]. }
  induction fuel as [|fuel IH]; intros i Hi; [reflexivity|].
  simpl. destruct (lt_spec i (inject_Z (Z.of_nat (length xs)))) as [_|Hge].
  - rewrite IH by lra. reflexivity.
  - exfalso. apply Hge. lra.
Qed.

(** X17.  The older module has no check of the numeric options: it can be
    constructed with a negative number of concurrent downloads, which
    the service refuses, and the loop that cuts a result set that is not
    empty into chunks then never ends. *)
Theorem older_module_hangs_on_a_negative_bound :
  forall (env : ProcessEnv) (config0 : DocusignConfigOptions) (q : Q)
         (c : Legacy.DocusignConfig),
    opt_maxConcurrent config0 = Some (Js.Num q) ->
    (q < 0)%Q ->
    Legacy.new env config0 = Ok c ->
    Legacy.maxConcurrent c = q
    /\ (forall (xs : list Envelope) (fuel : nat),
          xs <> [] ->
          Legacy.slices fuel xs (Legacy.maxConcurrent c) 0 = None)
    /\ Config.new env config0 = Err (field_message FMaxConcurrent).
Proof.
  intros env config0 q c Hz Hneg H.
  unfold Legacy.new in H.
  destruct (Legacy.validate (Legacy.merge env config0)) eqn:Hv;
    [discriminate|].
  inversion H; subst c. clear H.
  assert (Hq0 : ~ (q == 0)%Q) by (intros E; rewrite E in Hneg; discriminate).
  assert (Hm : Legacy.maxConcurrent (Legacy.merge env config0) = q).
  { cbn [Legacy.merge Legacy.maxConcurrent]. rewrite Hz.
    apply or_num_given. exact Hq0. }
  split; [exact Hm|]. split.
  { intros xs fuel Hne. rewrite Hm. apply slices_diverge; auto.
    apply Qle_refl. }
  unfold Legacy.validate in Hv.
  cbn [Legacy.merge Legacy.token Legacy.accountId Legacy.cookie
       Legacy.environment] in Hv.
  unfold Config.new, Config.validate.
  cbn [Config.merge token accountId cookie environment maxConcurrent].
  destruct (String.eqb _ EmptyString); [discriminate|].
  assert (Hor : forall a b,
             negb (Legacy.truthy (Legacy.or_opt a b)) = false ->
             String.eqb (Js.or_str a (Js.or_str b EmptyString)) EmptyString
             = false).
  { intros a b. unfold Legacy.or_opt, Legacy.truthy, Js.or_str.
    destruct a as [s|]; [destruct (String.eqb s EmptyString) eqn:Es|];
      try (rewrite Es; intros; reflexivity);
      (destruct b as [t|]; [destruct (String.eqb t EmptyString) eqn:Et|];
       simpl; try rewrite Et; try discriminate; intros; reflexivity). }
  destruct (negb (Legacy.truthy _)) eqn:Ea in Hv; [discriminate|].
  rewrite (Hor _ _ Ea).
  destruct (negb (Legacy.truthy _)) eqn:Ek in Hv; [discriminate|].
  rewrite (Hor _ _ Ek).
  destruct (negb (existsb _ _)); [discriminate|].
  rewrite Hz, or_num_given by exact Hq0.
  rewrite min_l by lra.
  destruct (lt_spec q 1) as [_|Hge]; [reflexivity|].
  exfalso. apply Hge. lra.
Qed.

Lemma older_module_hangs_on_a_negative_bound_witness :
  exists c,
    Legacy.new Spec.no_env
      (Spec.sample_options "t" (Some (-1)) None None None) = Ok c
    /\ Legacy.slices 1000 (map Spec.sample_envelope (seq 0 3))
         (Legacy.maxConcurrent c) 0 = None.
Proof.
  eexists. split; [reflexivity|].
  destruct (older_module_hangs_on_a_negative_bound Spec.no_env
              (Spec.sample_options "t" (Some (-1)) None None None)
              (inject_Z (-1)) _ eq_refl ltac:(reflexivity) eq_refl)
    as (_ & H & _).
  apply H. discriminate.
Defined.

(** X18.  With a number [m] of concurrent downloads that is at least 1
    the older module cuts the result set as the service does: into
    consecutive chunks that hold the integer part of [m] envelopes or,
    when [m] has a fraction, one more, only the last possibly smaller;
    for a whole [m] these are chunks of [m] envelopes.  But [m] is not
    capped, and may exceed 5. *)
Theorem older_module_chunks_like_the_service :
  forall (env : ProcessEnv) (config0 : DocusignConfigOptions) (m : Q)
         (c : Legacy.DocusignConfig) (xs : list Envelope),
    opt_maxConcurrent config0 = Some (Js.Num m) ->
    (1 <= m)%Q ->
    Legacy.new env config0 = Ok c ->
    Legacy.maxConcurrent c = m
    /\ Legacy.slices (S (length xs)) xs (Legacy.maxConcurrent c) 0
       = Some (Download.chunks xs m)
    /\ concat (Download.chunks xs m) = xs
    /\ Spec.cut (Z.to_nat (Qfloor m)) (Z.to_nat (Qceiling m))
         (Download.chunks xs m)
    /\ (forall z, (m == inject_Z z)%Q ->
          Spec.partitioned (Z.to_nat z) (Download.chunks xs m)).
Proof.
  intros env config0 m c xs Hz Hpos H.
  unfold Legacy.new in H.
  destruct (Legacy.validate (Legacy.merge env config0)); [discriminate|].
  inversion H; subst c. clear H.
  assert (Hm : Legacy.maxConcurrent (Legacy.merge env config0) = m).
  { cbn [Legacy.merge Legacy.maxConcurrent]. rewrite Hz.
    apply or_num_given. intros E. rewrite E in Hpos. exact (Hpos eq_refl). }
  split; [exact Hm|]. rewrite Hm. split.
  - unfold Download.chunks.
    apply slices_agree; [exact Hpos | apply Qle_refl | simpl; lia..].
  - destruct (chunks_cut xs m Hpos) as [Hcat Hcut].
    split; [exact Hcat|]. split; [exact Hcut|].
    intros z Hmz. apply chunks_spec; assumption.
Qed.

Lemma older_module_chunks_like_the_service_witness :
  (exists c,
      Legacy.new Spec.no_env
        (Spec.sample_options "t" (Some 7) None None None) = Ok c
      /\ option_map (map (@length Envelope))
           (Legacy.slices 11 (map Spec.sample_envelope (seq 0 10))
              (Legacy.maxConcurrent c) 0)
         = Some [7; 3]%nat)
  /\ exists c,
       Legacy.new Spec.no_env Spec.halves = Ok c
       /\ option_map (map (@length Envelope))
            (Legacy.slices 6 (map Spec.sample_envelope (seq 0 5))
               (Legacy.maxConcurrent c) 0)
          = Some [2; 3]%nat.
Proof.
  split.
  - eexists. split; [reflexivity|].
    destruct (older_module_chunks_like_the_service Spec.no_env
                (Spec.sample_options "t" (Some 7) None None None)
                (inject_Z 7) _
                (map Spec.sample_envelope (seq 0 10)) eq_refl
                ltac:(discriminate) eq_refl) as (_ & H & _).
    change 11%nat with (S (length (map Spec.sample_envelope (seq 0 10)))).
    rewrite H. reflexivity.
  - eexists. split; [reflexivity|].
    destruct (older_module_chunks_like_the_service Spec.no_env
                Spec.halves (5 # 2) _
                (map Spec.sample_envelope (seq 0 5)) eq_refl
                ltac:(discriminate) eq_refl) as (_ & H & _).
    change 6%nat with (S (length (map Spec.sample_envelope (seq 0 5)))).
    rewrite H. reflexivity.
Defined.
(** ** The executor of the older module *)

Section OlderExecutor.
Context {T : Type}.
Variable req : Request.
Variable requestFn : Z -> Legacy.Reply T.

Lemma older_invoke_frame (r : Legacy.Reply T) (s : Legacy.Service) :
  Legacy.config (Legacy.invoke req r s) = Legacy.config s
  /\ Legacy.trace (Legacy.invoke req r s)
     = Legacy.trace s
       ++ Dispatch (Legacy.now s) req
          :: (if Legacy.interrupted r then [Emit cancelled] else []).
Proof.
  unfold Legacy.invoke, Legacy.interrupt.
  destruct (Legacy.interrupted r); simpl; split; auto.
  rewrite <- app_assoc. reflexivity.
Qed.

Lemma older_retry_schedule :
  forall (fuel : nat) (a : Z) (s s' : Legacy.Service)
         (r : result Legacy.Thrown T),
    Legacy.retry fuel req requestFn a s = Some (s', r) ->
    exists (tr : list Effect) (k : nat),
      Legacy.trace s' = Legacy.trace s ++ Dispatch (Legacy.now s) req :: tr
      /\ Legacy.config s' = Legacy.config s
      /\ (forall i, a <= i < a + Z.of_nat k ->
            (inject_Z i <= Legacy.retryAttempts (Legacy.config s))%Q)
      /\ Spec.requests tr = repeat req k
      /\ Log.waited Pacing tr = 0%Q
      /\ r = Legacy.verdict requestFn (a + Z.of_nat k).
Proof.
  induction fuel as [|fuel IH]; intros a s s' r H; [discriminate|].
  simpl in H.
  destruct (older_invoke_frame (requestFn a) s) as (Hc & Ht).
  set (s2 := Legacy.invoke req (requestFn a) s) in *.
  assert (Hq : Spec.requests
                 (if Legacy.interrupted (requestFn a)
                  then [Emit cancelled] else []) = []
               /\ Log.waited Pacing
                    (if Legacy.interrupted (requestFn a)
                     then [Emit cancelled] else []) = 0%Q).
  { destruct (Legacy.interrupted (requestFn a)); split; reflexivity. }
  destruct Hq as [Q1 Q2].
  assert (Hlast : (s', r) = (s2, Legacy.verdict requestFn a) ->
    exists (tr : list Effect) (k : nat),
      Legacy.trace s' = Legacy.trace s ++ Dispatch (Legacy.now s) req :: tr
      /\ Legacy.config s' = Legacy.config s
      /\ (forall i, a <= i < a + Z.of_nat k ->
            (inject_Z i <= Legacy.retryAttempts (Legacy.config s))%Q)
      /\ Spec.requests tr = repeat req k
      /\ Log.waited Pacing tr = 0%Q
      /\ r = Legacy.verdict requestFn (a + Z.of_nat k)).
  { intros E. inversion E; subst s' r.
    exists (if Legacy.interrupted (requestFn a) then [Emit cancelled] else []),
      0%nat.
    rewrite Z.add_0_r. repeat split; auto. intros i Hi. lia. }
  unfold Legacy.verdict in Hlast.
  destruct (Legacy.outcome (requestFn a)) as [v|e] eqn:Ho.
  - apply Hlast. congruence.
  - destruct (Legacy.is_status (Legacy.status e) 401) eqn:H401.
    + inversion H; subst s' r. clear H.
      exists ((if Legacy.interrupted (requestFn a) then [Emit cancelled]
               else []) ++ [Emit tokenExpired]), 0%nat.
      split.
      { unfold Legacy.emit, Legacy.record. cbn [Legacy.trace].
        rewrite Ht, <- app_assoc. reflexivity. }
      split; [exact Hc|]. split; [intros i Hi; lia|].
      rewrite requests_app, Q1.
      split; [reflexivity|]. split.
      { destruct (Legacy.interrupted (requestFn a)); reflexivity. }
      unfold Legacy.verdict. rewrite Z.add_0_r, Ho, H401. reflexivity.
    + destruct (Legacy.retryable (Legacy.status e));
        [|apply Hlast; congruence].
      rewrite Hc in H.
      destruct (le_spec (inject_Z a)
                  (Legacy.retryAttempts (Legacy.config s)))
        as [Hle|Hgt]; [|apply Hlast; congruence].
      apply IH in H.
      destruct H as (tr & k & Ht' & Hc' & Hin & Hr & Hw & Hv).
      cbn [Legacy.trace Legacy.config Legacy.now Legacy.setTimeout
           Legacy.elapse Legacy.emit Legacy.record] in Ht', Hc', Hin.
      rewrite Hc in Hc', Hin.
      eexists _, (S k). split.
      { rewrite Ht', Ht, <- !app_assoc. simpl. reflexivity. }
      split; [exact Hc'|].
      split; [intros i Hi;
              destruct (Z.eq_dec i a); [subst; exact Hle | apply Hin; lia]|].
      split; [rewrite requests_app, Q1; simpl; f_equal; exact Hr|]. split.
      { destruct (Legacy.interrupted (requestFn a)); simpl; exact Hw. }
      rewrite Hv. f_equal. lia.
Qed.

Lemma older_retry_total :
  forall (fuel : nat) (a : Z) (s : Legacy.Service),
    (Z.to_nat (Qfloor (Legacy.retryAttempts (Legacy.config s)) + 1 - a)
     < fuel)%nat ->
    exists s' r, Legacy.retry fuel req requestFn a s = Some (s', r).
Proof.
  induction fuel as [|fuel IH]; intros a s Hfuel; [lia|].
  simpl.
  destruct (older_invoke_frame (requestFn a) s) as (Hc & _).
  destruct (Legacy.outcome (requestFn a)) as [v|e]; eauto.
  destruct (Legacy.is_status _ 401); eauto.
  destruct (Legacy.retryable _); eauto.
  rewrite Hc.
  destruct (le_spec (inject_Z a) (Legacy.retryAttempts (Legacy.config s)))
    as [Hle|_]; eauto.
  apply le_floor in Hle. apply IH. simpl. rewrite Hc. lia.
Qed.

End OlderExecutor.

(** X19.  The executor of the older module never paces: the first request
    leaves at once and no pacing timer is ever started; it sends the
    request at most [retryAttempts + 1] times; and the call ends as the
    reply to the last attempt says: with the value, with the
    token-expired error for a 401, and otherwise with the very error of
    that reply, thrown as it is, response included. *)
Theorem older_executor_throws_the_error_as_it_is :
  forall (T : Type) (req : Request) (requestFn : Z -> Legacy.Reply T)
         (s : Legacy.Service),
    exists (s' : Legacy.Service) (r : result Legacy.Thrown T)
           (tr : list Effect) (k : nat),
      Legacy._retryableRequest req requestFn s = Some (s', r)
      /\ Legacy.trace s' = Legacy.trace s ++ Dispatch (Legacy.now s) req :: tr
      /\ (k <= Z.to_nat (Qfloor (Legacy.retryAttempts (Legacy.config s))))%nat
      /\ Spec.requests tr = repeat req k
      /\ Log.waited Pacing tr = 0%Q
      /\ r = Legacy.verdict requestFn (1 + Z.of_nat k).
Proof.
  intros T req requestFn s.
  destruct (older_retry_total req requestFn
              (S (Z.to_nat (Qfloor (Legacy.retryAttempts (Legacy.config s)))))
              1 s)
    as (s' & r & E); [lia|].
  exists s', r.
  destruct (older_retry_schedule req requestFn _ 1 s s' r E)
    as (tr & k & Ht & _ & Hin & Hr & Hw & Hv).
  exists tr, k. split; [exact E|]. split; [exact Ht|].
  split; [|auto].
  destruct k as [|k]; [lia|].
  specialize (Hin (Z.of_nat (S k)) ltac:(lia)).
  apply le_floor in Hin. lia.
Qed.

Lemma older_executor_throws_the_error_as_it_is_witness :
  exists s' tr,
    Legacy._retryableRequest Spec.sample_request
      (Sample.older_always_fails 503) Sample.older_service
    = Some (s', Err (Legacy.Rethrown {| Legacy.status := Some 503;
                                        Legacy.message := "boom" |}))
    /\ Legacy.trace s' = Dispatch 10000 Spec.sample_request :: tr
    /\ length (Spec.requests tr) = 3%nat.
Proof.
  destruct (older_executor_throws_the_error_as_it_is unit Spec.sample_request
              (Sample.older_always_fails 503) Sample.older_service)
    as (s' & r & tr & k & E & Ht & Hk & Hr & _ & Hv).
  exists s', tr.
  assert (Er : r = Err (Legacy.Rethrown {| Legacy.status := Some 503;
                                           Legacy.message := "boom" |})).
  { rewrite Hv. reflexivity. }
  subst r. split; [exact E|]. split; [exact Ht|].
  vm_compute in E. inversion E as [Hs]. clear E.
  rewrite <- Hs in Ht. simpl in Ht. inversion Ht as [Htr].
  reflexivity.
Defined.

Lemma retryable_agree (st : option Z) :
  (forall z, st = Some z -> z < 600) ->
  Legacy.retryable st = Service.retryable st.
Proof.
  intros H. destruct st as [z|]; [|reflexivity].
  specialize (H z eq_refl).
  unfold Legacy.retryable, Service.retryable, Service.is_status,
    Service.status_or_zero.
  destruct (Z.ltb_spec z 600); [|lia].
  rewrite andb_true_r. reflexivity.
Qed.

Lemma shape_app (a b : list Effect) :
  Versions.shape (a ++ b) = Versions.shape a ++ Versions.shape b.
Proof. apply flat_map_app. Qed.

(** One attempt leaves the same effects in both versions, up to the
    pacing wait and the instant of the dispatch. *)
Lemma attempt_shape {T} (req : Request) (requestFn : Z -> Reply T)
    (a : Z) (s : Service) :
  Versions.shape (Spec.attempt_effects req requestFn a s)
  = Dispatch 0 req :: (if interrupted (requestFn a) then [Emit cancelled]
                       else []).
Proof.
  unfold Spec.attempt_effects, Spec.pacing_effects, Spec.invoke_effects.
  destruct (Service.pacingWait s), (interrupted (requestFn a)); reflexivity.
Qed.

Lemma retry_versions_agree {T} (req : Request) (fnT : Z -> Reply T)
    (fnL : Z -> Legacy.Reply T) :
  (forall i, Versions.same_reply (fnT i) (fnL i)) ->
  Versions.below_600 fnT ->
  forall (fuel fuelL : nat) (a : Z) (s s' : Service)
         (sL sL' : Legacy.Service) (r : result Thrown T)
         (rL : result Legacy.Thrown T),
    retryAttempts (config s) = Legacy.retryAttempts (Legacy.config sL) ->
    retryDelay (config s) = Legacy.retryDelay (Legacy.config sL) ->
    Service.retry fuel req fnT a s = Some (s', r) ->
    Legacy.retry fuelL req fnL a sL = Some (sL', rL) ->
    Versions.same_result r rL
    /\ exists tr trL,
         trace s' = trace s ++ tr
         /\ Legacy.trace sL' = Legacy.trace sL ++ trL
         /\ Versions.shape tr = Versions.shape trL.
Proof.
  intros Hsame Hlow.
  induction fuel as [|fuel IH]; intros [|fuelL] a s s' sL sL' r rL Hn Hd H HL;
    try discriminate.
  simpl in H, HL.
  destruct (settled_frame req fnT a s) as (Hc & _ & _ & Ht).
  unfold Spec.settled in Hc, Ht.
  destruct (older_invoke_frame req (fnL a) sL) as (HcL & HtL).
  pose proof (attempt_shape req fnT a s) as Hshape.
  destruct (Hsame a) as (_ & Hint & Hout).
  set (s2 := Service.invoke req (fnT a) (Service._rateLimit s)) in *.
  set (sL2 := Legacy.invoke req (fnL a) sL) in *.
  assert (Hone : exists tr trL,
             trace s2 = trace s ++ tr
             /\ Legacy.trace sL2 = Legacy.trace sL ++ trL
             /\ Versions.shape tr = Versions.shape trL).
  { eexists _, _. split; [exact Ht|]. split; [exact HtL|].
    rewrite Hshape, Hint.
    destruct (Legacy.interrupted (fnL a)); reflexivity. }
  pose proof (Hlow a) as Hlow_a.
  destruct (outcome (fnT a)) as [v|[st dm msg|msg|shown]];
    destruct (Legacy.outcome (fnL a)) as [vL|e]; try contradiction.
  - inversion H; inversion HL; subst s' r sL' rL.
    split; [exact Hout | exact Hone].
  - destruct Hout as [Hst Hmsg]. rewrite Hst in HL.
    change (Legacy.is_status st 401) with (Service.is_status st 401) in HL.
    rewrite retryable_agree in HL
      by (intros z Hz; apply (Hlow_a z dm msg); rewrite Hz; reflexivity).
    destruct (Service.is_status st 401).
    + inversion H; inversion HL; subst s' r sL' rL. split; [exact I|].
      eexists _, _. rewrite trace_emit, Ht.
      unfold Legacy.emit, Legacy.record. cbn [Legacy.trace]. rewrite HtL.
      rewrite <- !app_assoc. split; [reflexivity|]. split; [reflexivity|].
      rewrite !shape_app, Hshape, Hint.
      destruct (Legacy.interrupted (fnL a)); reflexivity.
    + rewrite Hc in H. rewrite HcL, <- Hn, <- Hd in HL.
      destruct (Service.retryable st);
        [destruct (Qle_bool (inject_Z a) (retryAttempts (config s)))|];
        try (inversion H; inversion HL; subst s' r sL' rL;
             split; [exact Hst | exact Hone]).
      pose proof (fun Hx Hy => IH _ _ _ _ _ _ _ _ Hx Hy H HL) as Hgo.
      destruct Hgo as (Hres & tr & trL & E & EL & Hsh).
      { cbn [config Service.setTimeout Service.elapse Service.emit
             Service.record Legacy.config Legacy.setTimeout Legacy.elapse
             Legacy.emit Legacy.record].
        rewrite Hc, HcL. exact Hn. }
      { cbn [config Service.setTimeout Service.elapse Service.emit
             Service.record Legacy.config Legacy.setTimeout Legacy.elapse
             Legacy.emit Legacy.record].
        rewrite Hc, HcL. exact Hd. }
      split; [exact Hres|].
      cbn [trace Service.setTimeout Service.elapse Service.emit
           Service.record Legacy.trace Legacy.setTimeout Legacy.elapse
           Legacy.emit Legacy.record] in E, EL.
      rewrite Ht in E. rewrite HtL in EL.
      rewrite <- !app_assoc in E, EL.
      eexists _, _. split; [exact E|]. split; [exact EL|].
      rewrite !shape_app, Hshape, Hint, Hsh, Hmsg.
      unfold Service.backoffDelay.
      destruct (Legacy.interrupted (fnL a)); reflexivity.
Qed.

(** X20.  On replies without a status of 600 or more the two versions of
    the executor do the same: with the same retry ceiling and base
    delay they send the same requests and notify and wait for the same
    retries, in the same order (the service adding its pacing waits),
    and they end in the same way, except that the service wraps the
    last error into an API error where the older module throws it as it
    is. *)
Theorem executors_agree_below_600 :
  forall (T : Type) (req : Request) (fnT : Z -> Reply T)
         (fnL : Z -> Legacy.Reply T) (s s' : Service)
         (sL sL' : Legacy.Service) (r : result Thrown T)
         (rL : result Legacy.Thrown T),
    (forall i, Versions.same_reply (fnT i) (fnL i)) ->
    Versions.below_600 fnT ->
    retryAttempts (config s) = Legacy.retryAttempts (Legacy.config sL) ->
    retryDelay (config s) = Legacy.retryDelay (Legacy.config sL) ->
    Service._retryableRequest req fnT s = Some (s', r) ->
    Legacy._retryableRequest req fnL sL = Some (sL', rL) ->
    Versions.same_result r rL
    /\ exists tr trL,
         trace s' = trace s ++ tr
         /\ Legacy.trace sL' = Legacy.trace sL ++ trL
         /\ Versions.shape tr = Versions.shape trL.
Proof.
  intros T req fnT fnL s s' sL sL' r rL Hsame Hlow Hn Hd H HL.
  exact (retry_versions_agree req fnT fnL Hsame Hlow _ _ 1 s s' sL sL' r rL
           Hn Hd H HL).
Qed.

Lemma executors_agree_below_600_witness :
  exists s' sL' tr trL,
    Service._retryableRequest Spec.sample_request (Spec.always_fails 503)
      Spec.sample_service
    = Some (s', Err (ApiError "boom" (Some 503)))
    /\ Legacy._retryableRequest Spec.sample_request
         (Sample.older_always_fails 503) Sample.older_service
       = Some (sL', Err (Legacy.Rethrown {| Legacy.status := Some 503;
                                            Legacy.message := "boom" |}))
    /\ trace s' = trace Spec.sample_service ++ tr
    /\ Legacy.trace sL' = Legacy.trace Sample.older_service ++ trL
    /\ Versions.shape tr = Versions.shape trL.
Proof.
  destruct (Service._retryableRequest Spec.sample_request
              (Spec.always_fails 503) Spec.sample_service)
    as [[s' r]|] eqn:E; [|vm_compute in E; discriminate].
  destruct (Legacy._retryableRequest Spec.sample_request
              (Sample.older_always_fails 503) Sample.older_service)
    as [[sL' rL]|] eqn:EL; [|vm_compute in EL; discriminate].
  destruct (executors_agree_below_600 unit Spec.sample_request
              (Spec.always_fails 503) (Sample.older_always_fails 503)
              Spec.sample_service s' Sample.older_service sL' r rL)
    as (_ & tr & trL & Ht & HtL & Hsh).
  - intros i. repeat split.
  - intros i st dm msg H. inversion H. lia.
  - reflexivity.
  - reflexivity.
  - exact E.
  - exact EL.
  - exists s', sL', tr, trL.
    assert (Er : r = Err (ApiError "boom" (Some 503))).
    { vm_compute in E. inversion E. reflexivity. }
    assert (ErL : rL = Err (Legacy.Rethrown {| Legacy.status := Some 503;
                                              Legacy.message := "boom" |})).
    { vm_compute in EL. inversion EL. reflexivity. }
    subst r rL. repeat split; assumption.
Defined.

(** X21.  From status 600 on the two versions differ: the older module
    retries a status from 500 to 599 only, and throws an error with a
    status of 600 or more at once, after one request; the service,
    whose test has no upper limit, retries it. *)
Theorem executors_differ_from_600 :
  forall (T : Type) (req : Request) (fnT : Z -> Reply T)
         (fnL : Z -> Legacy.Reply T) (s : Service) (sL : Legacy.Service)
         (st : Z) (dataMessage : option string) (message : string),
    Versions.same_reply (fnT 1) (fnL 1) ->
    outcome (fnT 1) = Rejected (AxiosError (Some st) dataMessage message) ->
    600 <= st ->
    (1 <= retryAttempts (config s))%Q ->
    (exists (sL' : Legacy.Service) (e : Legacy.Failure),
        Legacy._retryableRequest req fnL sL
        = Some (sL', Err (Legacy.Rethrown e))
        /\ Legacy.status e = Some st
        /\ Spec.requests (Legacy.trace sL')
           = Spec.requests (Legacy.trace sL) ++ [req]
        /\ Spec.backoffs (Legacy.trace sL')
           = Spec.backoffs (Legacy.trace sL))
    /\ (exists (s' : Service) (r : result Thrown T) (tr : list Effect)
               (k : nat),
           Service._retryableRequest req fnT s = Some (s', r)
           /\ trace s' = trace s ++ tr
           /\ Spec.requests tr = req :: req :: repeat req k
           /\ exists delay, (delay == retryDelay (config s))%Q
                            /\ In (Emit (retrying 1 delay message)) tr).
Proof.
  intros T req fnT fnL s sL st dm msg (_ & _ & Hout) Ho Hst Ha.
  rewrite Ho in Hout. split.
  - destruct (Legacy.outcome (fnL 1)) as [v|e] eqn:HoL; [contradiction|].
    destruct Hout as [Hs Hm].
    exists (Legacy.invoke req (fnL 1) sL), e.
    assert (H401 : Legacy.is_status (Legacy.status e) 401 = false).
    { rewrite Hs. simpl. apply Z.eqb_neq. lia. }
    assert (Hret : Legacy.retryable (Legacy.status e) = false).
    { rewrite Hs. simpl.
      destruct (Z.eqb_spec st 429); [lia|].
      destruct (Z.ltb_spec st 600); [lia|].
      rewrite andb_false_r. reflexivity. }
    split.
    { unfold Legacy._retryableRequest. cbn [Legacy.retry].
      rewrite HoL, H401, Hret. reflexivity. }
    split; [exact Hs|].
    destruct (older_invoke_frame req (fnL 1) sL) as (_ & Ht).
    rewrite Ht. autorewrite with trace.
    destruct (Legacy.interrupted (fnL 1)); simpl; rewrite ?app_nil_r;
      split; reflexivity.
  - destruct (first_failure_is_retried req fnT s st dm msg Ho
                ltac:(right; lia) Ha)
      as (s' & r & tr & k & E & Ht & Hr & delay & Hd & Hin & _).
    exists s', r, tr, k. repeat (split; [assumption|]).
    exists delay. split; assumption.
Qed.

Lemma executors_differ_from_600_witness :
  exists sL' s' tr,
    Legacy._retryableRequest Spec.sample_request
      (Sample.older_fails_once 600) Sample.older_service
    = Some (sL', Err (Legacy.Rethrown {| Legacy.status := Some 600;
                                         Legacy.message := "boom" |}))
    /\ Service._retryableRequest Spec.sample_request (Sample.fails_once 600)
         Spec.sample_service = Some (s', Ok tt)
    /\ trace s' = trace Spec.sample_service ++ tr
    /\ length (Spec.requests tr) = 2%nat.
Proof.
  destruct (executors_differ_from_600 unit Spec.sample_request
              (Sample.fails_once 600) (Sample.older_fails_once 600)
              Spec.sample_service Sample.older_service 600 None "boom"%string)
    as ((sL' & e & EL & _) & (s' & r & tr & k & E & Ht & Hr & _)).
  - repeat split.
  - reflexivity.
  - lia.
  - discriminate.
  - exists sL', s', tr.
    assert (Ee : e = {| Legacy.status := Some 600;
                        Legacy.message := "boom" |}).
    { pose proof EL as EL'. vm_compute in EL'. inversion EL'. reflexivity. }
    assert (Er : r = Ok tt).
    { pose proof E as E'. vm_compute in E'. inversion E'. reflexivity. }
    subst e r. split; [exact EL|]. split; [exact E|]. split; [exact Ht|].
    vm_compute in E. inversion E as [Hs]. clear E.
    rewrite <- Hs in Ht. simpl in Ht. rewrite <- Ht. reflexivity.
Defined.


(** ** Time *)

Lemma timeout_le (ms bound : Q) :
  (ms <= bound)%Q -> (1 <= bound)%Q -> (Js.timeout ms <= bound)%Q.
Proof.
  intros H1 H2. unfold Js.timeout.
  destruct (Qle_bool 1 ms && Qle_bool ms Js.TIMEOUT_MAX); assumption.
Qed.

Lemma waited_nonneg (k : Timer) (tr : list Effect) :
  (0 <= Log.waited k tr)%Q.
Proof.
  induction tr as [|e tr IH]; [apply Qle_refl|].
  destruct e as [ev|t ms|at_ q]; try exact IH.
  pose proof (timeout_pos ms) as Hpos.
  unfold Log.waited in *. cbn [fold_right].
  destruct t, k; try exact IH; lra.
Qed.

Lemma rateLimit_clock (s : Service) :
  (now (Service._rateLimit s)
   == now s + Log.waited Pacing (Spec.pacing_effects s))%Q
  /\ lastRequestTime (Service._rateLimit s) = now (Service._rateLimit s)
  /\ ((1 <= rateLimit (config s))%Q ->
      (rateLimit (config s) <= 1000)%Q ->
      (lastRequestTime s <= now s)%Q ->
      (Log.waited Pacing (Spec.pacing_effects s)
       <= Service.minRequestInterval s)%Q).
Proof.
  unfold Service._rateLimit, Spec.pacing_effects, Service.pacingWait.
  destruct (lt_spec (now s - lastRequestTime s) (Service.minRequestInterval s))
    as [E|E];
    cbn [now lastRequestTime Service.setTimeout Service.elapse Service.record
         Service.set_lastRequestTime Log.waited fold_right].
  - split; [lra|]. split; [reflexivity|]. intros H1 H2 Hl.
    assert (Hi : (1 <= Service.minRequestInterval s)%Q).
    { unfold Service.minRequestInterval. apply Qle_shift_div_l; lra. }
    pose proof (timeout_le
                  (Service.minRequestInterval s
                   - (now s - lastRequestTime s))
                  (Service.minRequestInterval s) ltac:(lra) Hi).
    lra.
  - split; [lra|]. split; [reflexivity|]. intros H1 _ _.
    apply (interval_nonneg s H1).
Qed.

Lemma invoke_clock {T} (req : Request) (r : Reply T) (s : Service) :
  now (Service.invoke req r s) = (now s + latency r)%Q
  /\ lastRequestTime (Service.invoke req r s) = lastRequestTime s.
Proof.
  unfold Service.invoke, Service.interrupt.
  destruct (interrupted r); split; reflexivity.
Qed.

Lemma attempt_waits {T} (req : Request) (requestFn : Z -> Reply T)
    (a : Z) (s : Service) :
  Log.waited Pacing (Spec.attempt_effects req requestFn a s)
  = Log.waited Pacing (Spec.pacing_effects s)
  /\ Log.waited Backoff (Spec.attempt_effects req requestFn a s) = 0%Q.
Proof.
  unfold Spec.attempt_effects, Spec.pacing_effects, Spec.invoke_effects.
  destruct (Service.pacingWait s), (interrupted (requestFn a));
    split; reflexivity.
Qed.

Section Clock.
Import Service.
Context {T : Type}.
Variable req : Request.
Variable requestFn : Z -> Reply T.

(** The clock of a call: it advances by the pacing waits, the backoff
    waits and the time the attempts are pending. *)
Lemma retry_clock :
  forall (fuel : nat) (a : Z) (s s' : Service) (r : result Thrown T),
    retry fuel req requestFn a s = Some (s', r) ->
    exists (tr : list Effect) (k : nat),
      trace s' = trace s ++ tr
      /\ Spec.requests tr = repeat req (S k)
      /\ (now s' == now s + Log.waited Pacing tr + Log.waited Backoff tr
                    + Log.spent requestFn a (S k))%Q
      /\ ((1 <= rateLimit (config s))%Q ->
          (rateLimit (config s) <= 1000)%Q ->
          (lastRequestTime s <= now s)%Q ->
          (Log.waited Pacing tr
           <= inject_Z (Z.of_nat (S k)) * minRequestInterval s)%Q
          /\ (lastRequestTime s' <= now s')%Q).
Proof.
  induction fuel as [|fuel IH]; intros a s s' r H; [discriminate|].
  simpl in H.
  destruct (settled_frame req requestFn a s) as (Hc & _ & _ & Ht).
  unfold Spec.settled in Hc, Ht.
  destruct (rateLimit_clock s) as (Hn1 & Hl1 & Hw1).
  pose proof (waited_nonneg Pacing (Spec.pacing_effects s)) as Hw0.
  destruct (invoke_clock req (requestFn a) (_rateLimit s)) as (Hn2 & Hl2).
  destruct (attempt_waits req requestFn a s) as (Wp & Wb).
  pose proof (attempt_effects_requests req requestFn a s) as Q1.
  set (s2 := invoke req (requestFn a) (_rateLimit s)) in *.
  assert (Hone : forall (s0 : Service) (tail : list Effect),
    trace s0 = trace s2 ++ tail -> now s0 = now s2 ->
    lastRequestTime s0 = lastRequestTime s2 ->
    Spec.requests tail = [] -> Log.waited Pacing tail = 0%Q ->
    Log.waited Backoff tail = 0%Q ->
    exists (tr : list Effect) (k : nat),
      trace s0 = trace s ++ tr
      /\ Spec.requests tr = repeat req (S k)
      /\ (now s0 == now s + Log.waited Pacing tr + Log.waited Backoff tr
                    + Log.spent requestFn a (S k))%Q
      /\ ((1 <= rateLimit (config s))%Q ->
          (rateLimit (config s) <= 1000)%Q ->
          (lastRequestTime s <= now s)%Q ->
          (Log.waited Pacing tr
           <= inject_Z (Z.of_nat (S k)) * minRequestInterval s)%Q
          /\ (lastRequestTime s0 <= now s0)%Q)).
  { intros s0 tail Ht0 Hn0 Hl0 Hq Hp Hb.
    exists (Spec.attempt_effects req requestFn a s ++ tail), 0%nat.
    split; [rewrite Ht0, Ht, app_assoc; reflexivity|].
    split; [rewrite requests_app, Q1, Hq; reflexivity|].
    rewrite !waited_app, Wp, Wb, Hp, Hb, Hn0, Hn2, Hl0, Hl2, Hl1.
    unfold Log.spent. simpl. split; [rewrite Hn1; ring|].
    intros Hr Hd Hlast. specialize (Hw1 Hr Hd Hlast).
    pose proof (latency_nonneg (requestFn a)) as Hlat.
    split; [|lra].
    change (inject_Z 1) with 1%Q. lra. }
  assert (Hplain : (s', r) = (s2, r) ->
    exists (tr : list Effect) (k : nat),
      trace s' = trace s ++ tr
      /\ Spec.requests tr = repeat req (S k)
      /\ (now s' == now s + Log.waited Pacing tr + Log.waited Backoff tr
                    + Log.spent requestFn a (S k))%Q
      /\ ((1 <= rateLimit (config s))%Q ->
          (rateLimit (config s) <= 1000)%Q ->
          (lastRequestTime s <= now s)%Q ->
          (Log.waited Pacing tr
           <= inject_Z (Z.of_nat (S k)) * minRequestInterval s)%Q
          /\ (lastRequestTime s' <= now s')%Q)).
  { intros E. inversion E; subst s'.
    apply (Hone s2 []); auto. rewrite app_nil_r. reflexivity. }
  destruct (outcome (requestFn a)) as [v|[st dm msg|msg|shown]].
  - apply Hplain. congruence.
  - destruct (is_status st 401).
    + inversion H; subst s' r.
      apply (Hone (emit tokenExpired s2) [Emit tokenExpired]);
        reflexivity.
    + destruct (retryable st); [|apply Hplain; congruence].
      rewrite Hc in H.
      destruct (Qle_bool (inject_Z a) (retryAttempts (config s)));
        [|apply Hplain; congruence].
      apply IH in H.
      destruct H as (tr & k & Ht' & Hr' & Hn' & Hb').
      cbn [trace now config lastRequestTime setTimeout elapse emit record
           minRequestInterval] in Ht', Hn', Hb'.
      exists (Spec.attempt_effects req requestFn a s
              ++ [Emit (retrying a (backoffDelay (config s) a) msg);
                  Timeout Backoff (backoffDelay (config s) a)]
              ++ tr), (S k).
      split; [rewrite Ht', Ht, <- !app_assoc; reflexivity|].
      split; [rewrite !requests_app, Q1, Hr'; reflexivity|].
      rewrite !waited_app, Wp, Wb.
      cbn [Log.waited fold_right].
      change (Log.spent requestFn a (S (S k)))
        with (latency (requestFn a) + Log.spent requestFn (a + 1) (S k))%Q.
      split; [rewrite Hn', Hn2, Hn1; lra|].
      intros Hr Hd Hlast.
      pose proof (timeout_pos (backoffDelay (config s) a)) as Hdelay.
      specialize (Hw1 Hr Hd Hlast).
      pose proof (latency_nonneg (requestFn a)) as Hlat_a.
      unfold minRequestInterval in Hb'.
      cbn [config setTimeout elapse emit record] in Hb'.
      rewrite Hc in Hb'. fold (minRequestInterval s) in Hb'.
      destruct Hb' as (B1 & B4); auto.
      { rewrite Hl2, Hl1, Hn2. lra. }
      split; [|exact B4].
      replace (Z.of_nat (S (S k))) with (1 + Z.of_nat (S k)) by lia.
      rewrite inject_Z_plus. change (inject_Z 1) with 1%Q. lra.
  - apply Hplain. congruence.
  - apply Hplain. congruence.
Qed.

End Clock.

Lemma spent_nonneg {T} (requestFn : Z -> Reply T) (n : nat) :
  forall a, (0 <= Log.spent requestFn a n)%Q.
Proof.
  unfold Log.spent.
  induction n as [|n IH]; intros a; simpl; [lra|].
  specialize (IH (a + 1)). pose proof (latency_nonneg (requestFn a)). lra.
Qed.

(** X22.  The time a call through the executor takes is the time its
    pacing timers and its backoff timers take and the time its attempts
    are pending, and nothing else: every request leaves at the instant
    the clock then shows, and the clock never goes back.  A timer takes
    the time Node gives it, which for a delay below 1 ms or above
    2147483647 ms is 1 ms and not the delay.  When the request rate is
    between 1 and 1000 per second and the clock is not behind the last
    recorded request, each attempt is held back by pacing for at most
    one interval [1000 / rateLimit]. *)
Theorem executor_time_is_accounted_for :
  forall (T : Type) (req : Request) (requestFn : Z -> Reply T) (s : Service),
    exists (s' : Service) (r : result Thrown T) (tr : list Effect) (k : nat),
      Service._retryableRequest req requestFn s = Some (s', r)
      /\ trace s' = trace s ++ tr
      /\ Spec.requests tr = repeat req (S k)
      /\ Spec.timeline Spec.actual requestFn 1 (now s) tr (now s')
      /\ (now s' == now s + Log.waited Pacing tr + Log.waited Backoff tr
                    + Log.spent requestFn 1 (S k))%Q
      /\ (now s <= now s')%Q
      /\ ((1 <= rateLimit (config s))%Q ->
          (rateLimit (config s) <= 1000)%Q ->
          (lastRequestTime s <= now s)%Q ->
          (Log.waited Pacing tr
           <= inject_Z (Z.of_nat (S k)) * Service.minRequestInterval s)%Q
          /\ (lastRequestTime s' <= now s')%Q).
Proof.
  intros T req requestFn s.
  destruct (executor_returns req requestFn s) as (s' & r & E).
  exists s', r.
  destruct (retry_clock req requestFn _ 1 s s' r E)
    as (tr & k & Ht & Hr & Hn & Hb).
  destruct (retry_schedule req requestFn _ 1 s s' r E)
    as (tr0 & k0 & Ht0 & _ & _ & _ & _ & _ & _ & _ & _ & Hti).
  assert (Etr : tr0 = tr).
  { rewrite Ht in Ht0. apply app_inv_head in Ht0. symmetry. exact Ht0. }
  subst tr0.
  exists tr, k. repeat (split; [assumption|]).
  split; [|exact Hb].
  pose proof (spent_nonneg requestFn (S k) 1).
  pose proof (waited_nonneg Pacing tr). pose proof (waited_nonneg Backoff tr).
  lra.
Qed.

Lemma executor_time_is_accounted_for_witness :
  exists s',
    Service._retryableRequest Spec.sample_request (Spec.always_fails 503)
      Spec.sample_service
    = Some (s', Err (ApiError "boom" (Some 503)))
    /\ (now Spec.sample_service == 10000)%Q
    /\ (now s' == 17400)%Q
    /\ (lastRequestTime s' <= now s')%Q.
Proof.
  destruct (executor_time_is_accounted_for unit Spec.sample_request
              (Spec.always_fails 503) Spec.sample_service)
    as (s' & r & tr & k & E & Ht & Hr & _ & Hn & _ & Hb).
  exists s'.
  assert (Er : r = Err (ApiError "boom" (Some 503)) /\ (now s' == 17400)%Q).
  { pose proof E as E'. vm_compute in E'. inversion E'.
    split; reflexivity. }
  destruct Er as [Er Hnow]. subst r.
  split; [exact E|]. split; [reflexivity|]. split; [exact Hnow|].
  apply Hb; discriminate.
Defined.
(** ** Pacing when nothing runs concurrently *)

Lemma stamped_emit (e : Event) (s : Service) :
  Spec.stamped s -> Spec.stamped (Service.emit e s).
Proof.
  intros H. apply (stamped_quiet s (Service.emit e s) [Emit e]); quiet.
  exact H.
Qed.

Lemma stamped_elapse (ms : Q) (s : Service) :
  (0 <= ms)%Q -> Spec.stamped s -> Spec.stamped (Service.elapse ms s).
Proof.
  intros Hms H. apply (stamped_quiet s (Service.elapse ms s) []);
    try reflexivity; [| |exact H].
  - simpl. rewrite app_nil_r. reflexivity.
  - simpl. lra.
Qed.

Lemma stamped_interrupt (b : bool) (s : Service) :
  Spec.stamped s -> Spec.stamped (Service.interrupt b s).
Proof.
  intros H. destruct b; [|exact H].
  apply (stamped_quiet s (Service.cancel s) [Emit cancelled]); quiet.
  exact H.
Qed.

Lemma finish_stamped (w : World) (t : Download.Task)
    (r : result Thrown unit) (d : Download.State) :
  Spec.stamped (Download.svc d) ->
  Spec.stamped (Download.svc (Download.finish w t r d)).
Proof.
  intros Hs. unfold Download.finish.
  destruct r as [v|e].
  - assert (H1 : Spec.stamped
                   (Service.interrupt
                      (interrupted (writeReply w (Download.index t)))
                      (Service.elapse
                         (latency (writeReply w (Download.index t)))
                         (Download.svc d)))).
    { apply stamped_interrupt, stamped_elapse;
        [apply latency_nonneg | exact Hs]. }
    destruct (outcome (writeReply w (Download.index t))) as [v'|e].
    + apply stamped_emit. exact H1.
    + apply stamped_emit. exact H1.
  - apply stamped_emit. exact Hs.
Qed.

Lemma alone_stamped (w : World) (t : Download.Task) (d d' : Download.State) :
  Download.alone w t d = Some d' ->
  (1 <= rateLimit (config (Download.svc d)))%Q ->
  Spec.stamped (Download.svc d) ->
  Spec.stamped (Download.svc d').
Proof.
  unfold Download.alone. intros H Hr Hs.
  pose proof (stamped_emit (downloadStarted (Download.id t)) _ Hs) as H0.
  destruct (Service._retryableRequest (CombinedDocument (Download.id t))
              (docReply w (Download.index t))
              (Download.svc
                 (Download.lift
                    (Service.emit (downloadStarted (Download.id t))) d)))
    as [[s1 r]|] eqn:E; [|discriminate].
  inversion H; subst d'. clear H.
  apply finish_stamped. cbn [Download.svc].
  exact (retry_stamped _ _ _ _ _ _ _ E Hr H0).
Qed.

Lemma each_chunk_stamped (w : World) :
  forall (cs : list (list Envelope)) (base : nat) (d d' : Download.State),
    Forall (fun chunk => length chunk = 1%nat) cs ->
    Download.each_chunk w base cs d = Some d' ->
    (1 <= rateLimit (config (Download.svc d)))%Q ->
    Spec.stamped (Download.svc d) ->
    Spec.stamped (Download.svc d').
Proof.
  induction cs as [|chunk cs IH]; intros base d d' Hone H Hr Hs.
  - inversion H; subst. exact Hs.
  - simpl in H. destruct (isCancelled (Download.svc d)).
    + inversion H; subst. exact Hs.
    + inversion Hone as [|x l Hlen Hrest]; subst x l.
      destruct chunk as [|e [|e' chunk]]; try discriminate.
      rewrite single_download_runs_alone in H.
      destruct (Download.alone w _ d) as [d1|] eqn:E; [|discriminate].
      pose proof (alone_stamped w _ d d1 E Hr Hs) as Hs1.
      assert (Hc1 : config (Download.svc d1) = config (Download.svc d)).
      { rewrite <- single_download_runs_alone in E.
        destruct (run_chunk_run w (config (Download.svc d)) base [e] d
                    eq_refl) as (d2 & tr & E2 & (Hc & _) & _).
        rewrite E in E2. inversion E2; subst d2. exact Hc. }
      apply (IH _ d1 d' Hrest H); [rewrite Hc1; exact Hr | exact Hs1].
Qed.

Lemma singletons {A} (cs : list (list A)) :
  Spec.partitioned 1 cs -> Forall (fun chunk => length chunk = 1%nat) cs.
Proof.
  intros [Hnil|(front & last & Hcs & Hfront & Hlast)]; subst cs.
  - constructor.
  - apply Forall_app. split; [exact Hfront|].
    constructor; [lia | constructor].
Qed.

Lemma download_stamped (w : World) (s s' : Service)
    (r : result Thrown unit) :
  (maxConcurrent (config s) == 1)%Q ->
  (1 <= rateLimit (config s))%Q ->
  Download.downloadDocuments w s = Some (s', r) ->
  Spec.stamped s -> Spec.stamped s'.
Proof.
  intros Hm Hr H Hs. unfold Download.downloadDocuments in H.
  destruct ((length (envelopes s) =? 0)%nat || isCancelled s).
  { inversion H; subst. exact Hs. }
  assert (Hs1 : Spec.stamped (Download.ensureDir w s)).
  { apply stamped_interrupt, stamped_elapse;
      [apply latency_nonneg | exact Hs]. }
  assert (Hc1 : config (Download.ensureDir w s) = config s).
  { unfold Download.ensureDir.
    destruct (interrupted (ensureDirReply w)); reflexivity. }
  destruct (outcome (ensureDirReply w)) as [v|e].
  - destruct (Download.each_chunk w 0
                (Download.chunks (envelopes (Download.ensureDir w s))
                   (maxConcurrent (config (Download.ensureDir w s))))
                {| Download.svc := Download.ensureDir w s;
                   Download.downloadedCount := 0 |}) as [d'|] eqn:E;
      [|discriminate].
    inversion H; subst s' r. clear H.
    apply stamped_emit. rewrite Hc1 in E.
    assert (Hone : (1 <= maxConcurrent (config s))%Q)
      by (rewrite Hm; apply Qle_refl).
    apply (each_chunk_stamped w _ 0%nat
             {| Download.svc := Download.ensureDir w s;
                Download.downloadedCount := 0 |} d'
             (singletons _
                (proj2 (chunks_spec (envelopes (Download.ensureDir w s))
                          (maxConcurrent (config s)) 1 Hone Hm))) E);
      [cbn [Download.svc]; rewrite Hc1; exact Hr | exact Hs1].
  - inversion H; subst s' r. exact Hs1.
Qed.

(** X23.  With one download at a time nothing in a session runs
    concurrently, and every request is paced: if the dispatches made so
    far are at least [1000 / rateLimit] ms apart (there is none in a new
    session) and the session remembers no request time that is ahead of
    the clock, the dispatches are as far apart after any calls,
    listings and batches alike. *)
Theorem one_at_a_time_sessions_are_paced :
  forall (cs : list Session.Call) (s s' : Service),
    (maxConcurrent (config s) == 1)%Q ->
    (1 <= rateLimit (config s))%Q ->
    Spec.stamped s ->
    Session.calls cs s = Some s' ->
    config s' = config s
    /\ Spec.paced (Service.minRequestInterval s)
         (Spec.dispatch_instants (trace s')).
Proof.
  induction cs as [|c cs IH]; intros s s' Hm Hr Hs H.
  - inversion H; subst. split; [reflexivity | exact (proj1 Hs)].
  - simpl in H. destruct (Session.call c s) as [s1|] eqn:E; [|discriminate].
    assert (Hstep : config s1 = config s /\ Spec.stamped s1).
    { destruct c as [fuel w f t|w|]; simpl in E.
      - destruct (Discovery.getEnvelopesWebApi fuel w f t s)
          as [[s2 r]|] eqn:E2; [|discriminate].
        inversion E; subst s2.
        split; [exact (proj1 (listing_frame w fuel f t s s1 r E2))|].
        exact (listing_is_paced w fuel f t s s1 r E2 Hr Hs).
      - destruct (Download.downloadDocuments w s) as [[s2 r]|] eqn:E2;
          [|discriminate].
        inversion E; subst s2.
        split; [|exact (download_stamped w s s1 r Hm Hr E2 Hs)].
        apply (download_frame w s s1 r); [|exact E2].
        rewrite Hm. apply Qle_refl.
      - inversion E; subst s1. split; [reflexivity|].
        apply (stamped_interrupt true). exact Hs. }
    destruct Hstep as [Hc1 Hs1].
    destruct (IH s1 s') as (Hc & Hp);
      [rewrite Hc1; exact Hm | rewrite Hc1; exact Hr | exact Hs1 | exact H |].
    split; [congruence|].
    unfold Service.minRequestInterval in *. rewrite Hc1 in Hp. exact Hp.
Qed.

Lemma one_at_a_time_sessions_are_paced_witness :
  exists s',
    Session.calls [Session.Batch Spec.calm_world] Sample.careful_service
    = Some s'
    /\ (Service.minRequestInterval Sample.careful_service == 500)%Q
    /\ Forall2 Qeq (Spec.dispatch_instants (trace s'))
         [10100; 10600; 11100]%Q
    /\ Spec.paced (Service.minRequestInterval Sample.careful_service)
         (Spec.dispatch_instants (trace s')).
Proof.
  destruct (Session.calls [Session.Batch Spec.calm_world]
              Sample.careful_service) as [s'|] eqn:E;
    [|vm_compute in E; discriminate].
  destruct (one_at_a_time_sessions_are_paced
              [Session.Batch Spec.calm_world] Sample.careful_service s')
    as (_ & Hp).
  - reflexivity.
  - discriminate.
  - split; [exact I | split; [constructor | discriminate]].
  - exact E.
  - exists s'. split; [reflexivity|]. split; [reflexivity|].
    split; [|exact Hp].
    vm_compute in E. inversion E.
    repeat constructor.
Defined.
